(** * SBVH: a shallow embedding of [SBVH.cpp] (TLVulkanRenderer)

    The build ([SBVH::Build], [SBVH::BuildRecursive]) and the two ray
    queries ([SBVH::GetIntersection], [SBVH::DoesIntersect]) are embedded
    as executable functions.  The build threads the working vector of
    [SBVHGeometryInfo], the node counter and the ordered primitive list
    explicitly; recursion on index ranges is bounded by fuel, and the
    three outcomes (a value, fuel exhausted, a failed assertion or an
    out-of-range access) are kept apart.  What the clipping of a
    triangle reads from vectors that no branch has assigned is a
    parameter of the model ([Unassigned]); the theorems hold for every
    value of it.

    Numbers: the C++ [float] is idealised as an exact rational extended
    with the IEEE special values (the two infinities and NaN).  An
    operation whose exact result lies beyond [FLT_MAX] overflows to an
    infinity; rounding and underflow are not modelled. *)

From Stdlib Require Import ZArith QArith Qround Bool List Lia Lqa Permutation Sorted.
Import ListNotations.

Set Implicit Arguments.
Set Warnings "-register-all".

(* ================================================================== *)
(** ** Idealised floats *)
(* ================================================================== *)

Module Flt.

Inductive flt : Type :=
| NaN : flt
| Inf (negative : bool) : flt
| Fin (q : Q) : flt.

Definition INFINITY : flt := Inf false.
Definition zero : flt := Fin 0.
Definition one : flt := Fin 1.

Definition Qltb (a b : Q) : bool := negb (Qle_bool b a).
Definition Qsign_neg (a : Q) : bool := Qltb a 0.
Definition Qis0 (a : Q) : bool := Qeq_bool a 0.

(** The largest finite [float], [(2 - 2^-23) * 2^127]. *)
Definition FLT_MAX : Q := Eval cbv in inject_Z (2 ^ 128 - 2 ^ 104).

(** The result of an operation whose exact value is [q]: a finite number
    up to [FLT_MAX] in magnitude, an infinity beyond (overflow). *)
Definition fin (q : Q) : flt :=
  let q' := Qred q in
  if Qltb FLT_MAX q' then Inf false
  else if Qltb q' (- FLT_MAX) then Inf true
  else Fin q'.

Definition neg (a : flt) : flt :=
  match a with
  | NaN => NaN
  | Inf s => Inf (negb s)
  | Fin q => Fin (Qred (- q))
  end.

Definition add (a b : flt) : flt :=
  match a, b with
  | NaN, _ | _, NaN => NaN
  | Inf s, Inf s' => if Bool.eqb s s' then Inf s else NaN
  | Inf s, Fin _ => Inf s
  | Fin _, Inf s => Inf s
  | Fin p, Fin q => fin (p + q)
  end.

Definition sub (a b : flt) : flt := add a (neg b).

Definition mul (a b : flt) : flt :=
  match a, b with
  | NaN, _ | _, NaN => NaN
  | Inf s, Inf s' => Inf (xorb s s')
  | Inf s, Fin q | Fin q, Inf s =>
      if Qis0 q then NaN else Inf (xorb s (Qsign_neg q))
  | Fin p, Fin q => fin (p * q)
  end.

(** A zero divisor is the positive zero: every divisor of the program
    is a difference or a surface area, never a negated zero. *)
Definition div (a b : flt) : flt :=
  match a, b with
  | NaN, _ | _, NaN => NaN
  | Inf _, Inf _ => NaN
  | Inf s, Fin q => Inf (xorb s (Qsign_neg q))
  | Fin _, Inf _ => Fin 0
  | Fin p, Fin q =>
      if Qis0 q
      then (if Qis0 p then NaN else Inf (Qsign_neg p))
      else fin (p / q)
  end.

(** [a < b]; false as soon as one side is NaN. *)
Definition ltb (a b : flt) : bool :=
  match a, b with
  | NaN, _ | _, NaN => false
  | Inf s, Inf s' => s && negb s'
  | Inf s, Fin _ => s
  | Fin _, Inf s => negb s
  | Fin p, Fin q => Qltb p q
  end.

Definition gtb (a b : flt) : bool := ltb b a.

(** [a == b]; false as soon as one side is NaN. *)
Definition eqb (a b : flt) : bool :=
  match a, b with
  | Inf s, Inf s' => Bool.eqb s s'
  | Fin p, Fin q => Qeq_bool p q
  | _, _ => false
  end.

(** [glm::min] and [glm::max]: [(y < x) ? y : x] and [(x < y) ? y : x]. *)
Definition min (x y : flt) : flt := if ltb y x then y else x.
Definition max (x y : flt) : flt := if ltb x y then y else x.

Definition of_int (z : Z) : flt := Fin (inject_Z z).

(** Conversion [float -> int]: truncation toward zero.  On NaN and the
    infinities the conversion is undefined in C++; the value the x86
    conversion instruction yields is used. *)
Definition INT_MIN : Z := (- 2 ^ 31)%Z.
Definition to_int (a : flt) : Z :=
  match a with
  | Fin q => Z.quot (Qnum q) (Zpos (Qden q))
  | _ => INT_MIN
  end.

Definition is_finite (a : flt) : bool :=
  match a with Fin _ => true | _ => false end.

End Flt.

Import Flt.

Declare Scope flt_scope.
Delimit Scope flt_scope with flt.
Bind Scope flt_scope with flt.
Infix "+" := Flt.add : flt_scope.
Infix "-" := Flt.sub : flt_scope.
Infix "*" := Flt.mul : flt_scope.
Infix "/" := Flt.div : flt_scope.
Infix "<?" := Flt.ltb : flt_scope.
Infix ">?" := Flt.gtb : flt_scope.
Infix "==?" := Flt.eqb (at level 70) : flt_scope.

(* ================================================================== *)
(** ** Vectors and axes *)
(* ================================================================== *)

Module EAxis.
Inductive t : Type := X | Y | Z.
(** [static_cast<int>(axis)] *)
Definition to_int (a : t) : BinNums.Z :=
  match a with X => 0%Z | Y => 1%Z | Z => 2%Z end.
End EAxis.

Record vec3 : Type := mkvec3 { vx : flt; vy : flt; vz : flt }.

Definition vget (v : vec3) (a : EAxis.t) : flt :=
  match a with EAxis.X => vx v | EAxis.Y => vy v | EAxis.Z => vz v end.

Definition vset (v : vec3) (a : EAxis.t) (x : flt) : vec3 :=
  match a with
  | EAxis.X => mkvec3 x (vy v) (vz v)
  | EAxis.Y => mkvec3 (vx v) x (vz v)
  | EAxis.Z => mkvec3 (vx v) (vy v) x
  end.

Definition vmap2 (f : flt -> flt -> flt) (a b : vec3) : vec3 :=
  mkvec3 (f (vx a) (vx b)) (f (vy a) (vy b)) (f (vz a) (vz b)).

Definition vsub : vec3 -> vec3 -> vec3 := vmap2 Flt.sub.
Definition vmin : vec3 -> vec3 -> vec3 := vmap2 Flt.min.
Definition vmax : vec3 -> vec3 -> vec3 := vmap2 Flt.max.

Definition dot (a b : vec3) : flt :=
  (vx a * vx b + vy a * vy b + vz a * vz b)%flt.

Definition vfinite (v : vec3) : bool :=
  is_finite (vx v) && is_finite (vy v) && is_finite (vz v).

Definition vec3_splat (x : flt) : vec3 := mkvec3 x x x.

(* ================================================================== *)
(** ** Bounding boxes *)
(* ================================================================== *)

(** Modelled from the spec: [BBox.h] is not part of the sources at hand.
    A box has its two corners and a centroid; the default box is the
    empty box, neutral for the union (corners at plus and minus
    infinity); union and overlap are componentwise; the surface area is
    [2 (dx dy + dx dz + dy dz)]; the maximum extent is the axis of the
    longest side; the offset of a point is its position relative to the
    minimum corner, normalised by the side where the side is positive. *)
Record BBox : Type := mkBBox {
  m_min : vec3;
  m_max : vec3;
  m_centroid : vec3
}.

Definition half : flt := Fin (1 # 2).

Definition midpoint (lo hi : vec3) : vec3 :=
  vmap2 (fun a b => (half * (a + b))%flt) lo hi.

Definition BBox_default : BBox :=
  mkBBox (vec3_splat INFINITY) (vec3_splat (Inf true)) (vec3_splat zero).

Definition BBox_of_corners (lo hi : vec3) : BBox :=
  mkBBox lo hi (midpoint lo hi).

Definition BBoxUnion (a b : BBox) : BBox :=
  BBox_of_corners (vmin (m_min a) (m_min b)) (vmax (m_max a) (m_max b)).

Definition BBoxUnionPoint (a : BBox) (p : vec3) : BBox :=
  BBox_of_corners (vmin (m_min a) p) (vmax (m_max a) p).

Definition BBoxOverlap (a b : BBox) : BBox :=
  BBox_of_corners (vmax (m_min a) (m_min b)) (vmin (m_max a) (m_max b)).

Definition BBoxFromPoints (pts : list vec3) : BBox :=
  fold_left BBoxUnionPoint pts BBox_default.

Definition GetSurfaceArea (b : BBox) : flt :=
  let d := vsub (m_max b) (m_min b) in
  (Fin 2 * (vx d * vy d + vx d * vz d + vy d * vz d))%flt.

Definition BBoxMaximumExtent (b : BBox) : EAxis.t :=
  let d := vsub (m_max b) (m_min b) in
  if (vx d >? vy d)%flt && (vx d >? vz d)%flt then EAxis.X
  else if (vy d >? vz d)%flt then EAxis.Y
  else EAxis.Z.

Definition Offset (b : BBox) (p : vec3) : vec3 :=
  let o := vsub p (m_min b) in
  let scale (a : EAxis.t) : flt :=
    if (vget (m_max b) a >? vget (m_min b) a)%flt
    then (vget o a / (vget (m_max b) a - vget (m_min b) a))%flt
    else vget o a in
  mkvec3 (scale EAxis.X) (scale EAxis.Y) (scale EAxis.Z).

(* ================================================================== *)
(** ** Geometry, rays and intersections *)
(* ================================================================== *)

Record Ray : Type := mkRay { m_origin : vec3; m_direction : vec3 }.

Record Triangle : Type := mkTriangle { vert0 : vec3; vert1 : vec3; vert2 : vec3 }.

(** Modelled from the spec: the [Intersection] record is declared outside
    the sources at hand.  It carries the distance [t] along the ray and
    the object hit; a default-constructed record stands for no hit. *)
Record Intersection : Type := mkIntersection {
  isx_t : flt;
  hitObject : option nat
}.

Definition Intersection_default : Intersection :=
  mkIntersection (Fin (-1)) None.

(** The [Geometry] interface: a bounding box, a ray test, and the
    vertices when the object is a [Triangle] (the [dynamic_cast]). *)
Record Geometry : Type := mkGeometry {
  geom_GetBBox : BBox;
  geom_triangle : option Triangle;
  geom_GetIntersection : Ray -> Intersection
}.

Record SBVHGeometryInfo : Type := mkGeomInfo {
  geometryId : nat;
  bbox : BBox;
  straddling : bool
}.

Definition set_straddling (b : bool) (g : SBVHGeometryInfo) : SBVHGeometryInfo :=
  mkGeomInfo (geometryId g) (bbox g) b.

(** Tree nodes.  A child pointer may be null. *)
Inductive SBVHNode : Type :=
| SBVHLeaf (m_nodeIdx : nat) (m_firstGeomOffset : nat) (m_numGeoms : nat)
           (m_bbox : BBox)
| SBVHInterior (m_nearChild m_farChild : option SBVHNode) (m_nodeIdx : nat)
               (m_splitAxis : EAxis.t) (m_bbox : BBox).

Definition node_idx (n : SBVHNode) : nat :=
  match n with
  | SBVHLeaf i _ _ _ => i
  | SBVHInterior _ _ i _ _ => i
  end.

Definition node_bbox (n : SBVHNode) : BBox :=
  match n with
  | SBVHLeaf _ _ _ b => b
  | SBVHInterior _ _ _ _ b => b
  end.

Definition IsLeaf (n : SBVHNode) : bool :=
  match n with SBVHLeaf _ _ _ _ => true | _ => false end.

Definition child_bbox (c : option SBVHNode) : BBox :=
  match c with Some n => node_bbox n | None => BBox_default end.

(** Modelled from the spec: the constructor of an interior node is in
    [SBVH.h]; the box of an interior node is the union of the boxes of
    its children. *)
Definition new_SBVHNode (nearChild farChild : option SBVHNode)
    (nodeIdx : nat) (dim : EAxis.t) : SBVHNode :=
  SBVHInterior nearChild farChild nodeIdx dim
    (BBoxUnion (child_bbox nearChild) (child_bbox farChild)).

Inductive ESplitMethod : Type := EqualCounts | SAH | SpatialSplit_SAH.

(* ================================================================== *)
(** ** Outcomes *)
(* ================================================================== *)

(** [OutOfFuel]: the recursion did not come back within the fuel given.
    [Fault]: a failed [assert], an access out of range, a null
    dereference or a read of an uninitialised value. *)
Inductive result (A : Type) : Type :=
| Ok (a : A)
| OutOfFuel
| Fault.

Arguments Ok {A} a.
Arguments OutOfFuel {A}.
Arguments Fault {A}.

Definition bind {A B : Type} (c : result A) (k : A -> result B) : result B :=
  match c with
  | Ok a => k a
  | OutOfFuel => OutOfFuel
  | Fault => Fault
  end.

Notation "x <- c ;; k" := (bind c (fun x => k))
  (at level 61, c at next level, right associativity).
Notation "' p <- c ;; k" := (bind c (fun p => k))
  (at level 61, p pattern, c at next level, right associativity).

Definition of_option {A : Type} (o : option A) : result A :=
  match o with Some a => Ok a | None => Fault end.

(* ================================================================== *)
(** ** Ranges of a vector *)
(* ================================================================== *)

Section Ranges.
Context {A : Type}.

(** The elements at positions [first .. last-1]. *)
Definition slice (first last : nat) (l : list A) : list A :=
  firstn (last - first) (skipn first l).

(** The vector with the positions [first .. last-1] replaced. *)
Definition splice (first last : nat) (l mid : list A) : list A :=
  firstn first l ++ mid ++ skipn last l.

Fixpoint upd (i : nat) (f : A -> A) (l : list A) : list A :=
  match l, i with
  | [], _ => []
  | x :: r, O => f x :: r
  | x :: r, S j => x :: upd j f r
  end.

(** [std::remove_if] on trivially copyable elements: the elements kept
    are shifted to the front in order; the positions behind them are
    not written and keep what they held.  The returned position (the
    new logical end) is the length of the first component. *)
Definition remove_if (p : A -> bool) (l : list A) : list A * list A :=
  let kept := filter (fun x => negb (p x)) l in
  (kept, skipn (length kept) l).

(** [std::partition]: the elements satisfying [p] first, the others
    behind; the order inside each part is unspecified, the order of the
    input is kept here.  Returns the rearranged range and the number of
    elements satisfying [p] (the position [std::partition] returns). *)
Definition partition_range (p : A -> bool) (l : list A) : list A * nat :=
  let yes := filter p l in
  (yes ++ filter (fun x => negb (p x)) l, length yes).

(** Insertion into a sorted list, before the first greater element. *)
Fixpoint insert_sorted (lt : A -> A -> bool) (x : A) (l : list A) : list A :=
  match l with
  | [] => [x]
  | y :: r => if lt x y then x :: l else y :: insert_sorted lt x r
  end.

(** [std::nth_element]: the order it leaves is unspecified beyond
    "what is before the nth position is not greater, what is after is
    not smaller"; a sorted range is such an order. *)
Definition nth_element (lt : A -> A -> bool) (l : list A) : list A :=
  fold_right (insert_sorted lt) [] l.

End Ranges.

(* ================================================================== *)
(** ** The build *)
(* ================================================================== *)

Record BucketInfo : Type := mkBucketInfo {
  count : Z;
  bucket_bbox : BBox;
  enter : Z;
  exit : Z
}.

Definition BucketInfo_default : BucketInfo := mkBucketInfo 0 BBox_default 0 0.

Definition COST_TRAVERSAL : flt := Fin (1 # 8).
Definition COST_INTERSECTION : flt := Fin 1.
Definition NUM_BUCKET : Z := 12.
Definition RESTRICT_ALPHA : flt := Fin (2 # 10).

Definition new_buckets : list BucketInfo :=
  repeat BucketInfo_default (Z.to_nat NUM_BUCKET).

(** [int whichBucket = NUM_BUCKET * box.Offset(p)[dim];] *)
Definition bucketOf (box : BBox) (p : vec3) (dim : EAxis.t) : Z :=
  to_int (of_int NUM_BUCKET * vget (Offset box p) dim)%flt.

(** [assert(b <= NUM_BUCKET); if (b == NUM_BUCKET) b = NUM_BUCKET - 1;] *)
Definition clampBucket (b : Z) : result Z :=
  if (NUM_BUCKET <? b)%Z then Fault
  else Ok (if (b =? NUM_BUCKET)%Z then NUM_BUCKET - 1 else b)%Z.

(** The same without the assertion, for the partition predicate: every
    element the predicate sees has passed the assertion in the bucket
    loop before. *)
Definition clampBucket_total (b : Z) : Z :=
  if (b =? NUM_BUCKET)%Z then (NUM_BUCKET - 1)%Z else b.

(** [buckets[b] = f(buckets[b])], with the array bounds checked. *)
Definition updBucket (b : Z) (f : BucketInfo -> BucketInfo)
    (bs : list BucketInfo) : result (list BucketInfo) :=
  if (b <? 0)%Z || (NUM_BUCKET <=? b)%Z then Fault
  else Ok (upd (Z.to_nat b) f bs).

Definition getBucket (b : Z) (bs : list BucketInfo) : result BucketInfo :=
  if (b <? 0)%Z then Fault else of_option (nth_error bs (Z.to_nat b)).

(** [CompareCentroid(dim)] *)
Definition CompareCentroid (dim : EAxis.t) (node1 node2 : SBVHGeometryInfo) : bool :=
  (vget (m_centroid (bbox node1)) dim <? vget (m_centroid (bbox node2)) dim)%flt.

(** [PartitionEqualCounts]: the range [first, last) is given as [range];
    returns the rearranged range and [mid]. *)
Definition PartitionEqualCounts (dim : EAxis.t) (first last : Z)
    (range : list SBVHGeometryInfo) : list SBVHGeometryInfo * Z :=
  (nth_element (CompareCentroid dim) range, Z.quot (first + last) 2).

(** The bucket of a primitive by its centroid, as computed at lines 139,
    176, 289 and 442 and in the partition predicates. *)
Definition centroidBucket (bboxCentroids : BBox) (dim : EAxis.t)
    (gi : SBVHGeometryInfo) : Z :=
  bucketOf bboxCentroids (m_centroid (bbox gi)) dim.

(** Lines 137-145 and 441-448: the object buckets. *)
Fixpoint fillBuckets (bboxCentroids : BBox) (dim : EAxis.t)
    (range : list SBVHGeometryInfo) (buckets : list BucketInfo)
    : result (list BucketInfo) :=
  match range with
  | [] => Ok buckets
  | gi :: rest =>
      whichBucket <- clampBucket (centroidBucket bboxCentroids dim gi) ;;
      buckets' <- updBucket whichBucket
        (fun b => mkBucketInfo (count b + 1)
                    (BBoxUnion (bucket_bbox b) (bbox gi)) (enter b) (exit b))
        buckets ;;
      fillBuckets bboxCentroids dim rest buckets'
  end.

(** The inner loops over [j <= i] and [j > i]: the union of the boxes and
    the sum of the counts of some buckets, on top of [bbox0], [count0]. *)
Definition sumBuckets (bs : list BucketInfo) (bbox0 : BBox) (count0 : Z)
    : BBox * Z :=
  fold_left (fun (acc : BBox * Z) b =>
               (BBoxUnion (fst acc) (bucket_bbox b), (snd acc + count b)%Z))
            bs (bbox0, count0).

Definition bucketsUpTo (i : nat) (bs : list BucketInfo) := firstn (S i) bs.
Definition bucketsAfter (i : nat) (bs : list BucketInfo) := skipn (S i) bs.

(** [COST_TRAVERSAL + COST_INTERSECTION * (count0 * SA(bbox0) +
    count1 * SA(bbox1)) * invAllGeometriesSA] *)
Definition splitCost (count0 : Z) (bbox0 : BBox) (count1 : Z) (bbox1 : BBox)
    (invAllGeometriesSA : flt) : flt :=
  (COST_TRAVERSAL +
   COST_INTERSECTION *
     (of_int count0 * GetSurfaceArea bbox0 + of_int count1 * GetSurfaceArea bbox1) *
     invAllGeometriesSA)%flt.

(** The boundaries [0 .. NUM_BUCKET - 2]. *)
Definition boundaries : list nat := seq 0 (Z.to_nat NUM_BUCKET - 1).

(** *** The SAH candidate (lines 450-480) *)

Definition objectSides (i : nat) (buckets : list BucketInfo)
    : (BBox * Z) * (BBox * Z) :=
  (sumBuckets (bucketsUpTo i buckets) BBox_default 0,
   sumBuckets (bucketsAfter i buckets) BBox_default 0).

(** Lines 324 and 468. *)
Definition objectSplitCostAt (i : nat) (buckets : list BucketInfo)
    (invAllGeometriesSA : flt) : flt :=
  let '((bbox0, count0), (bbox1, count1)) := objectSides i buckets in
  splitCost count0 bbox0 count1 bbox1 invAllGeometriesSA.

(** Lines 473-480: [minCost] and [minCostBucket]; the scan starts from
    [costs[0]] and replaces the minimum on a strictly smaller cost. *)
Definition scanMinCost (costs : list flt) : flt * Z :=
  match costs with
  | [] => (NaN, 0%Z)
  | c0 :: rest =>
      fst (fold_left
             (fun (acc : (flt * Z) * Z) c =>
                let '((minCost, minCostBucket), i) := acc in
                if (c <? minCost)%flt then ((c, i), (i + 1)%Z)
                else ((minCost, minCostBucket), (i + 1)%Z))
             rest ((c0, 0%Z), 1%Z))
  end.

(** Lines 484 and 384: split when the range is above the leaf bound or
    the best split is cheaper than a leaf; a leaf otherwise. *)
Definition splitsNode (numPrimitives m_maxGeomsInNode : Z) (minCost : flt) : bool :=
  let leafCost := (of_int numPrimitives * COST_INTERSECTION)%flt in
  (m_maxGeomsInNode <? numPrimitives)%Z || (minCost <? leafCost)%flt.

(** The partition predicate of lines 391-398, 404-411 and 488-495. *)
Definition inNearHalf (bboxCentroids : BBox) (dim : EAxis.t) (minCostBucket : Z)
    (gi : SBVHGeometryInfo) : bool :=
  (clampBucket_total (centroidBucket bboxCentroids dim gi) <=? minCostBucket)%Z.

(** *** Clipping a triangle against the plane behind a bucket
        (lines 187-277) *)

Definition planeNormal (dim : EAxis.t) : vec3 :=
  match dim with
  | EAxis.X => mkvec3 one zero zero
  | EAxis.Y => mkvec3 zero one zero
  | EAxis.Z => mkvec3 zero zero one
  end.

Definition splittinPlaneAxis (dim : EAxis.t) : EAxis.t * EAxis.t :=
  match dim with
  | EAxis.X => (EAxis.Y, EAxis.Z)
  | EAxis.Y => (EAxis.X, EAxis.Z)
  | EAxis.Z => (EAxis.X, EAxis.Y)
  end.

Definition splittingPlanePoint (bboxAllGeoms : BBox) (dim : EAxis.t)
    (bucketSize : flt) (bucket : Z) : vec3 :=
  vset (m_min bboxAllGeoms) dim
       (bucketSize * of_int (bucket + 1) + vget (m_min bboxAllGeoms) dim)%flt.

(** Lines 222-223 default-construct [pointAbove] and [pointsBelow].  When
    a single vertex is below the plane, none of the three branches of
    lines 224-241 assigns them, and lines 243-256 go on with what they
    hold.  [vec3] is GLM's, and GLM is not among these sources: its
    default constructor writes zeros or writes nothing, depending on the
    version and on how it is configured.  What the three vectors hold
    there is therefore a parameter of the model: [pointAbove], then
    [pointsBelow[0]] and [pointsBelow[1]], for the triangle, the box of
    the range, the axis, the bucket size and the bucket of the
    iteration. *)
Class Unassigned : Type :=
  unassigned : Triangle -> BBox -> EAxis.t -> flt -> Z -> vec3 * (vec3 * vec3).

(** The zero-initialising default constructor. *)
Definition Unassigned_zero : Unassigned :=
  fun _ _ _ _ _ => (vec3_splat zero, (vec3_splat zero, vec3_splat zero)).

Section Clipping.
Context {U : Unassigned}.

(** The tight box of the part of [pTri] in [bucket] (lines 187-277).  The
    assertions of lines 218-219 fail when the three vertices are on one
    side of the plane.  With two vertices below, lines 224-241 name the
    vertex above and the two below; with one vertex below they name
    nothing, and the intersection points are computed from the
    unassigned vectors. *)
Definition clipTriangle (pTri : Triangle) (bboxAllGeoms : BBox) (dim : EAxis.t)
    (bucketSize : flt) (bucket : Z) : result BBox :=
  let pointOnSplittingPlane := splittingPlanePoint bboxAllGeoms dim bucketSize bucket in
  let below (v : vec3) : bool :=
    (dot (vsub v pointOnSplittingPlane) (planeNormal dim) <? zero)%flt in
  let isVert0BelowPlane := below (vert0 pTri) in
  let isVert1BelowPlane := below (vert1 pTri) in
  let isVert2BelowPlane := below (vert2 pTri) in
  if isVert0BelowPlane && isVert1BelowPlane && isVert2BelowPlane then Fault
  else if negb isVert0BelowPlane && negb isVert1BelowPlane && negb isVert2BelowPlane
  then Fault
  else
    let '(pointAbove, pointsBelow) :=
      if isVert0BelowPlane && isVert1BelowPlane
      then (vert2 pTri, [vert0 pTri; vert1 pTri])
      else if isVert0BelowPlane && isVert2BelowPlane
      then (vert1 pTri, [vert0 pTri; vert2 pTri])
      else if isVert1BelowPlane && isVert2BelowPlane
      then (vert0 pTri, [vert1 pTri; vert2 pTri])
      else
        let '(p, (q0, q1)) := unassigned pTri bboxAllGeoms dim bucketSize bucket in
        (p, [q0; q1]) in
    let plane := vget pointOnSplittingPlane dim in
    let along (pointBelow : vec3) (axis : EAxis.t) : flt :=
      ((vget pointBelow axis - vget pointAbove axis) /
       (vget pointBelow dim - vget pointAbove dim) *
       (plane - vget pointAbove dim) +
       vget pointAbove axis)%flt in
    let isxPoint (pointBelow : vec3) : vec3 :=
      let '(a0, a1) := splittinPlaneAxis dim in
      vset (vset (vset (vec3_splat zero) dim plane) a0 (along pointBelow a0))
           a1 (along pointBelow a1) in
    let isxPoints := map isxPoint pointsBelow in
    let inSlab (v : vec3) : bool :=
      (vget v dim >? plane - bucketSize)%flt && (vget v dim <? plane)%flt in
    let grow (b : BBox) (v : vec3) : BBox :=
      if inSlab v then BBoxUnionPoint b v else b in
    Ok (grow (grow (grow (BBoxFromPoints isxPoints) (vert0 pTri)) (vert1 pTri))
             (vert2 pTri)).

End Clipping.

(** Lines 176-182 and 289-294: a reference counted whole in the bucket of
    its centroid.  The box written is the union of the OBJECT bucket's
    box with the primitive's box. *)
Definition countWhole (bboxCentroids : BBox) (dim : EAxis.t)
    (buckets : list BucketInfo) (gi : SBVHGeometryInfo)
    (spatialSplitBuckets : list BucketInfo) : result (list BucketInfo) :=
  whichBucket <- clampBucket (centroidBucket bboxCentroids dim gi) ;;
  ob <- getBucket whichBucket buckets ;;
  updBucket whichBucket
    (fun b => mkBucketInfo (count b + 1)
                (BBoxUnion (bucket_bbox ob) (bbox gi)) (enter b) (exit b))
    spatialSplitBuckets.

Section SpatialBuckets.
Context {U : Unassigned}.
Variable m_geoms : list Geometry.
Variables bboxAllGeoms bboxCentroids : BBox.
Variable dim : EAxis.t.
Variable buckets : list BucketInfo.
Variable bucketSize : flt.

(** Lines 167-282: the loop over the buckets a straddling reference
    crosses, [n] iterations from [bucket] on. *)
Fixpoint clipLoop (n : nat) (bucket : Z) (i : nat)
    (geomInfos : list SBVHGeometryInfo) (spatialSplitBuckets : list BucketInfo)
    : result (list SBVHGeometryInfo * list BucketInfo) :=
  match n with
  | O => Ok (geomInfos, spatialSplitBuckets)
  | S n' =>
      gi <- of_option (nth_error geomInfos i) ;;
      pGeom <- of_option (nth_error m_geoms (geometryId gi)) ;;
      match geom_triangle pGeom with
      | None =>
          sb <- countWhole bboxCentroids dim buckets gi spatialSplitBuckets ;;
          Ok (upd i (set_straddling false) geomInfos, sb)
      | Some pTri =>
          tight <- clipTriangle pTri bboxAllGeoms dim bucketSize bucket ;;
          let tightBBoxGeomInfo := mkGeomInfo (geometryId gi) tight false in
          sb <- updBucket bucket
                  (fun b => mkBucketInfo (count b)
                              (BBoxUnion tight (bucket_bbox b)) (enter b) (exit b))
                  spatialSplitBuckets ;;
          clipLoop n' (bucket + 1)%Z i (geomInfos ++ [tightBBoxGeomInfo]) sb
      end
  end.

(** Lines 153-296: one primitive of the range. *)
Definition spatialStep (i : nat)
    (st : list SBVHGeometryInfo * list BucketInfo)
    : result (list SBVHGeometryInfo * list BucketInfo) :=
  let '(geomInfos, spatialSplitBuckets) := st in
  gi <- of_option (nth_error geomInfos i) ;;
  startEdgeBucket <- clampBucket (bucketOf bboxAllGeoms (m_min (bbox gi)) dim) ;;
  endEdgeBucket <- clampBucket (bucketOf bboxAllGeoms (m_max (bbox gi)) dim) ;;
  if negb (startEdgeBucket =? endEdgeBucket)%Z then
    '(geomInfos', sb) <-
       clipLoop (Z.to_nat (endEdgeBucket - startEdgeBucket)) startEdgeBucket i
                (upd i (set_straddling true) geomInfos) spatialSplitBuckets ;;
    sb1 <- updBucket startEdgeBucket
             (fun b => mkBucketInfo (count b) (bucket_bbox b) (enter b + 1) (exit b))
             sb ;;
    sb2 <- updBucket endEdgeBucket
             (fun b => mkBucketInfo (count b) (bucket_bbox b) (enter b) (exit b + 1))
             sb1 ;;
    Ok (geomInfos', sb2)
  else
    sb <- countWhole bboxCentroids dim buckets gi spatialSplitBuckets ;;
    Ok (geomInfos, sb).

(** Lines 152-297: [n] primitives from index [i] on. *)
Fixpoint spatialLoop (n : nat) (i : nat)
    (st : list SBVHGeometryInfo * list BucketInfo)
    : result (list SBVHGeometryInfo * list BucketInfo) :=
  match n with
  | O => Ok st
  | S n' => st' <- spatialStep i st ;; spatialLoop n' (S i) st'
  end.

End SpatialBuckets.

(** *** Object against spatial candidate (lines 299-372) *)

Record SplitState : Type := mkSplitState {
  minSplitCost : flt;
  minSplitCostBucket : Z;
  spatialSplitCost : flt;
  isSpatialSplit : bool
}.

Definition SplitState_init : SplitState :=
  mkSplitState INFINITY 0 INFINITY false.

(** Line 331: is the overlap of the object children large enough for the
    spatial candidate to be considered at boundary [i]? *)
Definition restrictionMet (i : nat) (buckets : list BucketInfo)
    (invAllGeometriesSA : flt) : bool :=
  let '((bbox0, _), (bbox1, _)) := objectSides i buckets in
  let SAChildrenOverlap := GetSurfaceArea (BBoxOverlap bbox0 bbox1) in
  (SAChildrenOverlap * invAllGeometriesSA >? RESTRICT_ALPHA)%flt.

(** Lines 336-353: the cost assigned to [spatialSplitCost] at boundary
    [i].  [bbox0] and [bbox1] are reset; [count0] and [count1] are not
    and still hold the counts of the object buckets. *)
Definition spatialSplitCostAt (i : nat) (buckets spatialSplitBuckets : list BucketInfo)
    (invAllGeometriesSA : flt) : flt :=
  let '((_, count0), (_, count1)) := objectSides i buckets in
  let '(bbox0, count0') :=
    sumBuckets (bucketsUpTo i spatialSplitBuckets) BBox_default count0 in
  let '(bbox1, count1') :=
    sumBuckets (bucketsAfter i spatialSplitBuckets) BBox_default count1 in
  splitCost count0' bbox0 count1' bbox1 invAllGeometriesSA.

(** Lines 358-371. *)
Definition selectCandidate (i : nat) (objectSplitCost spatialSplitCost' : flt)
    (st : SplitState) : SplitState :=
  if (objectSplitCost <? spatialSplitCost')%flt then
    if (objectSplitCost <? minSplitCost st)%flt
    then mkSplitState objectSplitCost (Z.of_nat i) spatialSplitCost' false
    else mkSplitState (minSplitCost st) (minSplitCostBucket st) spatialSplitCost'
                      (isSpatialSplit st)
  else
    if (spatialSplitCost' <? minSplitCost st)%flt
    then mkSplitState spatialSplitCost' (Z.of_nat i) spatialSplitCost' true
    else mkSplitState (minSplitCost st) (minSplitCostBucket st) spatialSplitCost'
                      (isSpatialSplit st).

(** One turn of the loop of line 305. *)
Definition candidateStep (buckets spatialSplitBuckets : list BucketInfo)
    (invAllGeometriesSA : flt) (st : SplitState) (i : nat) : SplitState :=
  let objectSplitCost := objectSplitCostAt i buckets invAllGeometriesSA in
  let spatialSplitCost' :=
    if restrictionMet i buckets invAllGeometriesSA
    then spatialSplitCostAt i buckets spatialSplitBuckets invAllGeometriesSA
    else spatialSplitCost st in
  selectCandidate i objectSplitCost spatialSplitCost' st.

Definition findCandidate (buckets spatialSplitBuckets : list BucketInfo)
    (invAllGeometriesSA : flt) : SplitState :=
  fold_left (candidateStep buckets spatialSplitBuckets invAllGeometriesSA)
            boundaries SplitState_init.

(** Lines 374-380: the pass over [first, last) that is to remove the
    straddling entries.  The position [std::remove_if] returns is
    dropped, so the range keeps its bounds: what is written back is the
    whole rearranged range. *)
Definition removeStraddling (range : list SBVHGeometryInfo) : list SBVHGeometryInfo :=
  let '(kept, tail) := remove_if straddling range in
  kept ++ tail.

(** *** The split of one range (the [switch] of lines 121-520) *)

Section ChooseSplit.
Context {U : Unassigned}.
Variable m_splitMethod : ESplitMethod.
Variable m_maxGeomsInNode : Z.
Variable m_geoms : list Geometry.

(** The state of the spatial branch when it reaches line 382: the
    working vector, and the winning candidate. *)
Definition spatialCandidate (geomInfos : list SBVHGeometryInfo) (first last : nat)
    (bboxAllGeoms bboxCentroids : BBox) (dim : EAxis.t)
    : result (list SBVHGeometryInfo * SplitState) :=
  let invAllGeometriesSA := (one / GetSurfaceArea bboxAllGeoms)%flt in
  buckets <- fillBuckets bboxCentroids dim (slice first last geomInfos) new_buckets ;;
  let bucketSize :=
    ((vget (m_max bboxAllGeoms) dim - vget (m_min bboxAllGeoms) dim) /
     of_int NUM_BUCKET)%flt in
  '(geomInfos1, spatialSplitBuckets) <-
     spatialLoop m_geoms bboxAllGeoms bboxCentroids dim buckets bucketSize
                 (last - first) first (geomInfos, new_buckets) ;;
  let st := findCandidate buckets spatialSplitBuckets invAllGeometriesSA in
  let geomInfos2 :=
    if isSpatialSplit st
    then splice first last geomInfos1
                (removeStraddling (slice first last geomInfos1))
    else geomInfos1 in
  Ok (geomInfos2, st).

(** Returns the working vector and [Some mid] for a split, [None] for
    a leaf. *)
Definition chooseSplit (geomInfos : list SBVHGeometryInfo) (first last : Z)
    (bboxAllGeoms bboxCentroids : BBox) (dim : EAxis.t)
    : result (list SBVHGeometryInfo * option Z) :=
  let f := Z.to_nat first in
  let l := Z.to_nat last in
  let numPrimitives := (last - first)%Z in
  let invAllGeometriesSA := (one / GetSurfaceArea bboxAllGeoms)%flt in
  let equalCounts :=
    let '(range', mid) :=
      PartitionEqualCounts dim first last (slice f l geomInfos) in
    Ok (splice f l geomInfos range', Some mid) in
  let partitionAt (geomInfos : list SBVHGeometryInfo) (minCostBucket : Z) :=
    let '(range', k) :=
      partition_range (inNearHalf bboxCentroids dim minCostBucket)
                      (slice f l geomInfos) in
    (splice f l geomInfos range', Some (first + Z.of_nat k)%Z) in
  match m_splitMethod with
  | SpatialSplit_SAH =>
      if (numPrimitives <=? 4)%Z then equalCounts
      else
        '(geomInfos2, st) <-
           spatialCandidate geomInfos f l bboxAllGeoms bboxCentroids dim ;;
        if splitsNode numPrimitives m_maxGeomsInNode (minSplitCost st)
        then Ok (partitionAt geomInfos2 (minSplitCostBucket st))
        else Ok (geomInfos2, None)
  | SAH =>
      if (numPrimitives <=? 4)%Z then equalCounts
      else
        buckets <- fillBuckets bboxCentroids dim (slice f l geomInfos) new_buckets ;;
        let costs :=
          map (fun i => objectSplitCostAt i buckets invAllGeometriesSA) boundaries in
        let '(minCost, minCostBucket) := scanMinCost costs in
        if splitsNode numPrimitives m_maxGeomsInNode minCost
        then Ok (partitionAt geomInfos minCostBucket)
        else Ok (geomInfos, None)
  | EqualCounts => equalCounts
  end.

End ChooseSplit.

(** *** [SBVH::BuildRecursive] and [SBVH::Build] *)

Fixpoint traverse {A B : Type} (f : A -> result B) (l : list A) : result (list B) :=
  match l with
  | [] => Ok []
  | x :: r => y <- f x ;; ys <- traverse f r ;; Ok (y :: ys)
  end.

(** What [BuildRecursive] reads and writes through its reference
    parameters. *)
Record BuildState : Type := mkBuildState {
  geomInfos : list SBVHGeometryInfo;
  nodeCount : nat;
  orderedGeoms : list Geometry
}.

Definition bboxOfRange (range : list SBVHGeometryInfo) : BBox :=
  fold_left (fun b gi => BBoxUnion b (bbox gi)) range BBox_default.

Definition centroidBoxOfRange (range : list SBVHGeometryInfo) : BBox :=
  fold_left (fun b gi => BBoxUnionPoint b (m_centroid (bbox gi))) range BBox_default.

Module SBVH.
Section Build.
Context {U : Unassigned}.
Variable m_splitMethod : ESplitMethod.
Variable m_maxGeomsInNode : Z.
Variable m_geoms : list Geometry.

(** The leaf block of lines 68-77, 88-98, 419-428 and 502-511. *)
Definition makeLeaf (range : list SBVHGeometryInfo) (numPrimitives : Z)
    (bboxAllGeoms : BBox) (st : BuildState)
    : result (option SBVHNode * BuildState) :=
  let firstGeomOffset := length (orderedGeoms st) in
  pushed <- traverse (fun gi => of_option (nth_error m_geoms (geometryId gi))) range ;;
  Ok (Some (SBVHLeaf (nodeCount st) firstGeomOffset (Z.to_nat numPrimitives)
                     bboxAllGeoms),
      mkBuildState (geomInfos st) (S (nodeCount st)) (orderedGeoms st ++ pushed)).

Fixpoint BuildRecursive (fuel : nat) (first last : Z) (st : BuildState)
    : result (option SBVHNode * BuildState) :=
  match fuel with
  | O => OutOfFuel
  | S fuel' =>
      if (last <? first)%Z || (last <? 0)%Z || (first <? 0)%Z then Ok (None, st)
      else if (Z.of_nat (length (geomInfos st)) <? last)%Z then Fault
      else
        let f := Z.to_nat first in
        let l := Z.to_nat last in
        let range := slice f l (geomInfos st) in
        let bboxAllGeoms := bboxOfRange range in
        let numPrimitives := (last - first)%Z in
        if (numPrimitives =? 1)%Z then makeLeaf range numPrimitives bboxAllGeoms st
        else
          let bboxCentroids := centroidBoxOfRange range in
          let dim := BBoxMaximumExtent bboxCentroids in
          if (vget (m_max bboxCentroids) dim ==? vget (m_min bboxCentroids) dim)%flt
          then makeLeaf range numPrimitives bboxAllGeoms st
          else
            '(geomInfos', split) <-
               chooseSplit m_splitMethod m_maxGeomsInNode m_geoms
                           (geomInfos st) first last bboxAllGeoms bboxCentroids dim ;;
            let st' := mkBuildState geomInfos' (nodeCount st) (orderedGeoms st) in
            match split with
            | None =>
                makeLeaf (slice f l geomInfos') numPrimitives bboxAllGeoms st'
            | Some mid =>
                '(nearChild, st1) <- BuildRecursive fuel' first mid st' ;;
                '(farChild, st2) <- BuildRecursive fuel' mid last st1 ;;
                Ok (Some (new_SBVHNode nearChild farChild (nodeCount st2) dim),
                    mkBuildState (geomInfos st2) (S (nodeCount st2))
                                 (orderedGeoms st2))
            end
  end.

End Build.

(** The structure after [Build]: the root, the reordered primitives and
    the flattened nodes. *)
Record t : Type := mkSBVH {
  m_root : option SBVHNode;
  m_geoms : list Geometry;
  m_nodes : list SBVHNode
}.

(** [FlattenRecursive]: the node, then its near and its far subtree. *)
Fixpoint FlattenRecursive (node : SBVHNode) : list SBVHNode :=
  node ::
  match node with
  | SBVHLeaf _ _ _ _ => []
  | SBVHInterior nearChild farChild _ _ _ =>
      match nearChild with Some n => FlattenRecursive n | None => [] end ++
      match farChild with Some n => FlattenRecursive n | None => [] end
  end.

Definition Flatten (root : option SBVHNode) : list SBVHNode :=
  match root with Some n => FlattenRecursive n | None => [] end.

(** [SBVH::DestroyRecursive]: the nodes handed to [delete], in the order
    of the [delete]s: the near subtree, the far subtree, then the node. *)
Fixpoint DestroyRecursive (node : SBVHNode) : list SBVHNode :=
  match node with
  | SBVHLeaf _ _ _ _ => [node]
  | SBVHInterior nearChild farChild _ _ _ =>
      match nearChild with Some n => DestroyRecursive n | None => [] end ++
      match farChild with Some n => DestroyRecursive n | None => [] end ++
      [node]
  end.

(** [SBVH::Destroy] *)
Definition Destroy (root : option SBVHNode) : list SBVHNode :=
  match root with Some n => DestroyRecursive n | None => [] end.

Definition initGeomInfos (geoms : list Geometry) : list SBVHGeometryInfo :=
  map (fun ig => mkGeomInfo (fst ig) (geom_GetBBox (snd ig)) false)
      (combine (seq 0 (length geoms)) geoms).

Definition Build {U : Unassigned} (m_splitMethod : ESplitMethod)
    (m_maxGeomsInNode : Z) (fuel : nat) (geoms : list Geometry) : result t :=
  let geomInfos := initGeomInfos geoms in
  '(root, st) <-
     BuildRecursive m_splitMethod m_maxGeomsInNode geoms fuel
                    0 (Z.of_nat (length geomInfos)) (mkBuildState geomInfos 0 []) ;;
  Ok (mkSBVH root (orderedGeoms st) (Flatten root)).

(** *** The queries *)

Section Queries.
Variable DoesIntersectBBox : BBox -> Ray -> bool.
Variable m_geoms : list Geometry.
Variable r : Ray.

(** The loops over the primitives of a leaf (lines 542-551, 578-587). *)
Fixpoint leafNearest (firstGeomOffset : nat) (n : nat) (i : nat)
    (nearest : flt * Intersection) : result (flt * Intersection) :=
  match n with
  | O => Ok nearest
  | S n' =>
      geom <- of_option (nth_error m_geoms (firstGeomOffset + i)) ;;
      let isx := geom_GetIntersection geom r in
      let nearest' :=
        if (isx_t isx >? zero)%flt && (isx_t isx <? fst nearest)%flt
        then (isx_t isx, isx) else nearest in
      leafNearest firstGeomOffset n' (S i) nearest'
  end.

Fixpoint GetIntersectionRecursive (node : SBVHNode)
    (nearest : flt * Intersection) : result (flt * Intersection) :=
  match node with
  | SBVHLeaf _ firstGeomOffset numGeoms _ =>
      leafNearest firstGeomOffset numGeoms 0 nearest
  | SBVHInterior nearChild farChild _ _ box =>
      if DoesIntersectBBox box r then
        n1 <- match nearChild with
              | Some c => GetIntersectionRecursive c nearest
              | None => Ok nearest
              end ;;
        match farChild with
        | Some c => GetIntersectionRecursive c n1
        | None => Ok n1
        end
      else Ok nearest
  end.

Definition visitNearest (child : option SBVHNode) (nearest : flt * Intersection)
    : result (flt * Intersection) :=
  match child with
  | Some c => GetIntersectionRecursive c nearest
  | None => Ok nearest
  end.

(** [SBVH::GetIntersection]; a null root is dereferenced. *)
Definition GetIntersection (root : option SBVHNode) : result Intersection :=
  let start := (INFINITY, Intersection_default) in
  match root with
  | None => Fault
  | Some (SBVHLeaf _ firstGeomOffset numGeoms _) =>
      n <- leafNearest firstGeomOffset numGeoms 0 start ;; Ok (snd n)
  | Some (SBVHInterior nearChild farChild _ _ _) =>
      n1 <- visitNearest nearChild start ;;
      n2 <- visitNearest farChild n1 ;;
      Ok (snd n2)
  end.

(** The loops of lines 608-617 and 637-647. *)
Fixpoint leafAny (firstGeomOffset : nat) (n : nat) (i : nat) : result bool :=
  match n with
  | O => Ok false
  | S n' =>
      geom <- of_option (nth_error m_geoms (firstGeomOffset + i)) ;;
      if (isx_t (geom_GetIntersection geom r) >? zero)%flt then Ok true
      else leafAny firstGeomOffset n' (S i)
  end.

Fixpoint DoesIntersectRecursive (node : SBVHNode) : result bool :=
  match node with
  | SBVHLeaf _ firstGeomOffset numGeoms _ => leafAny firstGeomOffset numGeoms 0
  | SBVHInterior nearChild farChild _ _ box =>
      if DoesIntersectBBox box r then
        b <- match nearChild with
             | Some c => DoesIntersectRecursive c
             | None => Ok false
             end ;;
        if b then Ok true
        else match farChild with
             | Some c => DoesIntersectRecursive c
             | None => Ok false
             end
      else Ok false
  end.

Definition visitAny (child : option SBVHNode) : result bool :=
  match child with
  | Some c => DoesIntersectRecursive c
  | None => Ok false
  end.

Definition DoesIntersect (root : option SBVHNode) : result bool :=
  match root with
  | None => Fault
  | Some (SBVHLeaf _ firstGeomOffset numGeoms _) => leafAny firstGeomOffset numGeoms 0
  | Some (SBVHInterior nearChild farChild _ _ _) =>
      b <- visitAny nearChild ;;
      if b then Ok true else visitAny farChild
  end.

(** Brute force over a list of primitives: the first among the
    intersections with the smallest [t > 0]. *)
Definition bruteForce (geoms : list Geometry) : flt * Intersection :=
  fold_left
    (fun (nearest : flt * Intersection) geom =>
       let isx := geom_GetIntersection geom r in
       if (isx_t isx >? zero)%flt && (isx_t isx <? fst nearest)%flt
       then (isx_t isx, isx) else nearest)
    geoms (INFINITY, Intersection_default).

End Queries.
End SBVH.

(* ================================================================== *)
(** ** Properties of the tree *)
(* ================================================================== *)

Local Open Scope nat_scope.

Definition children (n : SBVHNode) : list SBVHNode :=
  match n with
  | SBVHLeaf _ _ _ _ => []
  | SBVHInterior nearChild farChild _ _ _ =>
      match nearChild with Some c => [c] | None => [] end ++
      match farChild with Some c => [c] | None => [] end
  end.

(** Every interior node of the subtree has a larger build index than
    each of its children. *)
Fixpoint indexMonotone (n : SBVHNode) : Prop :=
  match n with
  | SBVHLeaf _ _ _ _ => True
  | SBVHInterior nearChild farChild idx _ _ =>
      match nearChild with
      | Some c => node_idx c < idx /\ indexMonotone c
      | None => True
      end /\
      match farChild with
      | Some c => node_idx c < idx /\ indexMonotone c
      | None => True
      end
  end.

(** The spans [(offset, count)] of the leaves, near subtree first. *)
Fixpoint leafSpans (n : SBVHNode) : list (nat * nat) :=
  match n with
  | SBVHLeaf _ firstGeomOffset numGeoms _ => [(firstGeomOffset, numGeoms)]
  | SBVHInterior nearChild farChild _ _ _ =>
      match nearChild with Some c => leafSpans c | None => [] end ++
      match farChild with Some c => leafSpans c | None => [] end
  end.

Definition rootSpans (root : option SBVHNode) : list (nat * nat) :=
  match root with Some n => leafSpans n | None => [] end.

(** The spans follow one another without gap or overlap from [start] to
    [stop]. *)
Fixpoint contiguous (start : nat) (spans : list (nat * nat)) (stop : nat) : Prop :=
  match spans with
  | [] => start = stop
  | (offset, cnt) :: rest => offset = start /\ contiguous (start + cnt) rest stop
  end.

(* ================================================================== *)
(** ** Notions used in the statements *)
(* ================================================================== *)

Definition lookupGeom (m_geoms : list Geometry) (gi : SBVHGeometryInfo)
    : result Geometry :=
  of_option (nth_error m_geoms (geometryId gi)).

(** The ranges on which every strategy splits at the midpoint. *)
Definition midpointSplit (m_splitMethod : ESplitMethod) (n : nat) : Prop :=
  m_splitMethod = EqualCounts \/ n <= 4.

(** The entries of a range name primitives of the input list. *)
Definition validIds (m_geoms : list Geometry) (range : list SBVHGeometryInfo) : Prop :=
  Forall (fun gi => geometryId gi < length m_geoms) range.

(** The test of line 87 on a range. *)
Definition degenerateCentroids (range : list SBVHGeometryInfo) : bool :=
  let bboxCentroids := centroidBoxOfRange range in
  let dim := BBoxMaximumExtent bboxCentroids in
  (vget (m_max bboxCentroids) dim ==? vget (m_min bboxCentroids) dim)%flt.

(** Componentwise [==] on vectors. *)
Definition veqb (a b : vec3) : bool :=
  ((vx a ==? vx b) && (vy a ==? vy b) && (vz a ==? vz b))%flt.

(** The minimum over the eleven boundaries and the bucket it sits after
    (lines 450-480). *)
Definition sahMinimum (buckets : list BucketInfo) (invAllGeometriesSA : flt)
    : flt * Z :=
  scanMinCost (map (fun i => objectSplitCostAt i buckets invAllGeometriesSA)
                   boundaries).

(** The cost of not splitting: [numPrimitives * intersectCost]. *)
Definition leafCostOf (numPrimitives : Z) : flt :=
  (of_int numPrimitives * COST_INTERSECTION)%flt.

(** Induction over a tree whose children sit under [option]. *)
Section SBVHNode_induction.
Variable P : SBVHNode -> Prop.
Hypothesis Hleaf : forall i o c b, P (SBVHLeaf i o c b).
Hypothesis Hinterior :
  forall nearChild farChild i a b,
    match nearChild with Some c => P c | None => True end ->
    match farChild with Some c => P c | None => True end ->
    P (SBVHInterior nearChild farChild i a b).

Fixpoint SBVHNode_induction (n : SBVHNode) : P n :=
  match n with
  | SBVHLeaf i o c b => Hleaf i o c b
  | SBVHInterior nearChild farChild i a b =>
      Hinterior nearChild farChild i a b
        (match nearChild as o
               return match o with Some c => P c | None => True end with
         | Some c => SBVHNode_induction c
         | None => I
         end)
        (match farChild as o
               return match o with Some c => P c | None => True end with
         | Some c => SBVHNode_induction c
         | None => I
         end)
  end.
End SBVHNode_induction.

(** One turn of the loops of lines 542-551 and 578-587. *)
Definition nearestStep (r : Ray) (nearest : flt * Intersection) (geom : Geometry)
    : flt * Intersection :=
  let isx := geom_GetIntersection geom r in
  if (isx_t isx >? zero)%flt && (isx_t isx <? fst nearest)%flt
  then (isx_t isx, isx) else nearest.

(** The primitives a subtree reaches through its leaves, in order. *)
Definition geomsOfSpans (m_geoms : list Geometry) (spans : list (nat * nat))
    : list Geometry :=
  flat_map (fun span => slice (fst span) (fst span + snd span) m_geoms) spans.

Definition subtreeGeoms (m_geoms : list Geometry) (child : option SBVHNode)
    : list Geometry :=
  geomsOfSpans m_geoms (rootSpans child).

(** No primitive of the list is hit by the ray at a positive distance. *)
Definition noneHit (r : Ray) (geoms : list Geometry) : Prop :=
  Forall (fun g => (isx_t (geom_GetIntersection g r) >? zero)%flt = false) geoms.

(** The box test is conservative on a subtree: where it rejects the box
    of an interior node, the ray hits no primitive below that node. *)
Fixpoint boxTestSound (DoesIntersectBBox : BBox -> Ray -> bool)
    (m_geoms : list Geometry) (r : Ray) (n : SBVHNode) : Prop :=
  match n with
  | SBVHLeaf _ _ _ _ => True
  | SBVHInterior nearChild farChild _ _ box =>
      (DoesIntersectBBox box r = false ->
       noneHit r (subtreeGeoms m_geoms (Some n)))
      /\ match nearChild with
         | Some c => boxTestSound DoesIntersectBBox m_geoms r c
         | None => True
         end
      /\ match farChild with
         | Some c => boxTestSound DoesIntersectBBox m_geoms r c
         | None => True
         end
  end.

(** The same for the children of the root, which is not tested. *)
Definition boxTestSoundBelowRoot (DoesIntersectBBox : BBox -> Ray -> bool)
    (m_geoms : list Geometry) (r : Ray) (root : option SBVHNode) : Prop :=
  match root with
  | Some (SBVHInterior nearChild farChild _ _ _) =>
      match nearChild with
      | Some c => boxTestSound DoesIntersectBBox m_geoms r c
      | None => True
      end
      /\ match farChild with
         | Some c => boxTestSound DoesIntersectBBox m_geoms r c
         | None => True
         end
  | _ => True
  end.

(* ================================================================== *)
(** ** Triangles and scenes *)
(* ================================================================== *)

Definition pt (x y z : Q) : vec3 := mkvec3 (Fin x) (Fin y) (Fin z).

Definition cross (a b : vec3) : vec3 :=
  mkvec3 (vy a * vz b - vz a * vy b)%flt
         (vz a * vx b - vx a * vz b)%flt
         (vx a * vy b - vy a * vx b)%flt.

(** Modelled from the spec: the ray test of [Triangle] is in a source
    file that is not at hand.  The interface asks for an intersection
    carrying the distance [t] along the ray; the usual test by
    barycentric coordinates is taken, a miss being the default record. *)
Definition Triangle_GetIntersection (id : nat) (tri : Triangle) (r : Ray)
    : Intersection :=
  let edge1 := vsub (vert1 tri) (vert0 tri) in
  let edge2 := vsub (vert2 tri) (vert0 tri) in
  let pvec := cross (m_direction r) edge2 in
  let det := dot edge1 pvec in
  if (det ==? zero)%flt then Intersection_default
  else
    let tvec := vsub (m_origin r) (vert0 tri) in
    let u := (dot tvec pvec / det)%flt in
    if (u <? zero)%flt || (u >? one)%flt then Intersection_default
    else
      let qvec := cross tvec edge1 in
      let v := (dot (m_direction r) qvec / det)%flt in
      if (v <? zero)%flt || (u + v >? one)%flt then Intersection_default
      else mkIntersection (dot edge2 qvec / det)%flt (Some id).

(** A triangle as a [Geometry]; [id] names it in the hit record. *)
Definition new_Triangle (id : nat) (v0 v1 v2 : vec3) : Geometry :=
  let tri := mkTriangle v0 v1 v2 in
  mkGeometry (BBoxFromPoints [v0; v1; v2]) (Some tri)
             (Triangle_GetIntersection id tri).

(** A right triangle in the plane [z = 0]: the vertical side of height
    [h] at [x0], the opposite vertex at [(x1, y0)]. *)
Definition wedge (id : nat) (x0 y0 h x1 : Q) : Geometry :=
  new_Triangle id (pt x0 y0 0) (pt x0 (y0 + h) 0) (pt x1 y0 0).

(** Five triangles, one a little shorter than the four others: every
    SAH boundary costs exactly as much as a leaf. *)
Definition sceneLeafTie : list Geometry :=
  [wedge 0 0 0 1 7; wedge 1 0 0 1 8; wedge 2 0 0 1 8; wedge 3 0 0 1 8;
   wedge 4 0 0 1 8].

(** Four long triangles that straddle bucket boundaries, then a small
    one that does not: the spatial candidate wins strictly. *)
Definition sceneSpatial : list Geometry :=
  [wedge 0 0 0 1 13; wedge 1 1 1 1 14; wedge 2 2 2 1 15; wedge 3 5 3 1 16;
   wedge 4 (61 # 4) 0 (1 # 2) (63 # 4)].

(** Five triangles for which, at boundary 5, the object candidate and
    the spatial candidate cost the same. *)
Definition sceneTie : list Geometry :=
  [wedge 0 15 3 4 16; wedge 1 1 4 2 13; wedge 2 9 1 (1 # 2) 16;
   wedge 3 5 1 (1 # 2) 10; wedge 4 0 3 4 1].

(** The state of [BuildRecursive] at the root range of a scene, up to
    the strategy switch. *)
Record RootRange : Type := mkRootRange {
  root_geomInfos : list SBVHGeometryInfo;
  root_bboxAllGeoms : BBox;
  root_bboxCentroids : BBox;
  root_dim : EAxis.t;
  root_invAllGeometriesSA : flt
}.

Definition rootRange (geoms : list Geometry) : RootRange :=
  let gis := SBVH.initGeomInfos geoms in
  let bboxAllGeoms := bboxOfRange gis in
  let bboxCentroids := centroidBoxOfRange gis in
  mkRootRange gis bboxAllGeoms bboxCentroids (BBoxMaximumExtent bboxCentroids)
              (one / GetSurfaceArea bboxAllGeoms)%flt.

(** The object buckets of the root range (lines 137-145, 441-448). *)
Definition rootBuckets (geoms : list Geometry) : result (list BucketInfo) :=
  let rr := rootRange geoms in
  fillBuckets (root_bboxCentroids rr) (root_dim rr) (root_geomInfos rr) new_buckets.

Definition rootIsLeaf (s : SBVH.t) : bool :=
  match SBVH.m_root s with Some n => IsLeaf n | None => false end.

(** Three unit triangles side by side. *)
Definition sceneThree : list Geometry :=
  [wedge 0 0 0 1 1; wedge 1 2 0 1 3; wedge 2 5 0 1 6].

(** Three congruent triangles on top of one another. *)
Definition sceneStacked : list Geometry :=
  [wedge 0 0 0 1 8; wedge 1 0 0 1 8; wedge 2 0 0 1 8].

(** [sceneSpatial] with its first triangle turned round: the vertical
    side is at the far end, so that a single vertex lies below each of
    the planes the triangle crosses. *)
Definition sceneScalene : list Geometry :=
  [new_Triangle 0 (pt 0 0 0) (pt 13 1 0) (pt 13 0 0);
   wedge 1 1 1 1 14; wedge 2 2 2 1 15; wedge 3 5 3 1 16;
   wedge 4 (61 # 4) 0 (1 # 2) (63 # 4)].

(** Five unit triangles far from one another: no two boxes overlap. *)
Definition sceneApart : list Geometry :=
  [wedge 0 0 0 1 1; wedge 1 3 0 1 4; wedge 2 6 0 1 7; wedge 3 9 0 1 10;
   wedge 4 12 0 1 13].

(* ================================================================== *)
(** ** The root range of a scene under the spatial strategy *)
(* ================================================================== *)

(** The working vector and the spatial buckets of the root range after
    the loop of lines 152-297. *)
Definition rootSpatialBuckets {U : Unassigned} (geoms : list Geometry)
    : result (list SBVHGeometryInfo * list BucketInfo) :=
  let rr := rootRange geoms in
  buckets <- rootBuckets geoms ;;
  let bucketSize :=
    ((vget (m_max (root_bboxAllGeoms rr)) (root_dim rr)
      - vget (m_min (root_bboxAllGeoms rr)) (root_dim rr)) / of_int NUM_BUCKET)%flt in
  spatialLoop geoms (root_bboxAllGeoms rr) (root_bboxCentroids rr) (root_dim rr)
              buckets bucketSize (length geoms) 0 (root_geomInfos rr, new_buckets).

(** The state of the loop of line 305 after its first [n] turns. *)
Definition candidateAfter (n : nat) (buckets spatialSplitBuckets : list BucketInfo)
    (invAllGeometriesSA : flt) : SplitState :=
  fold_left (candidateStep buckets spatialSplitBuckets invAllGeometriesSA)
            (firstn n boundaries) SplitState_init.

(** The value compared with the object cost at line 358 in turn [i]:
    the spatial cost of boundary [i] when it has been evaluated, the
    value left by an earlier turn otherwise. *)
Definition spatialCostCompared (i : nat) (buckets spatialSplitBuckets : list BucketInfo)
    (invAllGeometriesSA : flt) (st : SplitState) : flt :=
  if restrictionMet i buckets invAllGeometriesSA
  then spatialSplitCostAt i buckets spatialSplitBuckets invAllGeometriesSA
  else spatialSplitCost st.

(** The spatial cost according to the spec: the counts and the boxes of
    the spatial buckets [0 .. i] and [i+1 .. 11] only. *)
Definition spec_spatialSplitCostAt (i : nat) (spatialSplitBuckets : list BucketInfo)
    (invAllGeometriesSA : flt) : flt :=
  let '(bbox0, count0) :=
    sumBuckets (bucketsUpTo i spatialSplitBuckets) BBox_default 0 in
  let '(bbox1, count1) :=
    sumBuckets (bucketsAfter i spatialSplitBuckets) BBox_default 0 in
  splitCost count0 bbox0 count1 bbox1 invAllGeometriesSA.

(** The ray from below the plane of the scene, straight up through the
    point [(1, 1/4)], which lies inside the first triangle of
    [sceneSpatial] only. *)
Definition rayThroughFirst : Ray := mkRay (pt 1 (1 # 4) (-1)) (pt 0 0 1).


(* ================================================================== *)
(** ** Further notions: the shape of a tree, the queries, the buckets *)
(* ================================================================== *)

(** Every interior node of the subtree has a near and a far child. *)
Fixpoint twoChildren (n : SBVHNode) : Prop :=
  match n with
  | SBVHLeaf _ _ _ _ => True
  | SBVHInterior nearChild farChild _ _ _ =>
      match nearChild with Some c => twoChildren c | None => False end /\
      match farChild with Some c => twoChildren c | None => False end
  end.

(** [m_numGeoms] of a leaf record; an interior record holds no primitive. *)
Definition numGeomsOf (n : SBVHNode) : nat :=
  match n with
  | SBVHLeaf _ _ numGeoms _ => numGeoms
  | SBVHInterior _ _ _ _ _ => 0
  end.

(** The test of lines 546, 582, 612 and 641 on one primitive: does the
    ray meet it at a positive distance? *)
Definition hitAhead (r : Ray) (geom : Geometry) : bool :=
  (isx_t (geom_GetIntersection geom r) >? zero)%flt.

(** The primitives whose ray test the descent into a subtree can reach,
    in the order of the descent: those of a leaf; below an interior
    node, those of its two subtrees when the box test lets the ray
    through, none otherwise. *)
Fixpoint candidatesBelow (DoesIntersectBBox : BBox -> Ray -> bool)
    (m_geoms : list Geometry) (r : Ray) (n : SBVHNode) : list Geometry :=
  match n with
  | SBVHLeaf _ firstGeomOffset numGeoms _ =>
      slice firstGeomOffset (firstGeomOffset + numGeoms) m_geoms
  | SBVHInterior nearChild farChild _ _ box =>
      if DoesIntersectBBox box r then
        match nearChild with
        | Some c => candidatesBelow DoesIntersectBBox m_geoms r c
        | None => []
        end ++
        match farChild with
        | Some c => candidatesBelow DoesIntersectBBox m_geoms r c
        | None => []
        end
      else []
  end.

(** The same from the root, whose own box is not tested. *)
Definition candidates (DoesIntersectBBox : BBox -> Ray -> bool)
    (m_geoms : list Geometry) (r : Ray) (root : option SBVHNode) : list Geometry :=
  match root with
  | None => []
  | Some (SBVHLeaf _ firstGeomOffset numGeoms _) =>
      slice firstGeomOffset (firstGeomOffset + numGeoms) m_geoms
  | Some (SBVHInterior nearChild farChild _ _ _) =>
      match nearChild with
      | Some c => candidatesBelow DoesIntersectBBox m_geoms r c
      | None => []
      end ++
      match farChild with
      | Some c => candidatesBelow DoesIntersectBBox m_geoms r c
      | None => []
      end
  end.

(** Every leaf span lies inside a list of [len] primitives. *)
Definition spansWithin (len : nat) (spans : list (nat * nat)) : Prop :=
  Forall (fun span => fst span + snd span <= len) spans.

(** The strategies that only reorder the working vector. *)
Definition objectSplit (m_splitMethod : ESplitMethod) : Prop :=
  m_splitMethod = EqualCounts \/ m_splitMethod = SAH.

(** The union of the boxes of a list of primitives, as the loop of
    lines 61-63 forms it. *)
Definition bboxOfGeoms (geoms : list Geometry) : BBox :=
  fold_left (fun b g => BBoxUnion b (geom_GetBBox g)) geoms BBox_default.

(** The box of every leaf of the subtree is the union of the boxes of
    the primitives of its span. *)
Fixpoint leafBoxesTight (m_geoms : list Geometry) (n : SBVHNode) : Prop :=
  match n with
  | SBVHLeaf _ firstGeomOffset numGeoms box =>
      box = bboxOfGeoms (slice firstGeomOffset (firstGeomOffset + numGeoms) m_geoms)
  | SBVHInterior nearChild farChild _ _ _ =>
      match nearChild with Some c => leafBoxesTight m_geoms c | None => True end
      /\ match farChild with Some c => leafBoxesTight m_geoms c | None => True end
  end.

(** The test of line 87 on a list of primitives: the centroids of their
    boxes coincide on the axis of the largest extent of the centroid
    box. *)
Definition centroidsCoincide (geoms : list Geometry) : bool :=
  degenerateCentroids (map (fun g => mkGeomInfo 0 (geom_GetBBox g) false) geoms).

(** Every leaf of the subtree holds one primitive, or primitives whose
    centroids coincide, or, under a strategy other than [EqualCounts],
    more than four primitives and no more than [m_maxGeomsInNode]. *)
Fixpoint leavesBounded (m_splitMethod : ESplitMethod) (m_maxGeomsInNode : Z)
    (m_geoms : list Geometry) (n : SBVHNode) : Prop :=
  match n with
  | SBVHLeaf _ firstGeomOffset numGeoms _ =>
      numGeoms = 1
      \/ (m_splitMethod <> EqualCounts /\ 4 < numGeoms
          /\ (Z.of_nat numGeoms <= m_maxGeomsInNode)%Z)
      \/ centroidsCoincide
           (slice firstGeomOffset (firstGeomOffset + numGeoms) m_geoms) = true
  | SBVHInterior nearChild farChild _ _ _ =>
      match nearChild with
      | Some c => leavesBounded m_splitMethod m_maxGeomsInNode m_geoms c
      | None => True
      end
      /\ match farChild with
         | Some c => leavesBounded m_splitMethod m_maxGeomsInNode m_geoms c
         | None => True
         end
  end.

(** The entries of a range carry the boxes of the primitives they name. *)
Definition boxesFromInput (m_geoms : list Geometry) (range : list SBVHGeometryInfo)
    : Prop :=
  Forall (fun gi => forall g, nth_error m_geoms (geometryId gi) = Some g ->
                              bbox gi = geom_GetBBox g) range.

(** What identifies an entry of the working vector apart from its flag. *)
Definition entryKey (gi : SBVHGeometryInfo) : nat * BBox :=
  (geometryId gi, bbox gi).

(** The primitive named by [id] is a triangle (the [dynamic_cast] of
    line 172 succeeds). *)
Definition isTriangleId (m_geoms : list Geometry) (id : nat) : Prop :=
  exists g tri, nth_error m_geoms id = Some g /\ geom_triangle g = Some tri.

(** The centroids of a range have finite coordinates. *)
Definition finiteCentroids (range : list SBVHGeometryInfo) : Prop :=
  Forall (fun gi => vfinite (m_centroid (bbox gi)) = true) range.

(** No difference of two of the points overflows, on any axis (the
    points themselves are then finite). *)
Definition spreadFinite (points : list vec3) : bool :=
  forallb (fun p => forallb (fun q => vfinite (vsub p q)) points) points.

(** The same for the centroids of a range: the subtractions [Offset]
    makes on the centroid box of the range, or of a part of the range,
    stay finite. *)
Definition finiteSpread (range : list SBVHGeometryInfo) : bool :=
  spreadFinite (map (fun gi => m_centroid (bbox gi)) range).

(** The number of edges on the longest path from a node down to a leaf. *)
Fixpoint height (n : SBVHNode) : nat :=
  match n with
  | SBVHLeaf _ _ _ _ => 0
  | SBVHInterior nearChild farChild _ _ _ =>
      S (Nat.max (match nearChild with Some c => height c | None => 0 end)
                 (match farChild with Some c => height c | None => 0 end))
  end.

(* ================================================================== *)
(** ** Basic facts *)
(* ================================================================== *)

Lemma bind_Ok {A B : Type} (c : result A) (k : A -> result B) (b : B) :
  bind c k = Ok b -> exists a, c = Ok a /\ k a = Ok b.
Proof.
  destruct c as [a| |]; simpl; intros H; try discriminate.
  exists a; split; [reflexivity | exact H].
Qed.

Ltac inv_bind H :=
  let a := fresh "a" in
  let E := fresh "E" in
  apply bind_Ok in H; destruct H as [a [E H]].

(** Evaluation of the model on a concrete scene; the ray tests of the
    primitives stay folded. *)
Tactic Notation "evaluate" := cbv -[Triangle_GetIntersection].
Tactic Notation "evaluate" "in" hyp(H) := cbv -[Triangle_GetIntersection] in H.

(** From here on, whatever the unassigned vectors of the clipping hold. *)
Section Properties.
Context {U : Unassigned}.

Lemma contiguous_app (s1 s2 : list (nat * nat)) :
  forall a b c, contiguous a s1 b -> contiguous b s2 c -> contiguous a (s1 ++ s2) c.
Proof.
  induction s1 as [|[o n] s1 IH]; simpl; intros a b c H1 H2.
  - subst b. exact H2.
  - destruct H1 as [-> H1]. split; [reflexivity | eauto].
Qed.

Section RangeFacts.
Context {A : Type}.
Implicit Types l : list A.

Lemma slice_all l : slice 0 (length l) l = l.
Proof.
  unfold slice. simpl. rewrite Nat.sub_0_r. apply firstn_all.
Qed.

Lemma firstn_plus a b : forall l,
  firstn (a + b) l = firstn a l ++ firstn b (skipn a l).
Proof.
  induction a as [|a IH]; intros [|x l]; simpl; try reflexivity.
  - now destruct b.
  - now rewrite IH.
Qed.

Lemma slice_split first mid last l :
  first <= mid -> mid <= last ->
  slice first last l = slice first mid l ++ slice mid last l.
Proof.
  intros H1 H2. unfold slice.
  replace (last - first) with ((mid - first) + (last - mid)) by lia.
  rewrite firstn_plus. f_equal.
  rewrite skipn_skipn. do 2 f_equal. lia.
Qed.

Lemma slice_empty first l : slice first first l = [].
Proof. unfold slice. rewrite Nat.sub_diag. reflexivity. Qed.

Lemma slice_cons first last l x :
  nth_error l first = Some x -> first < last ->
  slice first last l = x :: slice (S first) last l.
Proof.
  intros Hx Hlt. unfold slice.
  destruct (last - first) as [|k] eqn:E; [lia|].
  replace (last - S first) with k by lia.
  revert l Hx. clear. induction first as [|f IH]; intros [|y l] Hx; try discriminate.
  - inversion Hx; subst. reflexivity.
  - simpl in Hx. simpl. apply IH. exact Hx.
Qed.

End RangeFacts.

(* ================================================================== *)
(** ** The empty box *)
(* ================================================================== *)

Lemma min_neutral (x : flt) :
  (forall q : Q, Flt.min x (Fin q) = Fin q) -> x = INFINITY.
Proof.
  intros H. destruct x as [|[|]|r].
  - specialize (H 0%Q). discriminate.
  - specialize (H 0%Q). discriminate.
  - reflexivity.
  - specialize (H (r + 1)%Q). unfold Flt.min, Flt.ltb, Qltb in H.
    assert (L : Qle_bool r (r + 1) = true).
    { apply Qle_bool_iff. rewrite <- (Qplus_0_r r) at 1.
      apply Qplus_le_r. discriminate. }
    rewrite L in H. simpl in H. inversion H as [E].
    exfalso. assert (Q : (r == r + 1)%Q) by (rewrite <- E; reflexivity).
    rewrite <- (Qplus_0_r r) in Q at 1.
    apply Qplus_inj_l in Q. discriminate.
Qed.

Lemma max_neutral (x : flt) :
  (forall q : Q, Flt.max x (Fin q) = Fin q) -> x = Inf true.
Proof.
  intros H. destruct x as [|[|]|r].
  - specialize (H 0%Q). discriminate.
  - reflexivity.
  - specialize (H 0%Q). discriminate.
  - specialize (H (r - 1)%Q). unfold Flt.max, Flt.ltb, Qltb in H.
    assert (L : Qle_bool (r - 1) r = true).
    { apply Qle_bool_iff. rewrite <- (Qplus_0_r r) at 2.
      apply Qplus_le_r. discriminate. }
    rewrite L in H. simpl in H. inversion H as [E].
    exfalso. assert (Q : (r == r - 1)%Q) by (rewrite <- E; reflexivity).
    rewrite <- (Qplus_0_r r) in Q at 1.
    apply Qplus_inj_l in Q. discriminate.
Qed.

(** The default box is neutral for the union with a point, and it is the
    only choice of corners that is: a box whose union with every finite
    point has both corners at that point has its minimum corner at plus
    infinity and its maximum corner at minus infinity. *)
Lemma neutral_box_corners (e : BBox) :
  (forall p, vfinite p = true ->
             m_min (BBoxUnionPoint e p) = p /\ m_max (BBoxUnionPoint e p) = p) ->
  m_min e = m_min BBox_default /\ m_max e = m_max BBox_default.
Proof.
  intros H.
  assert (Hc : forall q1 q2 q3 : Q,
             vmin (m_min e) (pt q1 q2 q3) = pt q1 q2 q3
             /\ vmax (m_max e) (pt q1 q2 q3) = pt q1 q2 q3).
  { intros q1 q2 q3. apply (H (pt q1 q2 q3)). reflexivity. }
  destruct e as [[a1 a2 a3] [b1 b2 b3] c]. cbn [m_min m_max] in *.
  unfold vmin, vmax, vmap2, pt in Hc. cbn [vx vy vz] in Hc.
  assert (A1 : a1 = INFINITY)
    by (apply min_neutral; intros q; destruct (Hc q 0%Q 0%Q) as [E _]; congruence).
  assert (A2 : a2 = INFINITY)
    by (apply min_neutral; intros q; destruct (Hc 0%Q q 0%Q) as [E _]; congruence).
  assert (A3 : a3 = INFINITY)
    by (apply min_neutral; intros q; destruct (Hc 0%Q 0%Q q) as [E _]; congruence).
  assert (B1 : b1 = Inf true)
    by (apply max_neutral; intros q; destruct (Hc q 0%Q 0%Q) as [_ E]; congruence).
  assert (B2 : b2 = Inf true)
    by (apply max_neutral; intros q; destruct (Hc 0%Q q 0%Q) as [_ E]; congruence).
  assert (B3 : b3 = Inf true)
    by (apply max_neutral; intros q; destruct (Hc 0%Q 0%Q q) as [_ E]; congruence).
  subst. split; reflexivity.
Qed.

Lemma BBox_default_neutral (p : vec3) :
  vfinite p = true ->
  m_min (BBoxUnionPoint BBox_default p) = p
  /\ m_max (BBoxUnionPoint BBox_default p) = p.
Proof.
  destruct p as [[| |x] [| |y] [| |z]]; try discriminate. intros _.
  split; reflexivity.
Qed.

(* ================================================================== *)
(** ** The empty scene *)
(* ================================================================== *)

Lemma chooseSplit_small (m_splitMethod : ESplitMethod) (m_maxGeomsInNode : Z)
    (m_geoms : list Geometry) (gis : list SBVHGeometryInfo) (first last : Z)
    (bboxAllGeoms bboxCentroids : BBox) (dim : EAxis.t) :
  m_splitMethod = EqualCounts \/ (last - first <= 4)%Z ->
  chooseSplit m_splitMethod m_maxGeomsInNode m_geoms gis first last
              bboxAllGeoms bboxCentroids dim
  = Ok (splice (Z.to_nat first) (Z.to_nat last) gis
               (nth_element (CompareCentroid dim)
                            (slice (Z.to_nat first) (Z.to_nat last) gis)),
        Some (Z.quot (first + last) 2)).
Proof.
  intros H. unfold chooseSplit, PartitionEqualCounts.
  destruct m_splitMethod; try reflexivity;
    (destruct H as [H|H]; [discriminate|]);
    (destruct (Z.leb_spec (last - first) 4) as [_|C]; [reflexivity | lia]).
Qed.

Lemma BuildRecursive_empty (m_splitMethod : ESplitMethod) (m_maxGeomsInNode : Z)
    (m_geoms : list Geometry) :
  forall fuel st, geomInfos st = [] ->
    SBVH.BuildRecursive m_splitMethod m_maxGeomsInNode m_geoms fuel 0 0 st
    = OutOfFuel.
Proof.
  induction fuel as [|fuel IH]; intros st Hst; [reflexivity|].
  cbn [SBVH.BuildRecursive]. rewrite Hst.
  cbn -[SBVH.BuildRecursive chooseSplit].
  rewrite chooseSplit_small by (right; lia).
  cbn -[SBVH.BuildRecursive].
  rewrite IH by reflexivity. reflexivity.
Qed.

(** C5, on the code: with zero primitives the range [0, 0) passes the
    guard [last < first], is neither a single primitive nor a range of
    equal centroids (the empty box has its corners at opposite
    infinities), and is split at [mid = 0] by every strategy: the first
    recursive call is the same call again.  Whatever the fuel, [Build]
    does not come back, and the queries dereference the root: on a null
    root they fault. *)
Theorem C5_empty_build_never_returns :
  forall (m_splitMethod : ESplitMethod) (m_maxGeomsInNode : Z) (fuel : nat),
    SBVH.Build m_splitMethod m_maxGeomsInNode fuel [] = OutOfFuel
    /\ (forall boxTest geoms r,
          SBVH.GetIntersection boxTest geoms r None = Fault
          /\ SBVH.DoesIntersect boxTest geoms r None = Fault).
Proof.
  intros m maxG fuel. split.
  - unfold SBVH.Build. cbn [SBVH.initGeomInfos length seq combine map Z.of_nat].
    rewrite BuildRecursive_empty by reflexivity. reflexivity.
  - intros boxTest geoms r. split; reflexivity.
Qed.

(* ================================================================== *)
(** ** Build indices *)
(* ================================================================== *)

Lemma makeLeaf_Ok (m_geoms : list Geometry) (range : list SBVHGeometryInfo)
    (numPrimitives : Z) (box : BBox) (st : BuildState)
    (node : option SBVHNode) (st' : BuildState) :
  SBVH.makeLeaf m_geoms range numPrimitives box st = Ok (node, st') ->
  exists pushed,
    traverse (lookupGeom m_geoms) range = Ok pushed
    /\ node = Some (SBVHLeaf (nodeCount st) (length (orderedGeoms st))
                             (Z.to_nat numPrimitives) box)
    /\ st' = mkBuildState (geomInfos st) (S (nodeCount st))
                          (orderedGeoms st ++ pushed).
Proof.
  unfold SBVH.makeLeaf. intros H. inv_bind H.
  exists a. inversion H; subst. auto.
Qed.

Section BuildIndex.
Variable m_splitMethod : ESplitMethod.
Variable m_maxGeomsInNode : Z.
Variable m_geoms : list Geometry.

Let build := SBVH.BuildRecursive m_splitMethod m_maxGeomsInNode m_geoms.

(** The counter never decreases; a node returned carries the last
    index handed out, and its subtree is monotone. *)
Lemma BuildRecursive_index :
  forall fuel first last st node st',
    build fuel first last st = Ok (node, st') ->
    nodeCount st <= nodeCount st'
    /\ match node with
       | None => True
       | Some n => indexMonotone n /\ node_idx n < nodeCount st'
       end.
Proof.
  unfold build.
  induction fuel as [|fuel IH]; intros first last st node st' H;
    [discriminate|].
  cbn [SBVH.BuildRecursive] in H.
  destruct ((last <? first)%Z || (last <? 0)%Z || (first <? 0)%Z).
  { inversion H; subst. auto. }
  destruct (Z.of_nat (length (geomInfos st)) <? last)%Z; [discriminate|].
  assert (Leaf : forall range n box st0,
             SBVH.makeLeaf m_geoms range n box st0 = Ok (node, st') ->
             nodeCount st0 <= nodeCount st'
             /\ match node with
                | None => True
                | Some n => indexMonotone n /\ node_idx n < nodeCount st'
                end).
  { intros range n box st0 HL. apply makeLeaf_Ok in HL.
    destruct HL as [pushed [_ [-> ->]]]. simpl. auto. }
  destruct (last - first =? 1)%Z; [eauto|].
  match type of H with (if ?c then _ else _) = _ => destruct c end; [eauto|].
  inv_bind H. destruct a as [geomInfos' [mid|]].
  - inv_bind H. destruct a as [nearChild st1].
    inv_bind H. destruct a as [farChild st2].
    inversion H; subst; clear H.
    apply IH in E0. apply IH in E1. simpl in *.
    destruct E0 as [L0 N0], E1 as [L1 N1].
    split; [lia|]. repeat split.
    + destruct nearChild; [|exact I]. destruct N0. split; [lia|assumption].
    + destruct farChild; [|exact I]. destruct N1. split; [lia|assumption].
    + lia.
  - apply Leaf in H. exact H.
Qed.

End BuildIndex.

Lemma indexMonotone_flat (root : SBVHNode) :
  indexMonotone root ->
  forall n c, In n (SBVH.FlattenRecursive root) -> In c (children n) ->
              node_idx c < node_idx n.
Proof.
  induction root as [i o k b | nearChild farChild i a b IHn IHf]
    using SBVHNode_induction; intros M n c Hn Hc.
  - destruct Hn as [<- | []]. destruct Hc.
  - simpl in M. destruct M as [Mn Mf].
    cbn [SBVH.FlattenRecursive] in Hn.
    destruct Hn as [<- | Hn].
    + simpl in Hc. apply in_app_or in Hc.
      destruct Hc as [Hc | Hc].
      * destruct nearChild; [|destruct Hc]. destruct Hc as [<- | []]. apply Mn.
      * destruct farChild; [|destruct Hc]. destruct Hc as [<- | []]. apply Mf.
    + apply in_app_or in Hn. destruct Hn as [Hn | Hn].
      * destruct nearChild; [|destruct Hn]. apply IHn; tauto.
      * destruct farChild; [|destruct Hn]. apply IHf; tauto.
Qed.

(** C8: in every tree [Build] returns, whatever the strategy and whatever
    the unassigned vectors of the clipping hold, each interior node has
    a build index larger than the index of each of its children; stated
    on the flattened node list, which holds every node of the tree. *)
Theorem C8_parent_index_above_children :
  forall (m_splitMethod : ESplitMethod) (m_maxGeomsInNode : Z) (fuel : nat)
         (geoms : list Geometry) (s : SBVH.t),
    SBVH.Build m_splitMethod m_maxGeomsInNode fuel geoms = Ok s ->
    forall n c, In n (SBVH.m_nodes s) -> In c (children n) ->
                node_idx c < node_idx n.
Proof.
  intros m maxG fuel geoms s H n c Hn Hc.
  unfold SBVH.Build in H. inv_bind H. destruct a as [root st].
  inversion H; subst; clear H. simpl in Hn.
  apply BuildRecursive_index in E. destruct E as [_ E].
  destruct root as [root|]; [|destruct Hn].
  destruct E as [M _]. eapply indexMonotone_flat; eauto.
Qed.

(* ================================================================== *)
(** ** Ranges split at the midpoint *)
(* ================================================================== *)

Section SortFacts.
Context {A : Type} (lt : A -> A -> bool).

Lemma insert_sorted_perm (x : A) (l : list A) :
  Permutation (insert_sorted lt x l) (x :: l).
Proof.
  induction l as [|y l IH]; simpl; [reflexivity|].
  destruct (lt x y); [reflexivity|].
  rewrite IH. apply perm_swap.
Qed.

Lemma nth_element_perm (l : list A) : Permutation (nth_element lt l) l.
Proof.
  induction l as [|x l IH]; simpl; [reflexivity|].
  unfold nth_element in *. simpl.
  rewrite insert_sorted_perm. now constructor.
Qed.

Lemma nth_element_length (l : list A) : length (nth_element lt l) = length l.
Proof. apply Permutation_length, nth_element_perm. Qed.
End SortFacts.

Section TraverseFacts.
Context {A B : Type} (f : A -> result B).

Lemma traverse_app (l1 l2 : list A) (ys1 ys2 : list B) :
  traverse f l1 = Ok ys1 -> traverse f l2 = Ok ys2 ->
  traverse f (l1 ++ l2) = Ok (ys1 ++ ys2).
Proof.
  revert ys1. induction l1 as [|x l1 IH]; simpl; intros ys1 H1 H2.
  - inversion H1; subst. exact H2.
  - inv_bind H1. inv_bind H1. inversion H1; subst.
    rewrite E. simpl. rewrite (IH a0 E0 H2). reflexivity.
Qed.

Lemma traverse_Forall2 (l : list A) (ys : list B) :
  traverse f l = Ok ys <-> Forall2 (fun x y => f x = Ok y) l ys.
Proof.
  revert ys. induction l as [|x l IH]; simpl; intros ys; split; intros H.
  - inversion H. constructor.
  - inversion H. reflexivity.
  - inv_bind H. inv_bind H. inversion H; subst.
    constructor; [assumption | now apply IH].
  - inversion H as [|? y ? ys' Hx Hl]; subst.
    rewrite Hx. simpl. apply IH in Hl. rewrite Hl. reflexivity.
Qed.

Lemma traverse_length (l : list A) (ys : list B) :
  traverse f l = Ok ys -> length ys = length l.
Proof.
  intros H. apply traverse_Forall2 in H.
  symmetry. eapply Forall2_length; eauto.
Qed.

Lemma traverse_perm (l l' : list A) (ys : list B) :
  Permutation l l' -> traverse f l = Ok ys ->
  exists ys', traverse f l' = Ok ys' /\ Permutation ys ys'.
Proof.
  intros P H. apply traverse_Forall2 in H.
  destruct (Permutation_Forall2 P H) as [ys' [P' F']].
  exists ys'. split; [now apply traverse_Forall2 | assumption].
Qed.

Lemma traverse_total (l : list A) :
  Forall (fun x => exists y, f x = Ok y) l -> exists ys, traverse f l = Ok ys.
Proof.
  induction 1 as [|x l [y Hy] _ [ys IH]]; simpl.
  - now exists [].
  - exists (y :: ys). rewrite Hy. simpl. rewrite IH. reflexivity.
Qed.
End TraverseFacts.

Section Decomposed.
Context {A : Type}.
Implicit Types pre range post : list A.

Lemma slice_decomposed pre range post :
  slice (length pre) (length pre + length range) (pre ++ range ++ post) = range.
Proof.
  unfold slice. rewrite skipn_app, skipn_all, Nat.sub_diag. simpl.
  replace (length pre + length range - length pre) with (length range + 0) by lia.
  rewrite firstn_app_2. simpl. apply app_nil_r.
Qed.

Lemma splice_decomposed pre range post mid :
  splice (length pre) (length pre + length range) (pre ++ range ++ post) mid
  = pre ++ mid ++ post.
Proof.
  unfold splice.
  rewrite firstn_app, firstn_all, Nat.sub_diag. simpl. rewrite app_nil_r.
  f_equal. f_equal.
  rewrite app_assoc.
  replace (length pre + length range) with (length (pre ++ range) + 0)
    by (rewrite length_app; lia).
  rewrite skipn_app, skipn_all2 by lia.
  replace (length (pre ++ range) + 0 - length (pre ++ range)) with 0 by lia.
  reflexivity.
Qed.
End Decomposed.

(** The midpoint of a range given by natural bounds. *)
Lemma midpoint_bounds (p n : nat) :
  let first := Z.of_nat p in
  let last := Z.of_nat (p + n) in
  let k := Z.to_nat (Z.quot (first + last) 2) - p in
  Z.quot (first + last) 2 = Z.of_nat (p + k)
  /\ k <= n /\ (2 <= n -> 1 <= k < n).
Proof.
  cbv zeta.
  assert (E : Z.quot (Z.of_nat p + Z.of_nat (p + n)) 2
              = (Z.of_nat p + Z.quot (Z.of_nat n) 2)%Z).
  { rewrite !Z.quot_div_nonneg by lia.
    replace (Z.of_nat p + Z.of_nat (p + n))%Z
      with (Z.of_nat n + Z.of_nat p * 2)%Z by lia.
    rewrite Z.div_add by lia. lia. }
  rewrite E.
  assert (B : (0 <= Z.quot (Z.of_nat n) 2 <= Z.of_nat n)%Z).
  { rewrite Z.quot_div_nonneg by lia. split.
    - apply Z.div_pos; lia.
    - apply Z.div_le_upper_bound; lia. }
  assert (B2 : 2 <= n -> (1 <= Z.quot (Z.of_nat n) 2 < Z.of_nat n)%Z).
  { intros H. rewrite Z.quot_div_nonneg by lia. split.
    - apply Z.div_le_lower_bound; lia.
    - apply Z.div_lt_upper_bound; lia. }
  repeat split; try lia.
Qed.

Section EqualCountsBuild.
Variable m_splitMethod : ESplitMethod.
Variable m_maxGeomsInNode : Z.
Variable m_geoms : list Geometry.

Let build := SBVH.BuildRecursive m_splitMethod m_maxGeomsInNode m_geoms.

Lemma makeLeaf_range (pre range post : list SBVHGeometryInfo) (n : Z)
    (box : BBox) (st : BuildState) node st' :
  geomInfos st = pre ++ range ++ post ->
  n = Z.of_nat (length range) ->
  SBVH.makeLeaf m_geoms range n box st = Ok (node, st') ->
  exists range' pushed,
    Permutation range' range
    /\ geomInfos st' = pre ++ range' ++ post
    /\ traverse (lookupGeom m_geoms) range' = Ok pushed
    /\ orderedGeoms st' = orderedGeoms st ++ pushed
    /\ contiguous (length (orderedGeoms st)) (rootSpans node)
                  (length (orderedGeoms st')).
Proof.
  intros Hg Hn H. apply makeLeaf_Ok in H. destruct H as [pushed [T [-> ->]]].
  exists range, pushed. simpl. repeat split; auto.
  apply traverse_length in T. rewrite length_app, T, Hn, Nat2Z.id. reflexivity.
Qed.

(** What a build of a range [first, last) does to the state, when the
    range and all its subranges are split at the midpoint: the range is
    permuted in place, its primitives are appended to the ordered list
    in the new order, and the leaves of the subtree cover exactly the
    appended part. *)
Lemma BuildRecursive_midpoint :
  forall fuel pre range post st node st',
    midpointSplit m_splitMethod (length range) ->
    geomInfos st = pre ++ range ++ post ->
    build fuel (Z.of_nat (length pre)) (Z.of_nat (length pre + length range)) st
      = Ok (node, st') ->
    exists range' pushed,
      Permutation range' range
      /\ geomInfos st' = pre ++ range' ++ post
      /\ traverse (lookupGeom m_geoms) range' = Ok pushed
      /\ orderedGeoms st' = orderedGeoms st ++ pushed
      /\ contiguous (length (orderedGeoms st)) (rootSpans node)
                    (length (orderedGeoms st')).
Proof.
  unfold build.
  induction fuel as [|fuel IH]; intros pre range post st node st' Hs Hg H;
    [discriminate|].
  cbn [SBVH.BuildRecursive] in H.
  rewrite !Nat2Z.id in H.
  match type of H with
  | (if ?g then _ else _) = _ =>
      assert (G : g = false)
        by (rewrite !orb_false_iff; repeat split; apply Z.ltb_ge; lia);
      rewrite G in H; clear G
  end.
  destruct (Z.of_nat (length (geomInfos st)) <? _)%Z in H; [discriminate|].
  rewrite Hg, slice_decomposed in H.
  assert (Hn : (Z.of_nat (length pre + length range) - Z.of_nat (length pre)
                = Z.of_nat (length range))%Z) by lia.
  rewrite Hn in H.
  destruct (Z.of_nat (length range) =? 1)%Z.
  { eapply makeLeaf_range; [exact Hg | reflexivity | exact H]. }
  match type of H with (if ?c then _ else _) = _ => destruct c end.
  { eapply makeLeaf_range; [exact Hg | reflexivity | exact H]. }
  rewrite chooseSplit_small in H
    by (destruct Hs; [left; assumption | right; lia]).
  cbn [bind] in H.
  rewrite !Nat2Z.id, slice_decomposed, splice_decomposed in H.
  set (sorted := nth_element _ range) in H.
  destruct (midpoint_bounds (length pre) (length range)) as [Hmid [Hk _]].
  set (k := Z.to_nat _ - length pre) in *.
  rewrite Hmid in H.
  assert (Hsorted : Permutation sorted range) by apply nth_element_perm.
  assert (Hlen : length sorted = length range) by apply nth_element_length.
  assert (Hl1 : length (firstn k sorted) = k)
    by (rewrite length_firstn; lia).
  inv_bind H. destruct a as [nearChild st1].
  inv_bind H. destruct a as [farChild st2].
  inversion H; subst node st'; clear H.
  (* near child *)
  clearbody k sorted.
  replace (Z.of_nat (length pre + k))
    with (Z.of_nat (length pre + length (firstn k sorted))) in E
    by (rewrite Hl1; reflexivity).
  apply (IH pre (firstn k sorted) (skipn k sorted ++ post)) in E.
  2:{ destruct Hs; [left; assumption | right; lia]. }
  2:{ simpl. f_equal. rewrite app_assoc, firstn_skipn. reflexivity. }
  destruct E as [r1 [p1 [P1 [G1 [T1 [O1 C1]]]]]]. simpl in O1, C1.
  (* far child *)
  assert (Hr1 : length r1 = k) by (rewrite (Permutation_length P1); exact Hl1).
  assert (Hl2 : length (skipn k sorted) = length range - k)
    by (rewrite length_skipn; lia).
  replace (Z.of_nat (length pre + k))
    with (Z.of_nat (length (pre ++ r1))) in E0
    by (rewrite length_app, Hr1; reflexivity).
  replace (Z.of_nat (length pre + length range))
    with (Z.of_nat (length (pre ++ r1) + length (skipn k sorted))) in E0
    by (rewrite length_app, Hr1, Hl2; f_equal; lia).
  apply (IH (pre ++ r1) (skipn k sorted) post) in E0.
  2:{ destruct Hs; [left; assumption | right; lia]. }
  2:{ rewrite G1, <- !app_assoc. reflexivity. }
  destruct E0 as [r2 [p2 [P2 [G2 [T2 [O2 C2]]]]]].
  exists (r1 ++ r2), (p1 ++ p2). simpl. repeat split.
  - rewrite P1, P2, firstn_skipn. exact Hsorted.
  - rewrite G2, <- !app_assoc. reflexivity.
  - apply traverse_app; assumption.
  - rewrite O2, O1, app_assoc. reflexivity.
  - eapply contiguous_app; eauto.
Qed.

Lemma traverse_lookup_total (range : list SBVHGeometryInfo) :
  validIds m_geoms range -> exists pushed, traverse (lookupGeom m_geoms) range = Ok pushed.
Proof.
  intros V. apply traverse_total.
  eapply Forall_impl; [|exact V]. intros gi Hgi. unfold lookupGeom.
  destruct (nth_error m_geoms (geometryId gi)) eqn:E; [eexists; reflexivity|].
  apply nth_error_None in E. cbv beta in Hgi. lia.
Qed.

Lemma makeLeaf_total (range : list SBVHGeometryInfo) (n : Z) (box : BBox)
    (st : BuildState) :
  validIds m_geoms range ->
  exists node st', SBVH.makeLeaf m_geoms range n box st = Ok (Some node, st').
Proof.
  intros V. destruct (traverse_lookup_total V) as [pushed T].
  unfold SBVH.makeLeaf. unfold lookupGeom in T. rewrite T.
  simpl. eauto.
Qed.

(** With fuel for the size of the range, the build of a non-empty range
    that is split at the midpoint all the way down returns a node. *)
Lemma BuildRecursive_midpoint_total :
  forall fuel pre range post st,
    midpointSplit m_splitMethod (length range) ->
    geomInfos st = pre ++ range ++ post ->
    range <> [] -> length range <= fuel -> validIds m_geoms range ->
    exists node st',
      build fuel (Z.of_nat (length pre)) (Z.of_nat (length pre + length range)) st
      = Ok (Some node, st').
Proof.
  unfold build.
  induction fuel as [|fuel IH]; intros pre range post st Hs Hg Hne Hf V.
  { destruct range; [congruence | simpl in Hf; lia]. }
  cbn [SBVH.BuildRecursive].
  rewrite !Nat2Z.id.
  match goal with
  | |- exists _ _, (if ?g then _ else _) = _ =>
      assert (G : g = false)
        by (rewrite !orb_false_iff; repeat split; apply Z.ltb_ge; lia);
      rewrite G; clear G
  end.
  match goal with
  | |- exists _ _, (if ?g then _ else _) = _ =>
      assert (G : g = false)
        by (apply Z.ltb_ge; rewrite Hg, !length_app; lia);
      rewrite G; clear G
  end.
  rewrite Hg, slice_decomposed.
  assert (Hn : (Z.of_nat (length pre + length range) - Z.of_nat (length pre)
                = Z.of_nat (length range))%Z) by lia.
  rewrite Hn.
  destruct (Z.eqb_spec (Z.of_nat (length range)) 1) as [H1|H1].
  { apply makeLeaf_total; assumption. }
  match goal with
  | |- exists _ _, (if ?c then _ else _) = _ => destruct c
  end.
  { apply makeLeaf_total; assumption. }
  rewrite chooseSplit_small
    by (destruct Hs; [left; assumption | right; lia]).
  cbn [bind].
  rewrite !Nat2Z.id, slice_decomposed, splice_decomposed.
  set (sorted := nth_element _ range).
  assert (Hn2 : 2 <= length range)
    by (destruct range as [|? [|? ?]]; simpl in *; [congruence | lia | lia]).
  destruct (midpoint_bounds (length pre) (length range)) as [Hmid [_ Hk]].
  specialize (Hk Hn2).
  set (k := Z.to_nat _ - length pre) in *.
  rewrite Hmid.
  assert (Hsorted : Permutation sorted range) by apply nth_element_perm.
  assert (Hlen : length sorted = length range) by apply nth_element_length.
  assert (Hl1 : length (firstn k sorted) = k)
    by (rewrite length_firstn; lia).
  assert (Hl2 : length (skipn k sorted) = length range - k)
    by (rewrite length_skipn; lia).
  assert (Vs : validIds m_geoms (firstn k sorted ++ skipn k sorted)).
  { rewrite firstn_skipn. unfold validIds.
    eapply Permutation_Forall; [symmetry; exact Hsorted | exact V]. }
  apply Forall_app in Vs. destruct Vs as [V1 V2].
  clearbody k sorted.
  (* near child *)
  set (st0 := mkBuildState (pre ++ sorted ++ post) (nodeCount st) (orderedGeoms st)).
  assert (Hg0 : geomInfos st0 = pre ++ firstn k sorted ++ skipn k sorted ++ post).
  { simpl. f_equal. rewrite app_assoc, firstn_skipn. reflexivity. }
  assert (Hs1 : midpointSplit m_splitMethod (length (firstn k sorted)))
    by (destruct Hs; [left; assumption | right; lia]).
  destruct (IH pre (firstn k sorted) (skipn k sorted ++ post) st0 Hs1 Hg0)
    as [n1 [st1 E1]]; try assumption.
  { intros C. rewrite C in Hl1. simpl in Hl1. lia. }
  { lia. }
  rewrite Hl1 in E1. rewrite E1. cbn [bind].
  rewrite <- Hl1 in E1.
  apply (BuildRecursive_midpoint _ _ _ _ _ Hs1 Hg0) in E1.
  destruct E1 as [r1 [p1 [P1 [G1 _]]]].
  assert (Hr1 : length r1 = k) by (rewrite (Permutation_length P1); exact Hl1).
  (* far child *)
  assert (Hs2 : midpointSplit m_splitMethod (length (skipn k sorted)))
    by (destruct Hs; [left; assumption | right; lia]).
  assert (Hg1 : geomInfos st1 = (pre ++ r1) ++ skipn k sorted ++ post)
    by (rewrite G1, <- !app_assoc; reflexivity).
  destruct (IH (pre ++ r1) (skipn k sorted) post st1 Hs2 Hg1)
    as [n2 [st2 E2]]; try assumption.
  { intros C. rewrite C in Hl2. simpl in Hl2. lia. }
  { lia. }
  replace (Z.of_nat (length (pre ++ r1))) with (Z.of_nat (length pre + k)) in E2
    by (rewrite length_app, Hr1; reflexivity).
  replace (Z.of_nat (length (pre ++ r1) + length (skipn k sorted)))
    with (Z.of_nat (length pre + length range)) in E2
    by (rewrite length_app, Hr1, Hl2; f_equal; lia).
  rewrite E2. cbn [bind]. eauto.
Qed.

End EqualCountsBuild.

Lemma initGeomInfos_length (geoms : list Geometry) :
  length (SBVH.initGeomInfos geoms) = length geoms.
Proof.
  unfold SBVH.initGeomInfos.
  rewrite length_map, length_combine, length_seq. lia.
Qed.

Lemma traverse_initGeomInfos_from (pre l : list Geometry) :
  traverse (lookupGeom (pre ++ l))
           (map (fun ig => mkGeomInfo (fst ig) (geom_GetBBox (snd ig)) false)
                (combine (seq (length pre) (length l)) l))
  = Ok l.
Proof.
  revert pre. induction l as [|x l IH]; intros pre; [reflexivity|].
  cbn [length seq combine map traverse fst snd].
  unfold lookupGeom at 1. cbn [geometryId].
  rewrite nth_error_app2, Nat.sub_diag by lia. cbn [nth_error of_option bind].
  specialize (IH (pre ++ [x])).
  rewrite <- app_assoc, length_app in IH. cbn [app length] in IH.
  rewrite Nat.add_1_r in IH. rewrite IH. reflexivity.
Qed.

Lemma traverse_initGeomInfos (geoms : list Geometry) :
  traverse (lookupGeom geoms) (SBVH.initGeomInfos geoms) = Ok geoms.
Proof. exact (traverse_initGeomInfos_from [] geoms). Qed.

Lemma traverse_lookup_valid (m_geoms : list Geometry)
    (range : list SBVHGeometryInfo) (pushed : list Geometry) :
  traverse (lookupGeom m_geoms) range = Ok pushed -> validIds m_geoms range.
Proof.
  intros T. apply traverse_Forall2 in T. unfold validIds.
  induction T as [|gi g l l' H _ IH]; constructor; [|exact IH].
  unfold lookupGeom in H.
  destruct (nth_error m_geoms (geometryId gi)) eqn:E; [|discriminate].
  apply nth_error_Some. congruence.
Qed.

Lemma validIds_initGeomInfos (geoms : list Geometry) :
  validIds geoms (SBVH.initGeomInfos geoms).
Proof.
  eapply traverse_lookup_valid, traverse_initGeomInfos.
Qed.

(** The root call of [Build] under [EqualCounts]: the working vector is
    permuted (nothing is appended to it), the primitive list is the
    input permuted, and the leaves tile it. *)
Lemma BuildRecursive_EqualCounts_root (m_maxGeomsInNode : Z) (geoms : list Geometry) :
  forall fuel root st,
    SBVH.BuildRecursive EqualCounts m_maxGeomsInNode geoms fuel
                        0 (Z.of_nat (length (SBVH.initGeomInfos geoms)))
                        (mkBuildState (SBVH.initGeomInfos geoms) 0 [])
      = Ok (root, st) ->
    Permutation (geomInfos st) (SBVH.initGeomInfos geoms)
    /\ Permutation (orderedGeoms st) geoms
    /\ contiguous 0 (rootSpans root) (length geoms).
Proof.
  intros fuel root st E.
  apply (@BuildRecursive_midpoint EqualCounts m_maxGeomsInNode geoms
           fuel [] (SBVH.initGeomInfos geoms) []) in E.
  - destruct E as [range' [pushed [P [G [T [O C]]]]]]. simpl in O, C.
    destruct (traverse_perm _ P T) as [ys [T' P']].
    rewrite traverse_initGeomInfos in T'. inversion T'; subst ys.
    rewrite G, O. simpl. rewrite app_nil_r.
    split; [exact P|]. split; [exact P'|].
    rewrite O, (Permutation_length P') in C. exact C.
  - left; reflexivity.
  - simpl. rewrite app_nil_r. reflexivity.
Qed.

Lemma Build_EqualCounts_spans (m_maxGeomsInNode : Z) (geoms : list Geometry) :
  forall fuel s,
    SBVH.Build EqualCounts m_maxGeomsInNode fuel geoms = Ok s ->
    Permutation (SBVH.m_geoms s) geoms
    /\ contiguous 0 (rootSpans (SBVH.m_root s)) (length geoms).
Proof.
  intros fuel s H. unfold SBVH.Build in H. inv_bind H.
  destruct a as [root st]. inversion H; subst s; clear H. simpl.
  apply BuildRecursive_EqualCounts_root in E. tauto.
Qed.

(** C10: under [EqualCounts], whenever [Build] returns, the primitive
    list it leaves is a permutation of the input list, and the spans of
    the leaves follow one another from 0 to the number of primitives, so
    that every position, hence every primitive, is in exactly one leaf;
    the working vector of the root call is a permutation of the initial
    one, so that no entry is created.  For a non-empty input [Build]
    does return (fuel: the number of primitives). *)
Theorem C10_equal_counts_permutation :
  forall (m_maxGeomsInNode : Z) (geoms : list Geometry),
    (forall fuel s,
        SBVH.Build EqualCounts m_maxGeomsInNode fuel geoms = Ok s ->
        Permutation (SBVH.m_geoms s) geoms
        /\ contiguous 0 (rootSpans (SBVH.m_root s)) (length geoms))
    /\ (forall fuel root st,
           SBVH.BuildRecursive EqualCounts m_maxGeomsInNode geoms fuel
                               0 (Z.of_nat (length (SBVH.initGeomInfos geoms)))
                               (mkBuildState (SBVH.initGeomInfos geoms) 0 [])
             = Ok (root, st) ->
           Permutation (geomInfos st) (SBVH.initGeomInfos geoms))
    /\ (geoms <> [] ->
        exists s, SBVH.Build EqualCounts m_maxGeomsInNode (length geoms) geoms = Ok s).
Proof.
  intros maxG geoms. split; [|split].
  - apply Build_EqualCounts_spans.
  - intros fuel root st E.
    apply BuildRecursive_EqualCounts_root in E. tauto.
  - intros Hne. unfold SBVH.Build.
    destruct (@BuildRecursive_midpoint_total EqualCounts maxG
                geoms (length geoms) [] (SBVH.initGeomInfos geoms) []
                (mkBuildState (SBVH.initGeomInfos geoms) 0 []))
      as [node [st' E]].
    + left; reflexivity.
    + simpl. rewrite app_nil_r. reflexivity.
    + intros C. apply (f_equal (@length _)) in C.
      rewrite initGeomInfos_length in C. destruct geoms; [congruence|discriminate].
    + rewrite initGeomInfos_length. lia.
    + apply validIds_initGeomInfos.
    + simpl in E. rewrite E. simpl. eauto.
Qed.

(* ================================================================== *)
(** ** Ranges of two to four primitives *)
(* ================================================================== *)

Lemma BuildRecursive_interior (m_splitMethod : ESplitMethod)
    (m_maxGeomsInNode : Z) (m_geoms : list Geometry) :
  forall fuel pre range post st node st',
    midpointSplit m_splitMethod (length range) ->
    2 <= length range ->
    geomInfos st = pre ++ range ++ post ->
    degenerateCentroids range = false ->
    SBVH.BuildRecursive m_splitMethod m_maxGeomsInNode m_geoms fuel
      (Z.of_nat (length pre)) (Z.of_nat (length pre + length range)) st
      = Ok (node, st') ->
    exists nearChild farChild idx box,
      node = Some (SBVHInterior nearChild farChild idx
                     (BBoxMaximumExtent (centroidBoxOfRange range)) box).
Proof.
  intros [|fuel] pre range post st node st' Hs H2 Hg Hd H; [discriminate|].
  cbn [SBVH.BuildRecursive] in H.
  rewrite !Nat2Z.id in H.
  match type of H with
  | (if ?g then _ else _) = _ =>
      assert (G : g = false)
        by (rewrite !orb_false_iff; repeat split; apply Z.ltb_ge; lia);
      rewrite G in H; clear G
  end.
  destruct (Z.of_nat (length (geomInfos st)) <? _)%Z in H; [discriminate|].
  rewrite Hg, slice_decomposed in H.
  destruct (Z.eqb_spec (Z.of_nat (length pre + length range) - Z.of_nat (length pre)) 1)
    as [C|_]; [lia|].
  unfold degenerateCentroids in Hd. rewrite Hd in H.
  rewrite chooseSplit_small in H
    by (destruct Hs; [left; assumption | right; lia]).
  cbn [bind] in H.
  inv_bind H. destruct a as [nearChild st1].
  inv_bind H. destruct a as [farChild st2].
  inversion H; subst. unfold new_SBVHNode. eauto.
Qed.

(** C9: under [SAH] and under [SpatialSplit_SAH], a range of two to four
    primitives whose centroid box is not degenerate is handled as under
    [EqualCounts]: the switch evaluates no cost and partitions at the
    midpoint index; whatever the build returns for the range is an
    interior node, never a leaf; and the build does return (fuel: the
    size of the range). *)
Theorem C9_small_ranges_split_at_midpoint :
  forall (m_splitMethod : ESplitMethod) (m_maxGeomsInNode : Z)
         (m_geoms : list Geometry)
         (pre range post : list SBVHGeometryInfo) (st : BuildState),
    m_splitMethod = SAH \/ m_splitMethod = SpatialSplit_SAH ->
    2 <= length range <= 4 ->
    geomInfos st = pre ++ range ++ post ->
    validIds m_geoms range ->
    degenerateCentroids range = false ->
    let first := Z.of_nat (length pre) in
    let last := Z.of_nat (length pre + length range) in
    let dim := BBoxMaximumExtent (centroidBoxOfRange range) in
    let build := SBVH.BuildRecursive m_splitMethod m_maxGeomsInNode m_geoms in
    (forall bboxAllGeoms bboxCentroids,
        chooseSplit m_splitMethod m_maxGeomsInNode m_geoms (geomInfos st)
                    first last bboxAllGeoms bboxCentroids dim
        = Ok (pre ++ nth_element (CompareCentroid dim) range ++ post,
              Some (Z.quot (first + last) 2))
        /\ chooseSplit m_splitMethod m_maxGeomsInNode m_geoms (geomInfos st)
                       first last bboxAllGeoms bboxCentroids dim
           = chooseSplit EqualCounts m_maxGeomsInNode m_geoms (geomInfos st)
                         first last bboxAllGeoms bboxCentroids dim)
    /\ (forall fuel node st',
           build fuel first last st = Ok (node, st') ->
           exists nearChild farChild idx box,
             node = Some (SBVHInterior nearChild farChild idx dim box))
    /\ (exists node st', build (length range) first last st = Ok (Some node, st')).
Proof.
  intros m maxG geoms pre range post st Hm Hn Hg V Hd first last dim build.
  assert (Hs : midpointSplit m (length range)) by (right; lia).
  repeat split.
  - rewrite chooseSplit_small by (right; subst first last; lia).
    subst first last. rewrite !Nat2Z.id, Hg, slice_decomposed, splice_decomposed.
    reflexivity.
  - rewrite !chooseSplit_small; [reflexivity | left; reflexivity |].
    right; subst first last; lia.
  - intros fuel node st' H.
    apply (@BuildRecursive_interior m maxG geoms fuel pre range post st node st'
             Hs (proj1 Hn) Hg Hd H).
  - apply (@BuildRecursive_midpoint_total m maxG geoms (length range)
             pre range post st Hs Hg); auto.
    intros C. rewrite C in Hn. simpl in Hn. lia.
Qed.

(* ================================================================== *)
(** ** Coinciding centroids *)
(* ================================================================== *)

Lemma min_pinned (x y c : flt) :
  is_finite c = true -> (x ==? c)%flt = true -> (y ==? c)%flt = true ->
  Flt.min x y = x /\ Flt.max x y = x.
Proof.
  destruct c as [| |c]; try discriminate. intros _.
  destruct x as [| |x]; try discriminate.
  destruct y as [| |y]; try discriminate.
  simpl. intros Hx Hy.
  apply Qeq_bool_iff in Hx, Hy.
  unfold Flt.min, Flt.max, Flt.ltb, Qltb.
  assert (Hxy : Qle_bool x y = true)
    by (apply Qle_bool_iff; rewrite Hx, Hy; apply Qle_refl).
  assert (Hyx : Qle_bool y x = true)
    by (apply Qle_bool_iff; rewrite Hx, Hy; apply Qle_refl).
  rewrite Hxy, Hyx. auto.
Qed.

Lemma min_default (x c : flt) :
  is_finite c = true -> (x ==? c)%flt = true ->
  Flt.min INFINITY x = x /\ Flt.max (Inf true) x = x.
Proof.
  destruct c as [| |c]; try discriminate. intros _.
  destruct x as [| |x]; try discriminate. auto.
Qed.

Lemma eqb_refl_finite (x c : flt) :
  is_finite c = true -> (x ==? c)%flt = true -> (x ==? x)%flt = true.
Proof.
  destruct c as [| |c]; try discriminate. intros _.
  destruct x as [| |x]; try discriminate. intros _.
  simpl. apply Qeq_bool_iff. reflexivity.
Qed.

Lemma veqb_components (a c : vec3) :
  veqb a c = true ->
  (vx a ==? vx c)%flt = true /\ (vy a ==? vy c)%flt = true
  /\ (vz a ==? vz c)%flt = true.
Proof.
  unfold veqb. rewrite !andb_true_iff. tauto.
Qed.

Lemma vfinite_components (c : vec3) :
  vfinite c = true ->
  is_finite (vx c) = true /\ is_finite (vy c) = true /\ is_finite (vz c) = true.
Proof.
  unfold vfinite. rewrite !andb_true_iff. tauto.
Qed.

(** Centroids that all compare equal to [c] leave both corners of the
    centroid box at the first centroid. *)
Lemma centroidBox_pinned (c : vec3) (range : list SBVHGeometryInfo) :
  vfinite c = true ->
  Forall (fun gi => veqb (m_centroid (bbox gi)) c = true) range ->
  forall b p,
    veqb p c = true -> m_min b = p -> m_max b = p ->
    let b' := fold_left (fun b gi => BBoxUnionPoint b (m_centroid (bbox gi))) range b in
    m_min b' = p /\ m_max b' = p.
Proof.
  intros Hc HF. apply vfinite_components in Hc. destruct Hc as [Fx [Fy Fz]].
  induction HF as [|gi range Hgi _ IH]; intros b p Hp Hmin Hmax; simpl.
  - auto.
  - apply IH; [exact Hp | |].
    + unfold BBoxUnionPoint, BBox_of_corners, vmin, vmap2. simpl.
      rewrite Hmin.
      apply veqb_components in Hp, Hgi.
      destruct Hp as [Px [Py Pz]], Hgi as [Gx [Gy Gz]].
      destruct (@min_pinned _ _ _ Fx Px Gx) as [-> _].
      destruct (@min_pinned _ _ _ Fy Py Gy) as [-> _].
      destruct (@min_pinned _ _ _ Fz Pz Gz) as [-> _].
      destruct p; reflexivity.
    + unfold BBoxUnionPoint, BBox_of_corners, vmax, vmap2. simpl.
      rewrite Hmax.
      apply veqb_components in Hp, Hgi.
      destruct Hp as [Px [Py Pz]], Hgi as [Gx [Gy Gz]].
      destruct (@min_pinned _ _ _ Fx Px Gx) as [_ ->].
      destruct (@min_pinned _ _ _ Fy Py Gy) as [_ ->].
      destruct (@min_pinned _ _ _ Fz Pz Gz) as [_ ->].
      destruct p; reflexivity.
Qed.

Lemma degenerate_of_equal_centroids (c : vec3) (range : list SBVHGeometryInfo) :
  vfinite c = true -> range <> [] ->
  Forall (fun gi => veqb (m_centroid (bbox gi)) c = true) range ->
  degenerateCentroids range = true.
Proof.
  intros Hc Hne HF. destruct range as [|gi range]; [congruence|].
  inversion HF as [|? ? Hgi HF']; subst.
  unfold degenerateCentroids, centroidBoxOfRange. cbn [fold_left].
  pose proof (vfinite_components _ Hc) as [Fx [Fy Fz]].
  pose proof (veqb_components _ _ Hgi) as [Gx [Gy Gz]].
  destruct (@centroidBox_pinned c range Hc HF'
              (BBoxUnionPoint BBox_default (m_centroid (bbox gi)))
              (m_centroid (bbox gi)) Hgi) as [Emin Emax].
  - unfold BBoxUnionPoint, BBox_of_corners, BBox_default, vmin, vmap2, vec3_splat.
    simpl.
    destruct (@min_default _ _ Fx Gx) as [-> _].
    destruct (@min_default _ _ Fy Gy) as [-> _].
    destruct (@min_default _ _ Fz Gz) as [-> _].
    destruct (m_centroid (bbox gi)); reflexivity.
  - unfold BBoxUnionPoint, BBox_of_corners, BBox_default, vmax, vmap2, vec3_splat.
    simpl.
    destruct (@min_default _ _ Fx Gx) as [_ ->].
    destruct (@min_default _ _ Fy Gy) as [_ ->].
    destruct (@min_default _ _ Fz Gz) as [_ ->].
    destruct (m_centroid (bbox gi)); reflexivity.
  - rewrite Emin, Emax.
    destruct (BBoxMaximumExtent _); simpl; eauto using eqb_refl_finite.
Qed.

Lemma initGeomInfos_centroids (P : vec3 -> Prop) (geoms : list Geometry) :
  Forall (fun g => P (m_centroid (geom_GetBBox g))) geoms ->
  Forall (fun gi => P (m_centroid (bbox gi))) (SBVH.initGeomInfos geoms).
Proof.
  intros H. unfold SBVH.initGeomInfos.
  apply Forall_forall. intros gi Hin.
  apply in_map_iff in Hin. destruct Hin as [[i g] [<- Hin]].
  apply in_combine_r in Hin. simpl.
  rewrite Forall_forall in H. auto.
Qed.

(** C6: two or more primitives whose centroids all compare equal to one
    finite point are built, under every strategy, into a single leaf
    that holds all of them, in the input order. *)
Theorem C6_equal_centroids_single_leaf :
  forall (m_splitMethod : ESplitMethod) (m_maxGeomsInNode : Z) (fuel : nat)
         (geoms : list Geometry) (c : vec3),
    2 <= length geoms ->
    vfinite c = true ->
    Forall (fun g => veqb (m_centroid (geom_GetBBox g)) c = true) geoms ->
    let leaf := SBVHLeaf 0 0 (length geoms) (bboxOfRange (SBVH.initGeomInfos geoms)) in
    SBVH.Build m_splitMethod m_maxGeomsInNode (S fuel) geoms
    = Ok (SBVH.mkSBVH (Some leaf) geoms [leaf]).
Proof.
  intros m maxG fuel geoms c HN Hc HF leaf.
  unfold SBVH.Build. cbn [SBVH.BuildRecursive].
  rewrite initGeomInfos_length. cbn [geomInfos Z.to_nat].
  rewrite Nat2Z.id.
  match goal with
  | |- bind (if ?g then _ else _) _ = _ =>
      assert (G : g = false)
        by (rewrite !orb_false_iff; repeat split; apply Z.ltb_ge; lia);
      rewrite G; clear G
  end.
  rewrite initGeomInfos_length, Z.ltb_irrefl.
  assert (Hall : slice 0 (length geoms) (SBVH.initGeomInfos geoms)
                 = SBVH.initGeomInfos geoms)
    by (rewrite <- (initGeomInfos_length geoms); apply slice_all).
  rewrite Hall.
  destruct (Z.eqb_spec (Z.of_nat (length geoms) - 0) 1) as [C|_]; [lia|].
  pose proof (@degenerate_of_equal_centroids c (SBVH.initGeomInfos geoms) Hc) as D.
  unfold degenerateCentroids in D. rewrite D.
  - unfold SBVH.makeLeaf.
    pose proof (traverse_initGeomInfos geoms) as T.
    unfold lookupGeom in T. rewrite T.
    cbn [bind orderedGeoms nodeCount length app SBVH.Flatten SBVH.FlattenRecursive].
    rewrite Z.sub_0_r, Nat2Z.id. reflexivity.
  - intros C. apply (f_equal (@length _)) in C.
    rewrite initGeomInfos_length in C. simpl in C. lia.
  - apply (initGeomInfos_centroids (fun p => veqb p c = true)). exact HF.
Qed.

(* ================================================================== *)
(** ** The SAH decision between a leaf and a split *)
(* ================================================================== *)

(** C7, as the code has it: under [SAH], for a range of more than four
    primitives that reaches the strategy switch, the switch makes a leaf
    exactly when the range is within the leaf bound and the minimum cost
    is NOT BELOW the leaf cost (equal costs make a leaf); otherwise it
    partitions the range into the primitives of the buckets up to the
    winning bucket and the rest.  The node the build returns is a leaf
    in the first case and an interior node in the second. *)
Theorem C7_SAH_leaf_iff_not_cheaper :
  forall (m_maxGeomsInNode : Z) (m_geoms : list Geometry) (fuel : nat)
         (pre range post : list SBVHGeometryInfo) (st : BuildState)
         (buckets : list BucketInfo),
    4 < length range ->
    geomInfos st = pre ++ range ++ post ->
    degenerateCentroids range = false ->
    let first := Z.of_nat (length pre) in
    let last := Z.of_nat (length pre + length range) in
    let numPrimitives := Z.of_nat (length range) in
    let bboxAllGeoms := bboxOfRange range in
    let bboxCentroids := centroidBoxOfRange range in
    let dim := BBoxMaximumExtent bboxCentroids in
    fillBuckets bboxCentroids dim range new_buckets = Ok buckets ->
    let minCost := fst (sahMinimum buckets (one / GetSurfaceArea bboxAllGeoms)%flt) in
    let minCostBucket := snd (sahMinimum buckets (one / GetSurfaceArea bboxAllGeoms)%flt) in
    let makesLeaf :=
      (numPrimitives <=? m_maxGeomsInNode)%Z
      && negb (minCost <? leafCostOf numPrimitives)%flt in
    let near := filter (inNearHalf bboxCentroids dim minCostBucket) range in
    let far := filter (fun gi => negb (inNearHalf bboxCentroids dim minCostBucket gi))
                      range in
    chooseSplit SAH m_maxGeomsInNode m_geoms (geomInfos st) first last
                bboxAllGeoms bboxCentroids dim
    = (if makesLeaf then Ok (geomInfos st, None)
       else Ok (pre ++ (near ++ far) ++ post,
                Some (first + Z.of_nat (length near))%Z))
    /\ (forall node st',
           SBVH.BuildRecursive SAH m_maxGeomsInNode m_geoms fuel first last st
             = Ok (node, st') ->
           exists n, node = Some n /\ IsLeaf n = makesLeaf).
Proof.
  intros maxG geoms fuel pre range post st buckets Hn Hg Hd
         first last numPrimitives bboxAllGeoms bboxCentroids dim Hb
         minCost minCostBucket makesLeaf near far.
  assert (Hsub : (last - first)%Z = numPrimitives)
    by (subst first last numPrimitives; lia).
  assert (Hchoose :
            chooseSplit SAH maxG geoms (geomInfos st) first last
                        bboxAllGeoms bboxCentroids dim
            = (if makesLeaf then Ok (geomInfos st, None)
               else Ok (pre ++ (near ++ far) ++ post,
                        Some (first + Z.of_nat (length near))%Z))).
  { unfold chooseSplit. rewrite Hsub.
    destruct (Z.leb_spec numPrimitives 4) as [C|_];
      [subst numPrimitives; lia|].
    subst first last. rewrite !Nat2Z.id, Hg, slice_decomposed.
    fold bboxCentroids dim. rewrite Hb. cbn [bind].
    fold bboxAllGeoms.
    change (scanMinCost _) with (sahMinimum buckets (one / GetSurfaceArea bboxAllGeoms)%flt).
    destruct (sahMinimum buckets (one / GetSurfaceArea bboxAllGeoms)%flt)
      as [mc mb] eqn:Emin.
    subst makesLeaf minCost minCostBucket near far.
    rewrite ?Emin. cbn [fst snd].
    unfold splitsNode, leafCostOf, partition_range.
    rewrite splice_decomposed.
    rewrite (Z.leb_antisym maxG numPrimitives).
    destruct (maxG <? numPrimitives)%Z; cbn [orb andb negb]; [reflexivity|].
    destruct (mc <? of_int numPrimitives * COST_INTERSECTION)%flt;
      reflexivity. }
  split; [exact Hchoose|].
  intros node st' H.
  destruct fuel as [|fuel]; [discriminate|].
  cbn [SBVH.BuildRecursive] in H.
  fold first last in H.
  match type of H with
  | (if ?g then _ else _) = _ =>
      assert (G : g = false)
        by (rewrite !orb_false_iff; subst first last;
            repeat split; apply Z.ltb_ge; lia);
      rewrite G in H; clear G
  end.
  destruct (Z.of_nat (length (geomInfos st)) <? _)%Z in H; [discriminate|].
  rewrite Hsub in H.
  destruct (Z.eqb_spec numPrimitives 1) as [C|_]; [subst numPrimitives; lia|].
  subst first last. rewrite !Nat2Z.id, Hg, slice_decomposed in H.
  unfold degenerateCentroids in Hd. rewrite Hd in H.
  fold bboxAllGeoms bboxCentroids dim in H.
  rewrite Hg in Hchoose. rewrite Hchoose in H.
  destruct makesLeaf.
  - cbn [bind] in H. apply makeLeaf_Ok in H.
    destruct H as [pushed [_ [-> _]]]. eexists; split; reflexivity.
  - cbn [bind] in H.
    inv_bind H. destruct a as [nearChild st1].
    inv_bind H. destruct a as [farChild st2].
    inversion H; subst. eexists; split; reflexivity.
Qed.

(** On [sceneLeafTie] with a leaf bound of 8 the minimum cost over the
    boundaries equals the cost of a leaf, and the build makes a leaf. *)
Lemma sceneLeafTie_equal_cost_makes_leaf :
  exists buckets s,
    rootBuckets sceneLeafTie = Ok buckets
    /\ SBVH.Build SAH 8 1 sceneLeafTie = Ok s
    /\ ~ (rootIsLeaf s = true <->
          (fst (sahMinimum buckets (root_invAllGeometriesSA (rootRange sceneLeafTie)))
             >? leafCostOf 5)%flt = true
          /\ (5 <= 8)%Z).
Proof.
  eexists. eexists.
  split; [evaluate; reflexivity|].
  split; [evaluate; reflexivity|].
  intros [H _]. specialize (H eq_refl). destruct H as [H _].
  evaluate in H. discriminate.
Qed.


(* ================================================================== *)
(** ** Ties between the object and the spatial candidate *)
(* ================================================================== *)

Lemma eqb_not_ltb (a b : flt) : (a ==? b)%flt = true -> (a <? b)%flt = false.
Proof.
  destruct a as [| |p], b as [| |q]; simpl; try discriminate.
  - destruct negative, negative0; simpl; auto; discriminate.
  - intros H. apply Qeq_bool_iff in H. unfold Qltb.
    assert (L : Qle_bool q p = true)
      by (apply Qle_bool_iff; rewrite H; apply Qle_refl).
    rewrite L. reflexivity.
Qed.

(** C3, as the code has it: in turn [i] of the candidate loop, when the
    object cost and the spatial cost compared with it are equal, the
    SPATIAL candidate is the one measured against the tracked minimum
    and recorded when it is below it (ties favour the spatial split);
    the object candidate is measured against the minimum only when its
    cost is strictly below the spatial cost. *)
Theorem C3_ties_favour_spatial_split :
  forall (i : nat) (buckets spatialSplitBuckets : list BucketInfo)
         (invAllGeometriesSA : flt) (st : SplitState),
    let objectSplitCost := objectSplitCostAt i buckets invAllGeometriesSA in
    let spatialSplitCost' :=
      spatialCostCompared i buckets spatialSplitBuckets invAllGeometriesSA st in
    let st' := candidateStep buckets spatialSplitBuckets invAllGeometriesSA st i in
    let unchanged :=
      mkSplitState (minSplitCost st) (minSplitCostBucket st) spatialSplitCost'
                   (isSpatialSplit st) in
    ((objectSplitCost ==? spatialSplitCost')%flt = true ->
     st' = if (spatialSplitCost' <? minSplitCost st)%flt
           then mkSplitState spatialSplitCost' (Z.of_nat i) spatialSplitCost' true
           else unchanged)
    /\ ((objectSplitCost <? spatialSplitCost')%flt = true ->
        st' = if (objectSplitCost <? minSplitCost st)%flt
              then mkSplitState objectSplitCost (Z.of_nat i) spatialSplitCost' false
              else unchanged)
    /\ ((objectSplitCost <? spatialSplitCost')%flt = false ->
        st' = if (spatialSplitCost' <? minSplitCost st)%flt
              then mkSplitState spatialSplitCost' (Z.of_nat i) spatialSplitCost' true
              else unchanged).
Proof.
  intros i buckets sb inv st obj sp st' unchanged.
  assert (Hlt : (obj <? sp)%flt = true ->
                st' = if (obj <? minSplitCost st)%flt
                      then mkSplitState obj (Z.of_nat i) sp false else unchanged).
  { intros H. subst st'. unfold candidateStep, selectCandidate.
    fold obj. change (if restrictionMet i buckets inv then _ else _) with sp.
    rewrite H. reflexivity. }
  assert (Hge : (obj <? sp)%flt = false ->
                st' = if (sp <? minSplitCost st)%flt
                      then mkSplitState sp (Z.of_nat i) sp true else unchanged).
  { intros H. subst st'. unfold candidateStep, selectCandidate.
    fold obj. change (if restrictionMet i buckets inv then _ else _) with sp.
    rewrite H. reflexivity. }
  repeat split; auto.
  intros H. apply Hge, eqb_not_ltb, H.
Qed.

(** On [sceneTie] the two candidates cost the same at boundary 5, and the
    candidate recorded is the spatial one. *)
Lemma sceneTie_tie_selects_spatial :
  exists buckets gis1 spatialSplitBuckets,
    rootBuckets sceneTie = Ok buckets
    /\ rootSpatialBuckets sceneTie = Ok (gis1, spatialSplitBuckets)
    /\ let inv := root_invAllGeometriesSA (rootRange sceneTie) in
       restrictionMet 5 buckets inv = true
       /\ objectSplitCostAt 5 buckets inv = Fin (55 # 16)
       /\ spatialSplitCostAt 5 buckets spatialSplitBuckets inv = Fin (55 # 16)
       /\ minSplitCost (candidateAfter 5 buckets spatialSplitBuckets inv) = Fin (47 # 12)
       /\ candidateAfter 6 buckets spatialSplitBuckets inv
          = mkSplitState (Fin (55 # 16)) 5 (Fin (55 # 16)) true
       /\ isSpatialSplit (findCandidate buckets spatialSplitBuckets inv) = true
       /\ ~ ((objectSplitCostAt 5 buckets inv
                ==? spatialSplitCostAt 5 buckets spatialSplitBuckets inv)%flt = true ->
             isSpatialSplit (candidateAfter 6 buckets spatialSplitBuckets inv) = false).
Proof.
  eexists. eexists. eexists.
  split; [evaluate; reflexivity|].
  split; [evaluate; reflexivity|].
  cbv zeta.
  repeat (split; [vm_compute; reflexivity|]).
  intros H. specialize (H ltac:(vm_compute; reflexivity)).
  vm_compute in H. discriminate.
Qed.

(* ================================================================== *)
(** ** The counts of the spatial cost *)
(* ================================================================== *)

Lemma sumBuckets_from (bs : list BucketInfo) :
  forall (b : BBox) (c : Z),
    sumBuckets bs b c
    = (fst (sumBuckets bs b 0), (c + snd (sumBuckets bs b 0))%Z).
Proof.
  unfold sumBuckets.
  induction bs as [|x bs IH]; intros b c; cbn [fold_left fst snd].
  - f_equal. lia.
  - rewrite (IH _ (c + count x)%Z), (IH _ (0 + count x)%Z).
    cbn [fst snd]. f_equal. lia.
Qed.

(** C4, on the code: the cost computed at lines 336-353 takes the boxes
    of the spatial buckets, but its two counts are the counts of the
    OBJECT buckets plus the counts of the spatial buckets, since
    [count0] and [count1] are not reset with the boxes.  On [sceneTie]
    at boundary 5, where the restriction is met, the code computes
    55/16 (counts 3 + 1 and 2 + 1); with the counts of the spatial
    buckets only (1 and 1) the cost is 17/16. *)
Theorem C4_spatial_cost_keeps_object_counts :
  (forall (i : nat) (buckets spatialSplitBuckets : list BucketInfo) (inv : flt),
      let '((_, objectCount0), (_, objectCount1)) := objectSides i buckets in
      let '(bbox0, spatialCount0) :=
        sumBuckets (bucketsUpTo i spatialSplitBuckets) BBox_default 0 in
      let '(bbox1, spatialCount1) :=
        sumBuckets (bucketsAfter i spatialSplitBuckets) BBox_default 0 in
      spatialSplitCostAt i buckets spatialSplitBuckets inv
      = splitCost (objectCount0 + spatialCount0) bbox0
                  (objectCount1 + spatialCount1) bbox1 inv)
  /\ (exists buckets gis1 spatialSplitBuckets,
         rootBuckets sceneTie = Ok buckets
         /\ rootSpatialBuckets sceneTie = Ok (gis1, spatialSplitBuckets)
         /\ let inv := root_invAllGeometriesSA (rootRange sceneTie) in
            restrictionMet 5 buckets inv = true
            /\ spatialSplitCostAt 5 buckets spatialSplitBuckets inv = Fin (55 # 16)
            /\ spec_spatialSplitCostAt 5 spatialSplitBuckets inv = Fin (17 # 16)).
Proof.
  split.
  - intros i buckets sb inv. unfold spatialSplitCostAt.
    destruct (objectSides i buckets) as [[b0 c0] [b1 c1]].
    rewrite (sumBuckets_from (bucketsUpTo i sb) BBox_default c0).
    rewrite (sumBuckets_from (bucketsAfter i sb) BBox_default c1).
    destruct (sumBuckets (bucketsUpTo i sb) BBox_default 0) as [sb0 sc0].
    destruct (sumBuckets (bucketsAfter i sb) BBox_default 0) as [sb1 sc1].
    reflexivity.
  - eexists. eexists. eexists.
    split; [evaluate; reflexivity|].
    split; [evaluate; reflexivity|].
    cbv zeta. repeat split; vm_compute; reflexivity.
Qed.

(* ================================================================== *)
(** ** The pass over the straddling entries *)
(* ================================================================== *)

Lemma removeStraddling_length (range : list SBVHGeometryInfo) :
  length (removeStraddling range) = length range.
Proof.
  unfold removeStraddling, remove_if.
  rewrite length_app, length_skipn.
  pose proof (filter_length_le (fun x => negb (straddling x)) range). lia.
Qed.

(** C2, on the code: the pass of lines 374-380 keeps the bounds of the
    range, whatever the range.  On [sceneSpatial] the spatial candidate
    wins; the first entry (primitive 0, straddling) is overwritten by
    the last (primitive 4), the straddling entries of primitives 1, 2
    and 3 stay where they were, still flagged, and the 37 synthetic
    entries sit behind the range, at positions 5 to 41 (the first nine
    are the parts of primitive 0): the partition of [first, last) sees
    flagged entries and no synthetic one. *)
Theorem C2_straddling_entries_stay_in_range :
  (forall range, length (removeStraddling range) = length range)
  /\ (let rr := rootRange sceneSpatial in
      exists gis2 st,
        spatialCandidate sceneSpatial (root_geomInfos rr) 0 5
                         (root_bboxAllGeoms rr) (root_bboxCentroids rr) (root_dim rr)
        = Ok (gis2, st)
        /\ isSpatialSplit st = true
        /\ map (fun gi => (geometryId gi, straddling gi)) (slice 0 5 gis2)
           = [(4, false); (1, true); (2, true); (3, true); (4, false)]
        /\ length gis2 = 42
        /\ map geometryId (slice 5 14 gis2) = repeat 0 9).
Proof.
  split; [exact removeStraddling_length|].
  cbv zeta.
  assert (H : { p | spatialCandidate sceneSpatial
                      (root_geomInfos (rootRange sceneSpatial)) 0 5
                      (root_bboxAllGeoms (rootRange sceneSpatial))
                      (root_bboxCentroids (rootRange sceneSpatial))
                      (root_dim (rootRange sceneSpatial)) = Ok p })
    by (eexists; evaluate; reflexivity).
  destruct H as [[gis2 st] H]. exists gis2, st.
  split; [exact H|].
  evaluate in H. inversion H; subst gis2 st; clear H.
  repeat split; reflexivity.
Qed.

(* ================================================================== *)
(** ** Nearest intersection against brute force *)
(* ================================================================== *)

(** C1, on the code: under [SpatialSplit_SAH] the build of
    [sceneSpatial] returns a tree whose leaves hold the primitives 1, 2,
    3, 4 and 4 again: primitive 0 has been overwritten in the working
    range by the pass over the straddling entries.  The ray
    [rayThroughFirst] hits primitive 0 at [t = 1] and no other
    primitive: brute force over the input finds that intersection, the
    tree query finds none, whatever the box test answers. *)
Theorem C1_spatial_build_loses_a_primitive :
  exists s,
    SBVH.Build SpatialSplit_SAH 4 10 sceneSpatial = Ok s
    /\ map (fun g => hitObject (geom_GetIntersection g rayThroughFirst))
           sceneSpatial
       = [Some 0; None; None; None; None]
    /\ SBVH.bruteForce rayThroughFirst sceneSpatial
       = (Fin 1, mkIntersection (Fin 1) (Some 0))
    /\ SBVH.m_geoms s
       = map (fun i => nth i sceneSpatial (wedge 0 0 0 0 0)) [1; 2; 3; 4; 4]
    /\ rootSpans (SBVH.m_root s) = [(0, 1); (1, 1); (2, 1); (3, 2)]
    /\ (forall DoesIntersectBBox,
           SBVH.GetIntersection DoesIntersectBBox (SBVH.m_geoms s)
                                rayThroughFirst (SBVH.m_root s)
           = Ok Intersection_default).
Proof.
  assert (H : { s | SBVH.Build SpatialSplit_SAH 4 10 sceneSpatial = Ok s })
    by (eexists; evaluate; reflexivity).
  destruct H as [s H]. exists s.
  split; [exact H|].
  evaluate in H. inversion H; subst s; clear H.
  split; [vm_compute; reflexivity|].
  split; [vm_compute; reflexivity|].
  split; [reflexivity|].
  split; [reflexivity|].
  intros boxTest. vm_compute.
  repeat match goal with
         | |- context [boxTest ?b ?r] => destruct (boxTest b r)
         end; reflexivity.
Qed.

(* ================================================================== *)
(** ** The tree query on a tree whose leaves tile the primitive list *)
(* ================================================================== *)

Lemma bruteForce_fold (r : Ray) (geoms : list Geometry) :
  SBVH.bruteForce r geoms
  = fold_left (nearestStep r) geoms (INFINITY, Intersection_default).
Proof. reflexivity. Qed.

Lemma noneHit_fold (r : Ray) (geoms : list Geometry) :
  noneHit r geoms ->
  forall nearest, fold_left (nearestStep r) geoms nearest = nearest.
Proof.
  induction 1 as [|g geoms Hg _ IH]; intros nearest; simpl; [reflexivity|].
  unfold nearestStep at 2. rewrite Hg. simpl. apply IH.
Qed.

Lemma contiguous_le (spans : list (nat * nat)) :
  forall a b, contiguous a spans b -> a <= b.
Proof.
  induction spans as [|[o c] spans IH]; simpl; intros a b H.
  - lia.
  - destruct H as [_ H]. apply IH in H. lia.
Qed.

Lemma contiguous_app_inv (s1 s2 : list (nat * nat)) :
  forall a b, contiguous a (s1 ++ s2) b ->
              exists m, contiguous a s1 m /\ contiguous m s2 b.
Proof.
  induction s1 as [|[o c] s1 IH]; simpl; intros a b H.
  - exists a. auto.
  - destruct H as [-> H]. destruct (IH _ _ H) as [m [H1 H2]].
    exists m. auto.
Qed.

Lemma geomsOfSpans_contiguous (m_geoms : list Geometry) (spans : list (nat * nat)) :
  forall a b, contiguous a spans b ->
              geomsOfSpans m_geoms spans = slice a b m_geoms.
Proof.
  induction spans as [|[o c] spans IH]; simpl; intros a b H.
  - subst b. symmetry. apply slice_empty.
  - destruct H as [-> H]. pose proof (@contiguous_le _ _ _ H) as L.
    rewrite (IH _ _ H). symmetry. apply slice_split; lia.
Qed.

Section TreeQuery.
Variable DoesIntersectBBox : BBox -> Ray -> bool.
Variable m_geoms : list Geometry.
Variable r : Ray.

Lemma leafNearest_fold (firstGeomOffset : nat) :
  forall n i nearest,
    firstGeomOffset + i + n <= length m_geoms ->
    SBVH.leafNearest m_geoms r firstGeomOffset n i nearest
    = Ok (fold_left (nearestStep r)
                    (slice (firstGeomOffset + i) (firstGeomOffset + i + n) m_geoms)
                    nearest).
Proof.
  induction n as [|n IH]; intros i nearest H; simpl.
  - rewrite Nat.add_0_r, slice_empty. reflexivity.
  - destruct (nth_error m_geoms (firstGeomOffset + i)) as [g|] eqn:E.
    2:{ apply nth_error_None in E. lia. }
    simpl. rewrite (@slice_cons _ _ (firstGeomOffset + i + S n) _ _ E) by lia. simpl.
    rewrite IH by lia.
    replace (firstGeomOffset + S i) with (S (firstGeomOffset + i)) by lia.
    replace (S (firstGeomOffset + i) + n) with (firstGeomOffset + i + S n) by lia.
    reflexivity.
Qed.

(** Where the box test is conservative, the descent into a subtree whose
    leaves tile the positions [a .. b-1] of the primitive list does what
    the loop over those positions does. *)
Lemma GetIntersectionRecursive_fold (node : SBVHNode) :
  forall a b nearest,
    contiguous a (leafSpans node) b -> b <= length m_geoms ->
    boxTestSound DoesIntersectBBox m_geoms r node ->
    SBVH.GetIntersectionRecursive DoesIntersectBBox m_geoms r node nearest
    = Ok (fold_left (nearestStep r) (slice a b m_geoms) nearest).
Proof.
  induction node as [idx o c box | nearChild farChild idx axis box IHn IHf]
    using SBVHNode_induction; intros a b nearest C L S.
  - simpl in C. destruct C as [-> C]. subst b.
    cbn [SBVH.GetIntersectionRecursive].
    rewrite (@leafNearest_fold a c 0 nearest) by lia.
    rewrite Nat.add_0_r. reflexivity.
  - cbn [SBVH.GetIntersectionRecursive].
    cbn [boxTestSound] in S. destruct S as [Sbox [Sn Sf]].
    destruct (DoesIntersectBBox box r) eqn:T.
    + cbn [leafSpans] in C. apply contiguous_app_inv in C.
      destruct C as [m [Cn Cf]].
      pose proof (@contiguous_le _ _ _ Cn) as Ln.
      pose proof (@contiguous_le _ _ _ Cf) as Lf.
      rewrite (@slice_split _ a m b) by assumption.
      rewrite fold_left_app.
      destruct nearChild as [n1|].
      * rewrite (IHn a m nearest Cn) by (assumption || lia). cbn [bind].
        destruct farChild as [n2|].
        -- apply IHf; assumption.
        -- simpl in Cf. subst m. rewrite slice_empty. reflexivity.
      * simpl in Cn. subst m. rewrite slice_empty. cbn [bind fold_left].
        destruct farChild as [n2|].
        -- apply IHf; assumption.
        -- simpl in Cf. subst b. rewrite slice_empty. reflexivity.
    + specialize (Sbox eq_refl). unfold subtreeGeoms in Sbox.
      cbn [rootSpans] in Sbox.
      rewrite (@geomsOfSpans_contiguous m_geoms _ _ _ C) in Sbox.
      rewrite (@noneHit_fold _ _ Sbox). reflexivity.
Qed.

Lemma visitNearest_fold (child : option SBVHNode) :
  forall a b nearest,
    contiguous a (rootSpans child) b -> b <= length m_geoms ->
    match child with
    | Some c => boxTestSound DoesIntersectBBox m_geoms r c
    | None => True
    end ->
    SBVH.visitNearest DoesIntersectBBox m_geoms r child nearest
    = Ok (fold_left (nearestStep r) (slice a b m_geoms) nearest).
Proof.
  intros a b nearest C L S. destruct child as [c|]; simpl.
  - apply GetIntersectionRecursive_fold; assumption.
  - simpl in C. subst b. rewrite slice_empty. reflexivity.
Qed.

(** [GetIntersection] on a non-null root whose leaves tile the whole
    primitive list returns what brute force over that list returns. *)
Lemma GetIntersection_bruteForce (root : option SBVHNode) :
  root <> None ->
  contiguous 0 (rootSpans root) (length m_geoms) ->
  boxTestSoundBelowRoot DoesIntersectBBox m_geoms r root ->
  SBVH.GetIntersection DoesIntersectBBox m_geoms r root
  = Ok (snd (SBVH.bruteForce r m_geoms)).
Proof.
  intros Hroot C S. rewrite bruteForce_fold.
  destruct root as [[idx o c box | nearChild farChild idx axis box]|];
    [| |congruence]; cbn [SBVH.GetIntersection].
  - simpl in C. destruct C as [-> C].
    rewrite (@leafNearest_fold 0 c 0) by (simpl; lia).
    simpl in C. cbn [bind Nat.add]. rewrite C, slice_all. reflexivity.
  - cbn [boxTestSoundBelowRoot] in S. destruct S as [Sn Sf].
    cbn [rootSpans leafSpans] in C. apply contiguous_app_inv in C.
    destruct C as [m [Cn Cf]].
    pose proof (@contiguous_le _ _ _ Cn) as Ln.
    pose proof (@contiguous_le _ _ _ Cf) as Lf.
    rewrite (@visitNearest_fold nearChild 0 m) by (assumption || lia).
    cbn [bind].
    rewrite (@visitNearest_fold farChild m (length m_geoms)) by (assumption || lia).
    cbn [bind]. rewrite <- fold_left_app, <- slice_split by lia.
    rewrite slice_all. reflexivity.
Qed.

End TreeQuery.

Lemma BuildRecursive_not_null (m_splitMethod : ESplitMethod)
    (m_maxGeomsInNode : Z) (m_geoms : list Geometry) :
  forall fuel first last st node st',
    (0 <= first <= last)%Z ->
    SBVH.BuildRecursive m_splitMethod m_maxGeomsInNode m_geoms fuel first last st
      = Ok (node, st') ->
    node <> None.
Proof.
  intros [|fuel] first last st node st' B H; [discriminate|].
  cbn [SBVH.BuildRecursive] in H.
  match type of H with
  | (if ?g then _ else _) = _ =>
      assert (G : g = false)
        by (rewrite !orb_false_iff; repeat split; apply Z.ltb_ge; lia);
      rewrite G in H; clear G
  end.
  destruct (Z.of_nat (length (geomInfos st)) <? last)%Z; [discriminate|].
  assert (Leaf : forall range n box st0,
             SBVH.makeLeaf m_geoms range n box st0 = Ok (node, st') ->
             node <> None).
  { intros range n box st0 HL. apply makeLeaf_Ok in HL.
    destruct HL as [pushed [_ [-> _]]]. discriminate. }
  destruct (last - first =? 1)%Z; [eauto|].
  match type of H with (if ?c then _ else _) = _ => destruct c end; [eauto|].
  inv_bind H. destruct a as [geomInfos' [mid|]]; [|eauto].
  inv_bind H. destruct a as [nearChild st1].
  inv_bind H. destruct a as [farChild st2].
  inversion H; subst. discriminate.
Qed.

(** Under [EqualCounts], on every tree [Build] returns and for every ray
    on which the box test is conservative, the tree query returns what
    brute force over the reordered primitive list returns, and that list
    is a permutation of the input. *)
Lemma EqualCounts_query_is_bruteForce :
  forall (m_maxGeomsInNode : Z) (fuel : nat) (geoms : list Geometry) (s : SBVH.t)
         (DoesIntersectBBox : BBox -> Ray -> bool) (r : Ray),
    SBVH.Build EqualCounts m_maxGeomsInNode fuel geoms = Ok s ->
    boxTestSoundBelowRoot DoesIntersectBBox (SBVH.m_geoms s) r (SBVH.m_root s) ->
    SBVH.GetIntersection DoesIntersectBBox (SBVH.m_geoms s) r (SBVH.m_root s)
    = Ok (snd (SBVH.bruteForce r (SBVH.m_geoms s)))
    /\ Permutation (SBVH.m_geoms s) geoms.
Proof.
  intros maxG fuel geoms s boxTest r H S.
  destruct (Build_EqualCounts_spans _ _ _ H) as [P C].
  split; [|exact P].
  apply GetIntersection_bruteForce; [| |exact S].
  - unfold SBVH.Build in H. inv_bind H. destruct a as [root st].
    inversion H; subst s. simpl.
    apply BuildRecursive_not_null in E; [exact E | lia].
  - rewrite (Permutation_length P). exact C.
Qed.

(* ================================================================== *)
(** ** The shape of a built tree, whatever the strategy *)
(* ================================================================== *)

Section RangeLengths.
Context {A : Type}.
Implicit Types l : list A.

Lemma slice_length first last l :
  last <= length l -> length (slice first last l) = last - first.
Proof.
  intros H. unfold slice. rewrite length_firstn, length_skipn. lia.
Qed.

Lemma splice_length first last l mid :
  first <= last -> last <= length l -> length mid = last - first ->
  length (splice first last l mid) = length l.
Proof.
  intros H1 H2 H3. unfold splice.
  rewrite !length_app, length_firstn, length_skipn. lia.
Qed.

Lemma splice_same first l : splice first first l [] = l.
Proof. unfold splice. simpl. apply firstn_skipn. Qed.

Lemma upd_length (f : A -> A) l : forall i, length (upd i f l) = length l.
Proof.
  induction l as [|x l IH]; intros [|i]; simpl; auto.
Qed.

Lemma partition_range_length (p : A -> bool) l :
  length (fst (partition_range p l)) = length l
  /\ snd (partition_range p l) <= length l.
Proof.
  unfold partition_range. cbn [fst snd]. rewrite length_app.
  pose proof (filter_length p l). lia.
Qed.
End RangeLengths.

(** An empty range [k, k) at a position of the working vector is split
    at [k] by every strategy: the call never returns. *)
Lemma BuildRecursive_empty_range (m_splitMethod : ESplitMethod)
    (m_maxGeomsInNode : Z) (m_geoms : list Geometry) :
  forall fuel k st res,
    (0 <= k)%Z ->
    SBVH.BuildRecursive m_splitMethod m_maxGeomsInNode m_geoms fuel k k st
    <> Ok res.
Proof.
  induction fuel as [|fuel IH]; intros k st res Hk H; [discriminate|].
  cbn [SBVH.BuildRecursive] in H.
  rewrite Z.ltb_irrefl in H.
  destruct (Z.ltb_spec k 0) as [Hneg|_]; [lia|]. cbn [orb] in H.
  destruct (Z.of_nat (length (geomInfos st)) <? k)%Z; [discriminate|].
  rewrite slice_empty, Z.sub_diag in H.
  cbn -[SBVH.BuildRecursive chooseSplit] in H.
  rewrite chooseSplit_small in H by (right; lia).
  cbn -[SBVH.BuildRecursive splice nth_element] in H.
  replace (Z.quot (k + k) 2) with k in H
    by (replace (k + k)%Z with (k * 2)%Z by lia; rewrite Z.quot_mul; lia).
  inv_bind H. exact (IH _ _ _ Hk E).
Qed.

Section BuildShape.
Variable m_splitMethod : ESplitMethod.
Variable m_maxGeomsInNode : Z.
Variable m_geoms : list Geometry.

Lemma clipLoop_length (bboxAllGeoms bboxCentroids : BBox) (dim : EAxis.t)
    (buckets : list BucketInfo) (bucketSize : flt) :
  forall n bucket i gis sb gis' sb',
    clipLoop m_geoms bboxAllGeoms bboxCentroids dim buckets bucketSize
             n bucket i gis sb = Ok (gis', sb') ->
    length gis <= length gis'.
Proof.
  induction n as [|n IH]; intros bucket i gis sb gis' sb' H; simpl in H.
  - inversion H; subst. lia.
  - inv_bind H. inv_bind H.
    destruct (geom_triangle a0) as [pTri|].
    + inv_bind H. inv_bind H. apply IH in H.
      rewrite length_app in H. simpl in H. lia.
    + inv_bind H. inversion H; subst. rewrite upd_length. lia.
Qed.

Lemma spatialLoop_length (bboxAllGeoms bboxCentroids : BBox) (dim : EAxis.t)
    (buckets : list BucketInfo) (bucketSize : flt) :
  forall n i gis sb gis' sb',
    spatialLoop m_geoms bboxAllGeoms bboxCentroids dim buckets bucketSize
                n i (gis, sb) = Ok (gis', sb') ->
    length gis <= length gis'.
Proof.
  induction n as [|n IH]; intros i gis sb gis' sb' H; simpl in H.
  - inversion H; subst. lia.
  - inv_bind H. destruct a as [gis1 sb1]. apply IH in H.
    enough (length gis <= length gis1) by lia.
    clear H IH. unfold spatialStep in E.
    inv_bind E. inv_bind E. inv_bind E.
    destruct (negb (a0 =? a1)%Z).
    + inv_bind E. destruct a2 as [gis2 sb2].
      inv_bind E. inv_bind E. inversion E; subst.
      apply clipLoop_length in E3. rewrite upd_length in E3. exact E3.
    + inv_bind E. inversion E; subst. lia.
Qed.

Lemma chooseSplit_bounds (gis : list SBVHGeometryInfo) (first last : Z)
    (bboxAllGeoms bboxCentroids : BBox) (dim : EAxis.t) gis' split :
  (0 <= first <= last)%Z -> (last <= Z.of_nat (length gis))%Z ->
  chooseSplit m_splitMethod m_maxGeomsInNode m_geoms gis first last
              bboxAllGeoms bboxCentroids dim = Ok (gis', split) ->
  length gis <= length gis'
  /\ match split with
     | Some mid => (first <= mid <= last)%Z
     | None => True
     end.
Proof.
  intros B L H.
  assert (Equal : forall gs,
            length gis <= length gs ->
            (let '(range', mid) :=
               PartitionEqualCounts dim first last
                 (slice (Z.to_nat first) (Z.to_nat last) gs) in
             Ok (splice (Z.to_nat first) (Z.to_nat last) gs range', Some mid))
            = Ok (gis', split) ->
            length gis <= length gis'
            /\ match split with
               | Some mid => (first <= mid <= last)%Z
               | None => True
               end).
  { intros gs Lg E. unfold PartitionEqualCounts in E. inversion E; subst.
    split.
    - rewrite splice_length; [assumption | lia | lia |].
      rewrite nth_element_length, slice_length; lia.
    - rewrite Z.quot_div_nonneg by lia. split.
      + apply Z.div_le_lower_bound; lia.
      + apply Z.div_le_upper_bound; lia. }
  assert (Part : forall gs b,
            length gis <= length gs ->
            Ok (let '(range', k) :=
                  partition_range (inNearHalf bboxCentroids dim b)
                    (slice (Z.to_nat first) (Z.to_nat last) gs) in
                (splice (Z.to_nat first) (Z.to_nat last) gs range',
                 Some (first + Z.of_nat k)%Z))
            = Ok (gis', split) ->
            length gis <= length gis'
            /\ match split with
               | Some mid => (first <= mid <= last)%Z
               | None => True
               end).
  { intros gs b Lg E.
    pose proof (partition_range_length (inNearHalf bboxCentroids dim b)
                  (slice (Z.to_nat first) (Z.to_nat last) gs)) as [P1 P2].
    destruct (partition_range _ _) as [range' k]. cbn [fst snd] in P1, P2.
    inversion E; subst.
    rewrite slice_length in P1, P2 by lia.
    split.
    - rewrite splice_length; [assumption | lia | lia | exact P1].
    - lia. }
  unfold chooseSplit in H.
  destruct m_splitMethod.
  - apply (Equal gis); [lia | exact H].
  - destruct (last - first <=? 4)%Z; [apply (Equal gis); [lia | exact H]|].
    inv_bind H. destruct (scanMinCost _) as [minCost minCostBucket].
    destruct (splitsNode _ _ _).
    + apply (Part gis minCostBucket); [lia | exact H].
    + inversion H; subst. auto.
  - destruct (last - first <=? 4)%Z; [apply (Equal gis); [lia | exact H]|].
    inv_bind H. destruct a as [gis2 st].
    assert (L2 : length gis <= length gis2).
    { unfold spatialCandidate in E. inv_bind E. inv_bind E.
      destruct a0 as [gis1 sb]. inversion E; subst; clear E.
      apply spatialLoop_length in E1.
      destruct (isSpatialSplit _); [|exact E1].
      rewrite splice_length; [assumption | lia | lia |].
      rewrite removeStraddling_length, slice_length; lia. }
    destruct (splitsNode _ _ _).
    + apply (Part gis2 (minSplitCostBucket st)); [lia | exact H].
    + inversion H; subst. auto.
Qed.

Lemma traverse_lookup_In (range : list SBVHGeometryInfo) (pushed : list Geometry) :
  traverse (lookupGeom m_geoms) range = Ok pushed ->
  Forall (fun g => In g m_geoms) pushed.
Proof.
  intros T. apply traverse_Forall2 in T.
  induction T as [|gi g l l' H _ IH]; constructor; [|exact IH].
  unfold lookupGeom in H.
  destruct (nth_error m_geoms (geometryId gi)) eqn:E; [|discriminate].
  inversion H; subst. eapply nth_error_In; eauto.
Qed.

Let build := SBVH.BuildRecursive m_splitMethod m_maxGeomsInNode m_geoms.

(** What every call on a range [first, last) with [0 <= first <= last]
    leaves when it returns: a node, never null, whose interior nodes
    have two children; [last - first] primitives of the input appended
    to the ordered list, the leaves tiling exactly the appended part,
    none of them empty; and the nodes numbered from the counter on in
    the order of their creation, which is the order in which
    [DestroyRecursive] deletes them. *)
Lemma BuildRecursive_shape :
  forall fuel first last st node st',
    (0 <= first <= last)%Z ->
    build fuel first last st = Ok (node, st') ->
    length (geomInfos st) <= length (geomInfos st')
    /\ exists n pushed,
         node = Some n
         /\ twoChildren n
         /\ orderedGeoms st' = orderedGeoms st ++ pushed
         /\ length pushed = Z.to_nat (last - first)
         /\ Forall (fun g => In g m_geoms) pushed
         /\ contiguous (length (orderedGeoms st)) (leafSpans n)
                       (length (orderedGeoms st'))
         /\ Forall (fun span => 1 <= snd span) (leafSpans n)
         /\ map node_idx (SBVH.DestroyRecursive n)
            = seq (nodeCount st) (length (SBVH.DestroyRecursive n))
         /\ nodeCount st' = nodeCount st + length (SBVH.DestroyRecursive n).
Proof.
  unfold build.
  induction fuel as [|fuel IH]; intros first last st node st' B H;
    [discriminate|].
  destruct (Z.eq_dec first last) as [->|Hne].
  { exfalso. eapply BuildRecursive_empty_range; [|exact H]. lia. }
  cbn [SBVH.BuildRecursive] in H.
  match type of H with
  | (if ?g then _ else _) = _ =>
      assert (G : g = false)
        by (rewrite !orb_false_iff; repeat split; apply Z.ltb_ge; lia);
      rewrite G in H; clear G
  end.
  destruct (Z.ltb_spec (Z.of_nat (length (geomInfos st))) last) as [|L];
    [discriminate|].
  assert (Leaf : forall gis,
             length (geomInfos st) <= length gis ->
             forall box,
             SBVH.makeLeaf m_geoms (slice (Z.to_nat first) (Z.to_nat last) gis)
                           (last - first) box
                           (mkBuildState gis (nodeCount st) (orderedGeoms st))
             = Ok (node, st') ->
             length (geomInfos st) <= length (geomInfos st')
             /\ exists n pushed,
                  node = Some n
                  /\ twoChildren n
                  /\ orderedGeoms st' = orderedGeoms st ++ pushed
                  /\ length pushed = Z.to_nat (last - first)
                  /\ Forall (fun g => In g m_geoms) pushed
                  /\ contiguous (length (orderedGeoms st)) (leafSpans n)
                                (length (orderedGeoms st'))
                  /\ Forall (fun span => 1 <= snd span) (leafSpans n)
                  /\ map node_idx (SBVH.DestroyRecursive n)
                     = seq (nodeCount st) (length (SBVH.DestroyRecursive n))
                  /\ nodeCount st' = nodeCount st + length (SBVH.DestroyRecursive n)).
  { intros gis Lg box HL. apply makeLeaf_Ok in HL.
    destruct HL as [pushed [T [-> ->]]]. cbn [geomInfos orderedGeoms nodeCount].
    split; [exact Lg|]. eexists. exists pushed.
    split; [reflexivity|].
    pose proof (traverse_length _ _ T) as Lp.
    rewrite slice_length in Lp by lia.
    cbn [twoChildren leafSpans SBVH.DestroyRecursive contiguous map node_idx
         length seq snd].
    split; [exact I|]. split; [reflexivity|]. split; [lia|].
    split; [eapply traverse_lookup_In; eauto|].
    split; [split; [reflexivity | rewrite length_app, Lp; lia]|].
    split; [constructor; [simpl; lia | constructor]|].
    split; [reflexivity | lia]. }
  assert (Hst : st = mkBuildState (geomInfos st) (nodeCount st) (orderedGeoms st))
    by (destruct st; reflexivity).
  destruct (last - first =? 1)%Z.
  { rewrite Hst in H at 2. apply (Leaf (geomInfos st)) in H; [exact H | lia]. }
  match type of H with (if ?c then _ else _) = _ => destruct c end.
  { rewrite Hst in H at 2. apply (Leaf (geomInfos st)) in H; [exact H | lia]. }
  inv_bind H. destruct a as [geomInfos' split].
  apply chooseSplit_bounds in E; [|lia|lia]. destruct E as [Lg Hmid].
  destruct split as [mid|].
  2:{ apply (Leaf geomInfos') in H; [exact H | exact Lg]. }
  inv_bind H. destruct a as [nearChild st1].
  inv_bind H. destruct a as [farChild st2].
  inversion H; subst node st'; clear H.
  apply IH in E; [|lia]. apply IH in E0; [|lia].
  cbn [geomInfos orderedGeoms nodeCount] in E.
  destruct E as [L1 [n1 [p1 [-> [T1 [O1 [P1 [I1 [C1 [S1 [D1 N1]]]]]]]]]]].
  destruct E0 as [L2 [n2 [p2 [-> [T2 [O2 [P2 [I2 [C2 [S2 [D2 N2]]]]]]]]]]].
  cbn [geomInfos orderedGeoms nodeCount].
  split; [lia|].
  eexists. exists (p1 ++ p2). split; [reflexivity|].
  unfold new_SBVHNode. cbn [twoChildren leafSpans SBVH.DestroyRecursive].
  repeat split.
  - exact T1.
  - exact T2.
  - rewrite O2, O1, app_assoc. reflexivity.
  - rewrite length_app, P1, P2. lia.
  - apply Forall_app. split; assumption.
  - eapply contiguous_app; eauto.
  - apply Forall_app. split; assumption.
  - rewrite !map_app, D1, D2, !length_app. cbn [map node_idx length].
    rewrite N1, N2, N1, !seq_app. cbn [seq]. reflexivity.
  - rewrite !length_app. cbn [length]. lia.
Qed.

End BuildShape.

(** *** Facts about trees *)

Lemma twoChildren_flat (root : SBVHNode) :
  twoChildren root ->
  forall n, In n (SBVH.FlattenRecursive root) ->
            length (children n) = if IsLeaf n then 0 else 2.
Proof.
  induction root as [i o k b | nearChild farChild i a b IHn IHf]
    using SBVHNode_induction; intros T n Hn.
  - destruct Hn as [<- | []]. reflexivity.
  - cbn [twoChildren] in T. destruct T as [Tn Tf].
    destruct nearChild as [c1|]; [|contradiction].
    destruct farChild as [c2|]; [|contradiction].
    cbn [SBVH.FlattenRecursive] in Hn. destruct Hn as [<- | Hn].
    + reflexivity.
    + apply in_app_or in Hn. destruct Hn as [Hn | Hn]; auto.
Qed.

Lemma Destroy_Flatten_perm (root : SBVHNode) :
  Permutation (SBVH.DestroyRecursive root) (SBVH.FlattenRecursive root).
Proof.
  induction root as [i o k b | nearChild farChild i a b IHn IHf]
    using SBVHNode_induction.
  - reflexivity.
  - cbn [SBVH.DestroyRecursive SBVH.FlattenRecursive].
    rewrite app_assoc. rewrite Permutation_app_comm. cbn [app].
    constructor. apply Permutation_app.
    + destruct nearChild; [exact IHn | reflexivity].
    + destruct farChild; [exact IHf | reflexivity].
Qed.

Lemma twoChildren_count (root : SBVHNode) :
  twoChildren root ->
  S (length (SBVH.FlattenRecursive root)) = 2 * length (leafSpans root).
Proof.
  induction root as [i o k b | nearChild farChild i a b IHn IHf]
    using SBVHNode_induction; intros T.
  - reflexivity.
  - cbn [twoChildren] in T. destruct T as [Tn Tf].
    destruct nearChild as [c1|]; [|contradiction].
    destruct farChild as [c2|]; [|contradiction].
    specialize (IHn Tn). specialize (IHf Tf).
    cbn [SBVH.FlattenRecursive leafSpans length]. rewrite !length_app. lia.
Qed.

Lemma contiguous_sum (spans : list (nat * nat)) :
  forall a b, contiguous a spans b -> a + list_sum (map snd spans) = b.
Proof.
  induction spans as [|[o c] spans IH]; simpl; intros a b H.
  - lia.
  - destruct H as [_ H]. apply IH in H. lia.
Qed.

Lemma nonempty_spans_count (spans : list (nat * nat)) :
  Forall (fun span => 1 <= snd span) spans ->
  length spans <= list_sum (map snd spans).
Proof.
  induction 1 as [|[o c] spans H _ IH]; simpl in *; lia.
Qed.

Lemma numGeomsOf_flat (root : SBVHNode) :
  list_sum (map numGeomsOf (SBVH.FlattenRecursive root))
  = list_sum (map snd (leafSpans root)).
Proof.
  induction root as [i o k b | nearChild farChild i a b IHn IHf]
    using SBVHNode_induction.
  - reflexivity.
  - cbn [SBVH.FlattenRecursive leafSpans map numGeomsOf].
    match goal with
    | |- list_sum (?x :: ?l) = _ => change (list_sum (x :: l)) with (x + list_sum l)
    end.
    rewrite !map_app, !list_sum_app.
    destruct nearChild, farChild; cbn [map];
      try rewrite IHn; try rewrite IHf; change (list_sum []) with 0; lia.
Qed.

(** The root call of [Build], for every strategy. *)
Lemma Build_shape (m_splitMethod : ESplitMethod) (m_maxGeomsInNode : Z)
    (fuel : nat) (geoms : list Geometry) (s : SBVH.t) :
  SBVH.Build m_splitMethod m_maxGeomsInNode fuel geoms = Ok s ->
  exists root,
    SBVH.m_root s = Some root
    /\ SBVH.m_nodes s = SBVH.FlattenRecursive root
    /\ twoChildren root
    /\ length (SBVH.m_geoms s) = length geoms
    /\ Forall (fun g => In g geoms) (SBVH.m_geoms s)
    /\ contiguous 0 (leafSpans root) (length (SBVH.m_geoms s))
    /\ Forall (fun span => 1 <= snd span) (leafSpans root)
    /\ map node_idx (SBVH.DestroyRecursive root)
       = seq 0 (length (SBVH.DestroyRecursive root)).
Proof.
  intros H. unfold SBVH.Build in H. inv_bind H. destruct a as [root st].
  inversion H; subst s; clear H. cbn [SBVH.m_root SBVH.m_geoms SBVH.m_nodes].
  apply BuildRecursive_shape in E; [|lia].
  destruct E as [_ [n [pushed [-> [T [O [P [I [C [S [D N]]]]]]]]]]].
  cbn [orderedGeoms nodeCount app length] in *. subst pushed.
  exists n. rewrite Z.sub_0_r, Nat2Z.id, initGeomInfos_length in P.
  repeat split; assumption.
Qed.

(** X1: in every tree [Build] returns, whatever the strategy, the root is
    not null and every node of the flattened list has no child (a leaf)
    or both children (an interior node): no node has a single child. *)
Theorem Build_binary_shape :
  forall (m_splitMethod : ESplitMethod) (m_maxGeomsInNode : Z) (fuel : nat)
         (geoms : list Geometry) (s : SBVH.t),
    SBVH.Build m_splitMethod m_maxGeomsInNode fuel geoms = Ok s ->
    SBVH.m_root s <> None
    /\ forall n, In n (SBVH.m_nodes s) ->
                 length (children n) = if IsLeaf n then 0 else 2.
Proof.
  intros m maxG fuel geoms s H.
  destruct (Build_shape _ _ _ _ H) as [root [R [F [T _]]]].
  split; [congruence|]. rewrite F. apply twoChildren_flat. exact T.
Qed.


(** X2: whatever the strategy, when [Build] returns, the reordered
    primitive list has as many entries as the input list, each of its
    entries is a primitive of the input, the spans of the leaves follow
    one another from 0 to the length of the list without gap or overlap,
    and no leaf is empty. *)
Theorem Build_leaves_tile_reordered_list :
  forall (m_splitMethod : ESplitMethod) (m_maxGeomsInNode : Z) (fuel : nat)
         (geoms : list Geometry) (s : SBVH.t),
    SBVH.Build m_splitMethod m_maxGeomsInNode fuel geoms = Ok s ->
    length (SBVH.m_geoms s) = length geoms
    /\ Forall (fun g => In g geoms) (SBVH.m_geoms s)
    /\ contiguous 0 (rootSpans (SBVH.m_root s)) (length (SBVH.m_geoms s))
    /\ Forall (fun span => 1 <= snd span) (rootSpans (SBVH.m_root s)).
Proof.
  intros m maxG fuel geoms s H.
  destruct (Build_shape _ _ _ _ H) as [root [R [F [T [L [I [C [Sp D]]]]]]]].
  rewrite R. cbn [rootSpans]. auto.
Qed.


Lemma DestroyRecursive_last (n : SBVHNode) :
  exists l, SBVH.DestroyRecursive n = l ++ [n].
Proof.
  destruct n as [i o k b | nearChild farChild i a b].
  - exists []. reflexivity.
  - cbn [SBVH.DestroyRecursive]. rewrite app_assoc. eexists. reflexivity.
Qed.

(** X3: in every tree [Build] returns, the build indices of the nodes of
    the flattened list are the numbers 0 .. n-1, each taken once (n the
    number of nodes), and the root carries the last of them. *)
Theorem Build_indices_dense :
  forall (m_splitMethod : ESplitMethod) (m_maxGeomsInNode : Z) (fuel : nat)
         (geoms : list Geometry) (s : SBVH.t),
    SBVH.Build m_splitMethod m_maxGeomsInNode fuel geoms = Ok s ->
    Permutation (map node_idx (SBVH.m_nodes s)) (seq 0 (length (SBVH.m_nodes s)))
    /\ NoDup (map node_idx (SBVH.m_nodes s))
    /\ forall root, SBVH.m_root s = Some root ->
                    S (node_idx root) = length (SBVH.m_nodes s).
Proof.
  intros m maxG fuel geoms s H.
  destruct (Build_shape _ _ _ _ H) as [root [R [F [T [L [I [C [Sp D]]]]]]]].
  pose proof (Destroy_Flatten_perm root) as P.
  assert (Hlen : length (SBVH.DestroyRecursive root)
                 = length (SBVH.FlattenRecursive root))
    by (apply Permutation_length; exact P).
  assert (Pidx : Permutation (map node_idx (SBVH.m_nodes s))
                             (seq 0 (length (SBVH.m_nodes s)))).
  { rewrite F, <- Hlen, <- D. apply Permutation_map. symmetry. exact P. }
  split; [exact Pidx|]. split.
  - eapply Permutation_NoDup; [symmetry; exact Pidx | apply seq_NoDup].
  - intros root' R'. rewrite R in R'. inversion R'; subst root'.
    rewrite F, <- Hlen.
    destruct (DestroyRecursive_last root) as [l El].
    rewrite El in D. rewrite El. rewrite map_app, length_app in D.
    cbn [map length] in D. rewrite seq_app in D. cbn [seq] in D.
    apply app_inj_tail in D. destruct D as [_ D].
    rewrite length_app. cbn [length]. lia.
Qed.


(** X4: on a tree [Build] returned, [Destroy] deletes every node of the
    flattened list exactly once, in the order of the build indices
    0, 1, 2, ...: the order in which the build created them. *)
Theorem Destroy_deletes_in_creation_order :
  forall (m_splitMethod : ESplitMethod) (m_maxGeomsInNode : Z) (fuel : nat)
         (geoms : list Geometry) (s : SBVH.t),
    SBVH.Build m_splitMethod m_maxGeomsInNode fuel geoms = Ok s ->
    map node_idx (SBVH.Destroy (SBVH.m_root s)) = seq 0 (length (SBVH.m_nodes s))
    /\ Permutation (SBVH.Destroy (SBVH.m_root s)) (SBVH.m_nodes s)
    /\ NoDup (SBVH.Destroy (SBVH.m_root s)).
Proof.
  intros m maxG fuel geoms s H.
  destruct (Build_shape _ _ _ _ H) as [root [R [F [T [L [I [C [Sp D]]]]]]]].
  rewrite R, F. cbn [SBVH.Destroy].
  pose proof (Destroy_Flatten_perm root) as P.
  rewrite <- (Permutation_length P).
  split; [exact D|]. split; [exact P|].
  apply (NoDup_map_inv node_idx). rewrite D. apply seq_NoDup.
Qed.


(** X5: a tree [Build] returns has 2 L - 1 nodes for its L leaves, and at
    most one leaf per input primitive: the flattened list holds at most
    2 N - 1 records for N primitives. *)
Theorem Build_node_count :
  forall (m_splitMethod : ESplitMethod) (m_maxGeomsInNode : Z) (fuel : nat)
         (geoms : list Geometry) (s : SBVH.t),
    SBVH.Build m_splitMethod m_maxGeomsInNode fuel geoms = Ok s ->
    S (length (SBVH.m_nodes s)) = 2 * length (rootSpans (SBVH.m_root s))
    /\ length (rootSpans (SBVH.m_root s)) <= length geoms
    /\ S (length (SBVH.m_nodes s)) <= 2 * length geoms.
Proof.
  intros m maxG fuel geoms s H.
  destruct (Build_shape _ _ _ _ H) as [root [R [F [T [L [I [C [Sp D]]]]]]]].
  rewrite R, F. cbn [rootSpans].
  pose proof (@twoChildren_count _ T) as N.
  pose proof (@contiguous_sum _ _ _ C) as Sum.
  pose proof (@nonempty_spans_count _ Sp) as Cnt.
  lia.
Qed.


(** X6: whatever the strategy, the primitive counts of the leaf records of
    the flattened list add up to the number of input primitives. *)
Theorem Flatten_leaf_counts_sum :
  forall (m_splitMethod : ESplitMethod) (m_maxGeomsInNode : Z) (fuel : nat)
         (geoms : list Geometry) (s : SBVH.t),
    SBVH.Build m_splitMethod m_maxGeomsInNode fuel geoms = Ok s ->
    list_sum (map numGeomsOf (SBVH.m_nodes s)) = length geoms.
Proof.
  intros m maxG fuel geoms s H.
  destruct (Build_shape _ _ _ _ H) as [root [R [F [T [L [I [C [Sp D]]]]]]]].
  rewrite F, numGeomsOf_flat.
  pose proof (@contiguous_sum _ _ _ C) as Sum. lia.
Qed.


(* ================================================================== *)
(** ** The two queries on any tree whose leaves stay inside the list *)
(* ================================================================== *)

Lemma contiguous_within (spans : list (nat * nat)) :
  forall a b len, contiguous a spans b -> b <= len -> spansWithin len spans.
Proof.
  induction spans as [|[o c] spans IH]; simpl; intros a b len H L.
  - constructor.
  - destruct H as [-> H]. pose proof (@contiguous_le _ _ _ H) as Lb.
    constructor; [simpl; lia | eapply IH; eauto].
Qed.

Section QueryCandidates.
Variable DoesIntersectBBox : BBox -> Ray -> bool.
Variable m_geoms : list Geometry.
Variable r : Ray.

Lemma leafAny_existsb (firstGeomOffset : nat) :
  forall n i,
    firstGeomOffset + i + n <= length m_geoms ->
    SBVH.leafAny m_geoms r firstGeomOffset n i
    = Ok (existsb (hitAhead r)
                  (slice (firstGeomOffset + i) (firstGeomOffset + i + n) m_geoms)).
Proof.
  induction n as [|n IH]; intros i H; cbn [SBVH.leafAny].
  - rewrite Nat.add_0_r, slice_empty. reflexivity.
  - destruct (nth_error m_geoms (firstGeomOffset + i)) as [g|] eqn:E.
    2:{ apply nth_error_None in E. lia. }
    cbn [of_option bind].
    rewrite (@slice_cons _ _ (firstGeomOffset + i + S n) _ _ E) by lia.
    cbn [existsb]. unfold hitAhead at 1.
    destruct (isx_t (geom_GetIntersection g r) >? zero)%flt; [reflexivity|].
    rewrite IH by lia. cbn [orb].
    replace (firstGeomOffset + S i) with (S (firstGeomOffset + i)) by lia.
    replace (S (firstGeomOffset + i) + n) with (firstGeomOffset + i + S n) by lia.
    reflexivity.
Qed.

Lemma GetIntersectionRecursive_candidates (node : SBVHNode) :
  forall nearest,
    spansWithin (length m_geoms) (leafSpans node) ->
    SBVH.GetIntersectionRecursive DoesIntersectBBox m_geoms r node nearest
    = Ok (fold_left (nearestStep r)
                    (candidatesBelow DoesIntersectBBox m_geoms r node) nearest).
Proof.
  induction node as [idx o c box | nearChild farChild idx axis box IHn IHf]
    using SBVHNode_induction; intros nearest W.
  - inversion W as [|? ? Hw _]; subst. simpl in Hw.
    cbn [SBVH.GetIntersectionRecursive candidatesBelow].
    rewrite (@leafNearest_fold m_geoms r o c 0 nearest) by lia.
    rewrite Nat.add_0_r. reflexivity.
  - cbn [SBVH.GetIntersectionRecursive candidatesBelow].
    destruct (DoesIntersectBBox box r); [|reflexivity].
    cbn [leafSpans] in W. apply Forall_app in W. destruct W as [Wn Wf].
    rewrite fold_left_app.
    destruct nearChild as [n1|].
    + rewrite (IHn nearest Wn). cbn [bind].
      destruct farChild as [n2|]; [apply IHf; exact Wf | reflexivity].
    + cbn [bind fold_left].
      destruct farChild as [n2|]; [apply IHf; exact Wf | reflexivity].
Qed.

Lemma DoesIntersectRecursive_candidates (node : SBVHNode) :
  spansWithin (length m_geoms) (leafSpans node) ->
  SBVH.DoesIntersectRecursive DoesIntersectBBox m_geoms r node
  = Ok (existsb (hitAhead r) (candidatesBelow DoesIntersectBBox m_geoms r node)).
Proof.
  induction node as [idx o c box | nearChild farChild idx axis box IHn IHf]
    using SBVHNode_induction; intros W.
  - inversion W as [|? ? Hw _]; subst. simpl in Hw.
    cbn [SBVH.DoesIntersectRecursive candidatesBelow].
    rewrite (@leafAny_existsb o c 0) by lia.
    rewrite Nat.add_0_r. reflexivity.
  - cbn [SBVH.DoesIntersectRecursive candidatesBelow].
    destruct (DoesIntersectBBox box r); [|reflexivity].
    cbn [leafSpans] in W. apply Forall_app in W. destruct W as [Wn Wf].
    rewrite existsb_app.
    destruct nearChild as [n1|].
    + rewrite (IHn Wn). cbn [bind].
      destruct (existsb _ _); [reflexivity|]. cbn [orb].
      destruct farChild as [n2|]; [apply IHf; exact Wf | reflexivity].
    + cbn [bind existsb orb].
      destruct farChild as [n2|]; [apply IHf; exact Wf | reflexivity].
Qed.

(** Both queries, from the root. *)
Lemma queries_candidates (root : SBVHNode) :
  spansWithin (length m_geoms) (leafSpans root) ->
  SBVH.GetIntersection DoesIntersectBBox m_geoms r (Some root)
  = Ok (snd (SBVH.bruteForce r (candidates DoesIntersectBBox m_geoms r (Some root))))
  /\ SBVH.DoesIntersect DoesIntersectBBox m_geoms r (Some root)
     = Ok (existsb (hitAhead r) (candidates DoesIntersectBBox m_geoms r (Some root))).
Proof.
  intros W. rewrite bruteForce_fold.
  destruct root as [idx o c box | nearChild farChild idx axis box].
  - inversion W as [|? ? Hw _]; subst. simpl in Hw.
    cbn [SBVH.GetIntersection SBVH.DoesIntersect candidates].
    rewrite (@leafNearest_fold m_geoms r o c 0) by lia.
    rewrite (@leafAny_existsb o c 0) by lia.
    rewrite Nat.add_0_r. split; reflexivity.
  - cbn [leafSpans] in W. apply Forall_app in W. destruct W as [Wn Wf].
    cbn [SBVH.GetIntersection SBVH.DoesIntersect candidates].
    rewrite fold_left_app, existsb_app.
    destruct nearChild as [n1|], farChild as [n2|];
      cbn [SBVH.visitNearest SBVH.visitAny];
      rewrite ?(GetIntersectionRecursive_candidates _ _ Wn),
              ?(DoesIntersectRecursive_candidates _ Wn);
      cbn [bind fold_left existsb orb];
      rewrite ?(GetIntersectionRecursive_candidates _ _ Wf),
              ?(DoesIntersectRecursive_candidates _ Wf);
      cbn [bind];
      try (destruct (existsb (hitAhead r) (candidatesBelow _ _ _ n1)); cbn [orb]);
      rewrite ?(DoesIntersectRecursive_candidates _ Wf);
      split; reflexivity.
Qed.

End QueryCandidates.

Lemma slice_In {A : Type} (first last : nat) (l : list A) (x : A) :
  In x (slice first last l) -> In x l.
Proof.
  unfold slice. intros H.
  rewrite <- (firstn_skipn first l). apply in_or_app. right.
  rewrite <- (firstn_skipn (last - first) (skipn first l)).
  apply in_or_app. left. exact H.
Qed.

Lemma candidatesBelow_In (DoesIntersectBBox : BBox -> Ray -> bool)
    (m_geoms : list Geometry) (r : Ray) (node : SBVHNode) :
  forall g, In g (candidatesBelow DoesIntersectBBox m_geoms r node) -> In g m_geoms.
Proof.
  induction node as [idx o c box | nearChild farChild idx axis box IHn IHf]
    using SBVHNode_induction; intros g H; cbn [candidatesBelow] in H.
  - eapply slice_In; eauto.
  - destruct (DoesIntersectBBox box r); [|destruct H].
    apply in_app_or in H. destruct H as [H|H].
    + destruct nearChild; [auto | destruct H].
    + destruct farChild; [auto | destruct H].
Qed.

Lemma candidates_In (DoesIntersectBBox : BBox -> Ray -> bool)
    (m_geoms : list Geometry) (r : Ray) (root : option SBVHNode) :
  forall g, In g (candidates DoesIntersectBBox m_geoms r root) -> In g m_geoms.
Proof.
  intros g H. destruct root as [[idx o c box | nearChild farChild idx axis box]|];
    cbn [candidates] in H.
  - eapply slice_In; eauto.
  - apply in_app_or in H. destruct H as [H|H].
    + destruct nearChild; [eapply candidatesBelow_In; eauto | destruct H].
    + destruct farChild; [eapply candidatesBelow_In; eauto | destruct H].
  - destruct H.
Qed.

(** *** The loop that keeps the nearest hit *)

Lemma ltb_irrefl (a : flt) : (a <? a)%flt = false.
Proof.
  destruct a as [|s|q]; simpl; [reflexivity|destruct s; reflexivity|].
  unfold Qltb. assert (L : Qle_bool q q = true) by (apply Qle_bool_iff, Qle_refl).
  rewrite L. reflexivity.
Qed.

Lemma Qltb_lt (p q : Q) : Qltb p q = true <-> (p < q)%Q.
Proof.
  unfold Qltb. rewrite negb_true_iff. split; intros H.
  - apply Qnot_le_lt. intros C. apply Qle_bool_iff in C. congruence.
  - destruct (Qle_bool q p) eqn:E; [|reflexivity].
    apply Qle_bool_iff in E. exfalso. eapply Qlt_not_le; eauto.
Qed.

Lemma ltb_trans (a b c : flt) :
  (a <? b)%flt = true -> (b <? c)%flt = true -> (a <? c)%flt = true.
Proof.
  destruct a as [|sa|p], b as [|sb|q], c as [|sc|x]; simpl; try discriminate;
    try (destruct sa); try (destruct sb); try (destruct sc); simpl;
    try discriminate; try reflexivity.
  rewrite !Qltb_lt. apply Qlt_trans.
Qed.

Section NearestLoop.
Variable r : Ray.

Let t (g : Geometry) : flt := isx_t (geom_GetIntersection g r).

(** The distance kept never grows. *)
Lemma nearest_fold_le (l : list Geometry) :
  forall nearest x,
    (x <? fst (fold_left (nearestStep r) l nearest))%flt = true ->
    (x <? fst nearest)%flt = true.
Proof.
  induction l as [|g l IH]; intros nearest x H; cbn [fold_left] in H;
    [exact H|].
  apply IH in H. unfold nearestStep in H.
  destruct ((isx_t (geom_GetIntersection g r) >? zero)%flt
            && (isx_t (geom_GetIntersection g r) <? fst nearest)%flt) eqn:E;
    [|exact H].
  apply andb_true_iff in E. destruct E as [_ E]. cbn [fst] in H.
  eapply ltb_trans; eauto.
Qed.

(** No primitive of the list that the ray meets ahead is nearer than
    the distance kept. *)
Lemma nearest_fold_min (l : list Geometry) :
  forall nearest g,
    In g l -> hitAhead r g = true ->
    (t g <? fst (fold_left (nearestStep r) l nearest))%flt = false.
Proof.
  induction l as [|h l IH]; intros nearest g Hin Hg; [destruct Hin|].
  cbn [fold_left]. destruct Hin as [->|Hin]; [|apply IH; assumption].
  destruct (t g <? fst (fold_left (nearestStep r) l (nearestStep r nearest g)))%flt
    eqn:C; [|reflexivity].
  apply nearest_fold_le in C. unfold nearestStep in C.
  unfold hitAhead in Hg. fold (t g) in C, Hg. rewrite Hg in C. cbn [andb] in C.
  destruct (t g <? fst nearest)%flt eqn:E.
  - cbn [fst] in C. rewrite ltb_irrefl in C. discriminate.
  - congruence.
Qed.

(** What the loop keeps is what it started from, when no primitive is
    met ahead and nearer than the start, or the intersection with a
    primitive of the list met ahead, and nearer than the start. *)
Lemma nearest_fold_cases (l : list Geometry) :
  forall nearest,
    (fold_left (nearestStep r) l nearest = nearest
     /\ Forall (fun g => hitAhead r g && (t g <? fst nearest)%flt = false) l)
    \/ (exists g, In g l
                  /\ fold_left (nearestStep r) l nearest
                     = (t g, geom_GetIntersection g r)
                  /\ hitAhead r g = true
                  /\ (t g <? fst nearest)%flt = true).
Proof.
  induction l as [|h l IH]; intros nearest; cbn [fold_left].
  - left. split; [reflexivity | constructor].
  - assert (Hs : nearestStep r nearest h
                 = if hitAhead r h && (t h <? fst nearest)%flt
                   then (t h, geom_GetIntersection h r) else nearest)
      by reflexivity.
    rewrite Hs. clear Hs.
    destruct (hitAhead r h && (t h <? fst nearest)%flt) eqn:E.
    + right. apply andb_true_iff in E. destruct E as [E1 E2].
      destruct (IH (t h, geom_GetIntersection h r)) as [[F _] | [g [Hin [F [Hg Hlt]]]]].
      * exists h. split; [left; reflexivity|]. auto.
      * exists g. split; [right; exact Hin|]. split; [exact F|].
        split; [exact Hg|]. cbn [fst] in Hlt. eapply ltb_trans; eauto.
    + destruct (IH nearest) as [[F A] | [g [Hin [F [Hg Hlt]]]]].
      * left. split; [exact F|]. constructor; [exact E | exact A].
      * right. exists g. split; [right; exact Hin|]. auto.
Qed.

End NearestLoop.

(** *** The queries on a built tree *)

Lemma Build_spansWithin (m_splitMethod : ESplitMethod) (m_maxGeomsInNode : Z)
    (fuel : nat) (geoms : list Geometry) (s : SBVH.t) :
  SBVH.Build m_splitMethod m_maxGeomsInNode fuel geoms = Ok s ->
  exists root,
    SBVH.m_root s = Some root
    /\ spansWithin (length (SBVH.m_geoms s)) (leafSpans root)
    /\ contiguous 0 (leafSpans root) (length (SBVH.m_geoms s))
    /\ forall g, In g (SBVH.m_geoms s) -> In g geoms.
Proof.
  intros H.
  destruct (Build_shape _ _ _ _ H) as [root [R [F [T [L [I [C [Sp D]]]]]]]].
  exists root. split; [exact R|]. split.
  - eapply contiguous_within; [exact C | lia].
  - split; [exact C|]. apply Forall_forall. exact I.
Qed.

(** X7: on a tree [Build] returned, whatever the strategy, the box test
    and the ray, neither query reads outside the primitive list:
    [GetIntersection] returns what the nearest-hit loop over the
    candidates returns (the primitives of the leaves the descent
    reaches, in order), [DoesIntersect] whether one of the candidates is
    met ahead; every candidate is an input primitive. *)
Theorem Build_queries_test_candidates :
  forall (m_splitMethod : ESplitMethod) (m_maxGeomsInNode : Z) (fuel : nat)
         (geoms : list Geometry) (s : SBVH.t),
    SBVH.Build m_splitMethod m_maxGeomsInNode fuel geoms = Ok s ->
    forall (DoesIntersectBBox : BBox -> Ray -> bool) (r : Ray),
      let tested := candidates DoesIntersectBBox (SBVH.m_geoms s) r (SBVH.m_root s) in
      SBVH.GetIntersection DoesIntersectBBox (SBVH.m_geoms s) r (SBVH.m_root s)
      = Ok (snd (SBVH.bruteForce r tested))
      /\ SBVH.DoesIntersect DoesIntersectBBox (SBVH.m_geoms s) r (SBVH.m_root s)
         = Ok (existsb (hitAhead r) tested)
      /\ forall g, In g tested -> In g geoms.
Proof.
  intros m maxG fuel geoms s H boxTest r tested.
  destruct (Build_spansWithin _ _ _ _ H) as [root [R [W [_ I]]]].
  subst tested. rewrite R.
  destruct (@queries_candidates boxTest _ r _ W) as [Q1 Q2].
  split; [exact Q1|]. split; [exact Q2|].
  intros g Hg. apply I. eapply candidates_In; eauto.
Qed.


Lemma existsb_false_noneHit (r : Ray) (l : list Geometry) :
  existsb (hitAhead r) l = false -> noneHit r l.
Proof.
  intros H. apply Forall_forall. intros g Hg.
  destruct (isx_t (geom_GetIntersection g r) >? zero)%flt eqn:E; [|reflexivity].
  assert (C : existsb (hitAhead r) l = true)
    by (apply existsb_exists; exists g; auto).
  congruence.
Qed.

Lemma hitAhead_finite (r : Ray) (g : Geometry) :
  hitAhead r g = true -> isx_t (geom_GetIntersection g r) <> INFINITY ->
  (isx_t (geom_GetIntersection g r) <? INFINITY)%flt = true.
Proof.
  unfold hitAhead, INFINITY.
  destruct (isx_t (geom_GetIntersection g r)) as [|[|]|q]; simpl; intros H N;
    congruence.
Qed.

(** X8: the two queries agree on a tree [Build] returned.  [DoesIntersect]
    answers true or false; when it answers false, [GetIntersection]
    returns the default record; when it answers true and no input
    primitive reports an infinite distance for the ray,
    [GetIntersection] returns the intersection with an input primitive
    met ahead. *)
Theorem Build_queries_agree :
  forall (m_splitMethod : ESplitMethod) (m_maxGeomsInNode : Z) (fuel : nat)
         (geoms : list Geometry) (s : SBVH.t),
    SBVH.Build m_splitMethod m_maxGeomsInNode fuel geoms = Ok s ->
    forall (DoesIntersectBBox : BBox -> Ray -> bool) (r : Ray),
      let nearest :=
        SBVH.GetIntersection DoesIntersectBBox (SBVH.m_geoms s) r (SBVH.m_root s) in
      let any :=
        SBVH.DoesIntersect DoesIntersectBBox (SBVH.m_geoms s) r (SBVH.m_root s) in
      (any = Ok false \/ any = Ok true)
      /\ (any = Ok false -> nearest = Ok Intersection_default)
      /\ (any = Ok true ->
          (forall g, In g geoms -> isx_t (geom_GetIntersection g r) <> INFINITY) ->
          exists g, In g geoms /\ hitAhead r g = true
                    /\ nearest = Ok (geom_GetIntersection g r)).
Proof.
  intros m maxG fuel geoms s H boxTest r nearest any.
  destruct (Build_spansWithin _ _ _ _ H) as [root [R [W [_ I]]]].
  subst nearest any. rewrite R.
  destruct (@queries_candidates boxTest _ r _ W) as [Q1 Q2].
  rewrite Q1, Q2. rewrite bruteForce_fold.
  set (tested := candidates boxTest (SBVH.m_geoms s) r (Some root)).
  assert (It : forall g, In g tested -> In g geoms)
    by (intros g Hg; apply I; eapply candidates_In; eauto).
  clearbody tested.
  split; [destruct (existsb (hitAhead r) tested); auto|]. split.
  - intros E. injection E as E'. apply existsb_false_noneHit in E'.
    rewrite (@noneHit_fold _ _ E'). reflexivity.
  - intros E Hfin. injection E as E'. apply existsb_exists in E'.
    destruct E' as [g0 [Hin0 Hg0]].
    destruct (@nearest_fold_cases r tested (INFINITY, Intersection_default))
      as [[_ A] | [g [Hin [F [Hg _]]]]].
    + rewrite Forall_forall in A. specialize (A g0 Hin0). cbn [fst] in A.
      rewrite Hg0, (@hitAhead_finite _ _ Hg0 (Hfin g0 (It g0 Hin0))) in A.
      discriminate.
    + exists g. split; [auto|]. split; [exact Hg|]. rewrite F. reflexivity.
Qed.


(* ================================================================== *)
(** ** What the queries never report, on any tree *)
(* ================================================================== *)

Section RealHits.
Variable DoesIntersectBBox : BBox -> Ray -> bool.
Variable m_geoms : list Geometry.
Variable r : Ray.

(** The pair kept by the nearest-hit loops is the initial one, or the
    intersection with a primitive of the list that the ray meets ahead. *)
Let kept (nearest : flt * Intersection) : Prop :=
  nearest = (INFINITY, Intersection_default)
  \/ exists g, In g m_geoms
               /\ nearest = (isx_t (geom_GetIntersection g r), geom_GetIntersection g r)
               /\ hitAhead r g = true.

Lemma leafNearest_kept (firstGeomOffset : nat) :
  forall n i nearest res,
    kept nearest ->
    SBVH.leafNearest m_geoms r firstGeomOffset n i nearest = Ok res ->
    kept res.
Proof.
  induction n as [|n IH]; intros i nearest res K H; cbn [SBVH.leafNearest] in H.
  - inversion H; subst. exact K.
  - inv_bind H. apply IH in H; [exact H|].
    destruct (nth_error m_geoms (firstGeomOffset + i)) as [g|] eqn:E';
      [|discriminate].
    inversion E; subst a.
    destruct ((isx_t (geom_GetIntersection g r) >? zero)%flt
              && (isx_t (geom_GetIntersection g r) <? fst nearest)%flt) eqn:C;
      [|exact K].
    right. exists g. apply andb_true_iff in C.
    split; [eapply nth_error_In; eauto|]. split; [reflexivity | apply C].
Qed.

Lemma GetIntersectionRecursive_kept (node : SBVHNode) :
  forall nearest res,
    kept nearest ->
    SBVH.GetIntersectionRecursive DoesIntersectBBox m_geoms r node nearest = Ok res ->
    kept res.
Proof.
  induction node as [idx o c box | nearChild farChild idx axis box IHn IHf]
    using SBVHNode_induction; intros nearest res K H;
    cbn [SBVH.GetIntersectionRecursive] in H.
  - eapply leafNearest_kept; eauto.
  - destruct (DoesIntersectBBox box r); [|inversion H; subst; exact K].
    inv_bind H.
    assert (Ka : kept a).
    { destruct nearChild; [eapply IHn; eauto | inversion E; subst; exact K]. }
    destruct farChild; [eapply IHf; eauto | inversion H; subst; exact Ka].
Qed.

Lemma leafAny_hit (firstGeomOffset : nat) :
  forall n i,
    SBVH.leafAny m_geoms r firstGeomOffset n i = Ok true ->
    exists g, In g m_geoms /\ hitAhead r g = true.
Proof.
  induction n as [|n IH]; intros i H; cbn [SBVH.leafAny] in H; [discriminate|].
  inv_bind H.
  destruct (nth_error m_geoms (firstGeomOffset + i)) as [g|] eqn:E';
    [|discriminate].
  inversion E; subst a.
  destruct (isx_t (geom_GetIntersection g r) >? zero)%flt eqn:C.
  - exists g. split; [eapply nth_error_In; eauto | exact C].
  - eapply IH; eauto.
Qed.

Lemma DoesIntersectRecursive_hit (node : SBVHNode) :
  SBVH.DoesIntersectRecursive DoesIntersectBBox m_geoms r node = Ok true ->
  exists g, In g m_geoms /\ hitAhead r g = true.
Proof.
  induction node as [idx o c box | nearChild farChild idx axis box IHn IHf]
    using SBVHNode_induction; intros H;
    cbn [SBVH.DoesIntersectRecursive] in H.
  - eapply leafAny_hit; eauto.
  - destruct (DoesIntersectBBox box r); [|discriminate].
    inv_bind H. destruct a.
    + destruct nearChild; [auto | discriminate].
    + destruct farChild; [auto | discriminate].
Qed.

Lemma queries_real_hits (root : option SBVHNode) :
  (forall isx,
      SBVH.GetIntersection DoesIntersectBBox m_geoms r root = Ok isx ->
      isx = Intersection_default
      \/ exists g, In g m_geoms /\ isx = geom_GetIntersection g r
                   /\ hitAhead r g = true)
  /\ (SBVH.DoesIntersect DoesIntersectBBox m_geoms r root = Ok true ->
      exists g, In g m_geoms /\ hitAhead r g = true).
Proof.
  assert (K0 : kept (INFINITY, Intersection_default)) by (left; reflexivity).
  assert (Fin : forall res, kept res ->
             snd res = Intersection_default
             \/ exists g, In g m_geoms /\ snd res = geom_GetIntersection g r
                          /\ hitAhead r g = true).
  { intros res [-> | [g [Hin [-> Hg]]]]; [left; reflexivity|].
    right. exists g. auto. }
  split.
  - intros isx H.
    destruct root as [[idx o c box | nearChild farChild idx axis box]|];
      cbn [SBVH.GetIntersection] in H; [| |discriminate].
    + inv_bind H. inversion H; subst isx. apply Fin.
      eapply leafNearest_kept; eauto.
    + inv_bind H. inv_bind H. inversion H; subst isx. apply Fin.
      assert (Ka : kept a).
      { destruct nearChild; cbn [SBVH.visitNearest] in E;
          [eapply GetIntersectionRecursive_kept; eauto | inversion E; subst; exact K0]. }
      destruct farChild; cbn [SBVH.visitNearest] in E0;
        [eapply GetIntersectionRecursive_kept; eauto | inversion E0; subst; exact Ka].
  - intros H.
    destruct root as [[idx o c box | nearChild farChild idx axis box]|];
      cbn [SBVH.DoesIntersect] in H; [| |discriminate].
    + eapply leafAny_hit; eauto.
    + inv_bind H. destruct a.
      * destruct nearChild; cbn [SBVH.visitAny] in E;
          [eapply DoesIntersectRecursive_hit; eauto | discriminate].
      * destruct farChild; cbn [SBVH.visitAny] in H;
          [eapply DoesIntersectRecursive_hit; eauto | discriminate].
Qed.

End RealHits.

(** X9: on any tree and any primitive list, a record [GetIntersection]
    returns is the default record or the intersection with a primitive
    of the list at a distance [t > 0]; [DoesIntersect] answers true only
    if some primitive of the list is met at [t > 0]. *)
Theorem queries_report_only_real_hits :
  forall (DoesIntersectBBox : BBox -> Ray -> bool) (m_geoms : list Geometry)
         (r : Ray) (root : option SBVHNode),
    (forall isx,
        SBVH.GetIntersection DoesIntersectBBox m_geoms r root = Ok isx ->
        isx = Intersection_default
        \/ exists g, In g m_geoms /\ isx = geom_GetIntersection g r
                     /\ (isx_t isx >? zero)%flt = true)
    /\ (SBVH.DoesIntersect DoesIntersectBBox m_geoms r root = Ok true ->
        exists g, In g m_geoms
                  /\ (isx_t (geom_GetIntersection g r) >? zero)%flt = true).
Proof.
  intros boxTest geoms r root.
  destruct (queries_real_hits boxTest geoms r root) as [Q1 Q2].
  split; [|exact Q2].
  intros isx H. destruct (Q1 isx H) as [-> | [g [Hin [-> Hg]]]];
    [left; reflexivity|].
  right. exists g. auto.
Qed.


(* ================================================================== *)
(** ** A conservative box test: the queries against the whole list *)
(* ================================================================== *)

Section SoundBoxTest.
Variable DoesIntersectBBox : BBox -> Ray -> bool.
Variable m_geoms : list Geometry.
Variable r : Ray.

Lemma noneHit_existsb (l : list Geometry) :
  noneHit r l -> existsb (hitAhead r) l = false.
Proof.
  induction 1 as [|g l Hg _ IH]; [reflexivity|].
  cbn [existsb]. unfold hitAhead at 1. rewrite Hg, IH. reflexivity.
Qed.

Lemma candidatesBelow_sound (node : SBVHNode) :
  forall a b,
    contiguous a (leafSpans node) b ->
    boxTestSound DoesIntersectBBox m_geoms r node ->
    existsb (hitAhead r) (candidatesBelow DoesIntersectBBox m_geoms r node)
    = existsb (hitAhead r) (slice a b m_geoms).
Proof.
  induction node as [idx o c box | nearChild farChild idx axis box IHn IHf]
    using SBVHNode_induction; intros a b C S.
  - simpl in C. destruct C as [-> C]. subst b. reflexivity.
  - cbn [candidatesBelow]. cbn [boxTestSound] in S. destruct S as [Sbox [Sn Sf]].
    destruct (DoesIntersectBBox box r) eqn:T.
    + cbn [leafSpans] in C. apply contiguous_app_inv in C.
      destruct C as [m [Cn Cf]].
      pose proof (@contiguous_le _ _ _ Cn) as Ln.
      pose proof (@contiguous_le _ _ _ Cf) as Lf.
      rewrite (@slice_split _ a m b) by assumption.
      rewrite !existsb_app. f_equal.
      * destruct nearChild as [n1|]; [apply IHn; assumption|].
        simpl in Cn. subst m. rewrite slice_empty. reflexivity.
      * destruct farChild as [n2|]; [apply IHf; assumption|].
        simpl in Cf. subst m. rewrite slice_empty. reflexivity.
    + specialize (Sbox eq_refl). unfold subtreeGeoms in Sbox.
      cbn [rootSpans] in Sbox.
      rewrite (@geomsOfSpans_contiguous m_geoms _ _ _ C) in Sbox.
      rewrite (noneHit_existsb Sbox). reflexivity.
Qed.

Lemma candidates_sound (root : SBVHNode) :
  contiguous 0 (leafSpans root) (length m_geoms) ->
  boxTestSoundBelowRoot DoesIntersectBBox m_geoms r (Some root) ->
  existsb (hitAhead r) (candidates DoesIntersectBBox m_geoms r (Some root))
  = existsb (hitAhead r) m_geoms.
Proof.
  intros C S.
  destruct root as [idx o c box | nearChild farChild idx axis box];
    cbn [candidates].
  - simpl in C. destruct C as [-> C]. cbn [Nat.add] in *. rewrite C, slice_all.
    reflexivity.
  - cbn [boxTestSoundBelowRoot] in S. destruct S as [Sn Sf].
    cbn [leafSpans] in C. apply contiguous_app_inv in C.
    destruct C as [m [Cn Cf]].
    pose proof (@contiguous_le _ _ _ Cn) as Ln.
    pose proof (@contiguous_le _ _ _ Cf) as Lf.
    transitivity (existsb (hitAhead r) (slice 0 (length m_geoms) m_geoms));
      [|rewrite slice_all; reflexivity].
    rewrite (@slice_split _ 0 m (length m_geoms)) by assumption.
    rewrite !existsb_app. f_equal.
    + destruct nearChild as [n1|]; [apply candidatesBelow_sound; assumption|].
      simpl in Cn. subst m. rewrite slice_empty. reflexivity.
    + destruct farChild as [n2|]; [apply candidatesBelow_sound; assumption|].
      simpl in Cf. subst m. rewrite slice_empty. reflexivity.
Qed.

End SoundBoxTest.

(** X10: whatever the strategy, on a tree [Build] returned and a ray for
    which the box test is conservative, [GetIntersection] returns what
    the brute-force loop over the reordered primitive list returns, and
    [DoesIntersect] whether some primitive of that list is met ahead. *)
Theorem Build_queries_are_brute_force_over_reordered_list :
  forall (m_splitMethod : ESplitMethod) (m_maxGeomsInNode : Z) (fuel : nat)
         (geoms : list Geometry) (s : SBVH.t)
         (DoesIntersectBBox : BBox -> Ray -> bool) (r : Ray),
    SBVH.Build m_splitMethod m_maxGeomsInNode fuel geoms = Ok s ->
    boxTestSoundBelowRoot DoesIntersectBBox (SBVH.m_geoms s) r (SBVH.m_root s) ->
    SBVH.GetIntersection DoesIntersectBBox (SBVH.m_geoms s) r (SBVH.m_root s)
    = Ok (snd (SBVH.bruteForce r (SBVH.m_geoms s)))
    /\ SBVH.DoesIntersect DoesIntersectBBox (SBVH.m_geoms s) r (SBVH.m_root s)
       = Ok (existsb (hitAhead r) (SBVH.m_geoms s)).
Proof.
  intros m maxG fuel geoms s boxTest r H S.
  destruct (Build_spansWithin _ _ _ _ H) as [root [R [W [C _]]]].
  rewrite R in *. split.
  - apply GetIntersection_bruteForce; [discriminate | exact C | exact S].
  - destruct (@queries_candidates boxTest _ r _ W) as [_ Q2].
    rewrite Q2, candidates_sound; [reflexivity | exact C | exact S].
Qed.


(* ================================================================== *)
(** ** The strategies that only reorder: [EqualCounts] and [SAH] *)
(* ================================================================== *)

Lemma partition_range_perm {A : Type} (p : A -> bool) (l : list A) :
  Permutation (fst (partition_range p l)) l.
Proof.
  unfold partition_range. cbn [fst].
  induction l as [|x l IH]; [reflexivity|].
  cbn [filter]. destruct (p x); cbn [negb app].
  - constructor. exact IH.
  - symmetry. apply Permutation_cons_app. symmetry. exact IH.
Qed.

Lemma chooseSplit_object (m_splitMethod : ESplitMethod) (m_maxGeomsInNode : Z)
    (m_geoms : list Geometry) (pre range post : list SBVHGeometryInfo)
    (bboxAllGeoms bboxCentroids : BBox) (dim : EAxis.t) gis' split :
  objectSplit m_splitMethod ->
  chooseSplit m_splitMethod m_maxGeomsInNode m_geoms (pre ++ range ++ post)
              (Z.of_nat (length pre)) (Z.of_nat (length pre + length range))
              bboxAllGeoms bboxCentroids dim = Ok (gis', split) ->
  exists range',
    Permutation range' range
    /\ gis' = pre ++ range' ++ post
    /\ match split with
       | None => range' = range
                 /\ m_splitMethod <> EqualCounts /\ 4 < length range
                 /\ (Z.of_nat (length range) <= m_maxGeomsInNode)%Z
       | Some mid => exists k, mid = Z.of_nat (length pre + k) /\ k <= length range
       end.
Proof.
  intros Hm H.
  assert (Equal :
            chooseSplit m_splitMethod m_maxGeomsInNode m_geoms (pre ++ range ++ post)
              (Z.of_nat (length pre)) (Z.of_nat (length pre + length range))
              bboxAllGeoms bboxCentroids dim
            = Ok (splice (Z.to_nat (Z.of_nat (length pre)))
                         (Z.to_nat (Z.of_nat (length pre + length range)))
                         (pre ++ range ++ post)
                         (nth_element (CompareCentroid dim)
                            (slice (Z.to_nat (Z.of_nat (length pre)))
                                   (Z.to_nat (Z.of_nat (length pre + length range)))
                                   (pre ++ range ++ post))),
                  Some (Z.quot (Z.of_nat (length pre)
                                + Z.of_nat (length pre + length range)) 2)) ->
            exists range',
              Permutation range' range
              /\ gis' = pre ++ range' ++ post
              /\ match split with
                 | None => range' = range
                           /\ m_splitMethod <> EqualCounts /\ 4 < length range
                           /\ (Z.of_nat (length range) <= m_maxGeomsInNode)%Z
                 | Some mid =>
                     exists k, mid = Z.of_nat (length pre + k) /\ k <= length range
                 end).
  { intros E. rewrite E in H. inversion H; subst; clear H.
    rewrite !Nat2Z.id, slice_decomposed, splice_decomposed.
    exists (nth_element (CompareCentroid dim) range).
    split; [apply nth_element_perm|]. split; [reflexivity|].
    destruct (midpoint_bounds (length pre) (length range)) as [Hmid [Hk _]].
    eexists. split; [exact Hmid | exact Hk]. }
  destruct Hm as [-> | ->].
  - apply Equal. apply chooseSplit_small. left; reflexivity.
  - destruct (Z.leb_spec (Z.of_nat (length pre + length range) - Z.of_nat (length pre)) 4)
      as [C|C].
    + apply Equal. apply chooseSplit_small. right; exact C.
    + unfold chooseSplit in H.
      destruct (Z.leb_spec (Z.of_nat (length pre + length range) - Z.of_nat (length pre)) 4)
        as [C'|_]; [lia|].
      inv_bind H. destruct (scanMinCost _) as [minCost minCostBucket].
      destruct (splitsNode _ _ _) eqn:Es.
      * rewrite !Nat2Z.id, slice_decomposed in H.
        pose proof (partition_range_perm
                      (inNearHalf bboxCentroids dim minCostBucket) range) as P.
        pose proof (partition_range_length
                      (inNearHalf bboxCentroids dim minCostBucket) range) as [_ L].
        destruct (partition_range _ range) as [range' k]. cbn [fst snd] in P, L.
        rewrite splice_decomposed in H.
        inversion H; subst; clear H.
        exists range'. split; [exact P|]. split; [reflexivity|].
        exists k. split; [lia | exact L].
      * inversion H; subst. exists range.
        split; [reflexivity|]. split; [reflexivity|]. split; [reflexivity|].
        split; [discriminate|]. split; [lia|].
        unfold splitsNode in Es. apply orb_false_iff in Es. destruct Es as [Es _].
        apply Z.ltb_ge in Es. lia.
Qed.

Lemma bboxOfRange_pushed (m_geoms : list Geometry)
    (range : list SBVHGeometryInfo) (pushed : list Geometry) :
  boxesFromInput m_geoms range ->
  traverse (lookupGeom m_geoms) range = Ok pushed ->
  forall b,
    fold_left (fun b gi => BBoxUnion b (bbox gi)) range b
    = fold_left (fun b g => BBoxUnion b (geom_GetBBox g)) pushed b.
Proof.
  intros B T. apply traverse_Forall2 in T.
  induction T as [|gi g l l' H _ IH]; intros b; [reflexivity|].
  inversion B as [|? ? Hgi B']; subst. cbn [fold_left].
  unfold lookupGeom in H.
  destruct (nth_error m_geoms (geometryId gi)) as [g'|] eqn:E; [|discriminate].
  inversion H; subst g'. rewrite (Hgi g eq_refl). apply IH. exact B'.
Qed.

Lemma centroidBox_pushed (m_geoms : list Geometry)
    (range : list SBVHGeometryInfo) (pushed : list Geometry) :
  boxesFromInput m_geoms range ->
  traverse (lookupGeom m_geoms) range = Ok pushed ->
  forall b,
    fold_left (fun b gi => BBoxUnionPoint b (m_centroid (bbox gi))) range b
    = fold_left (fun b gi => BBoxUnionPoint b (m_centroid (bbox gi)))
                (map (fun g => mkGeomInfo 0 (geom_GetBBox g) false) pushed) b.
Proof.
  intros B T. apply traverse_Forall2 in T.
  induction T as [|gi g l l' H _ IH]; intros b; [reflexivity|].
  inversion B as [|? ? Hgi B']; subst. cbn [fold_left map bbox].
  unfold lookupGeom in H.
  destruct (nth_error m_geoms (geometryId gi)) as [g'|] eqn:E; [|discriminate].
  inversion H; subst g'. rewrite (Hgi g eq_refl). apply IH. exact B'.
Qed.

Lemma degenerate_pushed (m_geoms : list Geometry)
    (range : list SBVHGeometryInfo) (pushed : list Geometry) :
  boxesFromInput m_geoms range ->
  traverse (lookupGeom m_geoms) range = Ok pushed ->
  centroidsCoincide pushed = degenerateCentroids range.
Proof.
  intros B T. unfold centroidsCoincide, degenerateCentroids, centroidBoxOfRange.
  rewrite <- (@centroidBox_pushed m_geoms range pushed B T). reflexivity.
Qed.

Lemma slice_app_within {A : Type} (first last : nat) (l l' : list A) :
  last <= length l -> slice first last (l ++ l') = slice first last l.
Proof.
  intros H. unfold slice.
  destruct (Nat.le_gt_cases first (length l)) as [Hf|Hf].
  - rewrite skipn_app.
    replace (first - length l) with 0 by lia. cbn [skipn].
    rewrite firstn_app, length_skipn.
    replace (last - first - (length l - first)) with 0 by lia.
    cbn [firstn]. apply app_nil_r.
  - replace (last - first) with 0 by lia. reflexivity.
Qed.

Lemma leavesBounded_app (m : ESplitMethod) (maxG : Z) (l l' : list Geometry)
    (n : SBVHNode) :
  spansWithin (length l) (leafSpans n) ->
  leavesBounded m maxG l n -> leavesBounded m maxG (l ++ l') n.
Proof.
  induction n as [i o k b | nearChild farChild i a b IHn IHf]
    using SBVHNode_induction; intros W T.
  - inversion W as [|? ? Hw _]; subst. simpl in Hw.
    cbn [leavesBounded] in *. rewrite slice_app_within by lia. exact T.
  - cbn [leafSpans] in W. apply Forall_app in W. destruct W as [Wn Wf].
    cbn [leavesBounded] in *. destruct T as [Tn Tf]. split.
    + destruct nearChild; [auto | exact I].
    + destruct farChild; [auto | exact I].
Qed.

Lemma leafBoxesTight_app (l l' : list Geometry) (n : SBVHNode) :
  spansWithin (length l) (leafSpans n) ->
  leafBoxesTight l n -> leafBoxesTight (l ++ l') n.
Proof.
  induction n as [i o k b | nearChild farChild i a b IHn IHf]
    using SBVHNode_induction; intros W T.
  - inversion W as [|? ? Hw _]; subst. simpl in Hw.
    cbn [leafBoxesTight] in *. rewrite slice_app_within by lia. exact T.
  - cbn [leafSpans] in W. apply Forall_app in W. destruct W as [Wn Wf].
    cbn [leafBoxesTight] in *. destruct T as [Tn Tf]. split.
    + destruct nearChild; [auto | exact I].
    + destruct farChild; [auto | exact I].
Qed.

Section ObjectBuild.
Variable m_splitMethod : ESplitMethod.
Variable m_maxGeomsInNode : Z.
Variable m_geoms : list Geometry.
Hypothesis Hobject : objectSplit m_splitMethod.

Let build := SBVH.BuildRecursive m_splitMethod m_maxGeomsInNode m_geoms.

Lemma makeLeaf_object (pre range post : list SBVHGeometryInfo)
    (st : BuildState) node st' :
  geomInfos st = pre ++ range ++ post ->
  boxesFromInput m_geoms range ->
  length range = 1
  \/ (m_splitMethod <> EqualCounts /\ 4 < length range
      /\ (Z.of_nat (length range) <= m_maxGeomsInNode)%Z)
  \/ degenerateCentroids range = true ->
  SBVH.makeLeaf m_geoms range (Z.of_nat (length range)) (bboxOfRange range) st
    = Ok (node, st') ->
  exists range' pushed n,
    Permutation range' range
    /\ geomInfos st' = pre ++ range' ++ post
    /\ traverse (lookupGeom m_geoms) range' = Ok pushed
    /\ orderedGeoms st' = orderedGeoms st ++ pushed
    /\ node = Some n
    /\ contiguous (length (orderedGeoms st)) (leafSpans n)
                  (length (orderedGeoms st'))
    /\ leafBoxesTight (orderedGeoms st') n
    /\ leavesBounded m_splitMethod m_maxGeomsInNode (orderedGeoms st') n.
Proof.
  intros Hg B Why H. apply makeLeaf_Ok in H. destruct H as [pushed [T [-> ->]]].
  exists range, pushed. eexists. cbn [geomInfos orderedGeoms].
  pose proof (traverse_length _ _ T) as Lp.
  assert (Hs : slice (length (orderedGeoms st))
                     (length (orderedGeoms st) + length range)
                     (orderedGeoms st ++ pushed) = pushed).
  { unfold slice.
    rewrite skipn_app, skipn_all, Nat.sub_diag. cbn [skipn app].
    replace (length (orderedGeoms st) + length range - length (orderedGeoms st))
      with (length pushed) by lia.
    apply firstn_all. }
  split; [reflexivity|]. split; [exact Hg|]. split; [exact T|].
  split; [reflexivity|]. split; [reflexivity|]. split; [|split].
  - cbn [leafSpans contiguous]. split; [reflexivity|].
    rewrite length_app, Lp, Nat2Z.id. reflexivity.
  - cbn [leafBoxesTight]. rewrite Nat2Z.id, Hs.
    unfold bboxOfRange, bboxOfGeoms.
    apply (@bboxOfRange_pushed m_geoms); assumption.
  - cbn [leavesBounded]. rewrite Nat2Z.id, Hs.
    rewrite (@degenerate_pushed m_geoms range pushed B T). exact Why.
Qed.

(** What a build of a range does under [EqualCounts] and [SAH]: the
    range is permuted in place, its primitives are appended to the
    ordered list in the new order, the leaves of the subtree cover
    exactly the appended part, and the box of each leaf is the union of
    the boxes of the primitives of its span. *)
Lemma BuildRecursive_object :
  forall fuel pre range post st node st',
    geomInfos st = pre ++ range ++ post ->
    boxesFromInput m_geoms range ->
    build fuel (Z.of_nat (length pre)) (Z.of_nat (length pre + length range)) st
      = Ok (node, st') ->
    exists range' pushed n,
      Permutation range' range
      /\ geomInfos st' = pre ++ range' ++ post
      /\ traverse (lookupGeom m_geoms) range' = Ok pushed
      /\ orderedGeoms st' = orderedGeoms st ++ pushed
      /\ node = Some n
      /\ contiguous (length (orderedGeoms st)) (leafSpans n)
                    (length (orderedGeoms st'))
      /\ leafBoxesTight (orderedGeoms st') n
      /\ leavesBounded m_splitMethod m_maxGeomsInNode (orderedGeoms st') n.
Proof.
  unfold build.
  induction fuel as [|fuel IH]; intros pre range post st node st' Hg B H;
    [discriminate|].
  cbn [SBVH.BuildRecursive] in H.
  rewrite !Nat2Z.id in H.
  match type of H with
  | (if ?g then _ else _) = _ =>
      assert (G : g = false)
        by (rewrite !orb_false_iff; repeat split; apply Z.ltb_ge; lia);
      rewrite G in H; clear G
  end.
  destruct (Z.of_nat (length (geomInfos st)) <? _)%Z in H; [discriminate|].
  rewrite Hg, slice_decomposed in H.
  assert (Hn : (Z.of_nat (length pre + length range) - Z.of_nat (length pre)
                = Z.of_nat (length range))%Z) by lia.
  rewrite Hn in H.
  destruct (Z.eqb_spec (Z.of_nat (length range)) 1) as [One|_].
  { eapply makeLeaf_object; [exact Hg | exact B | left; lia | exact H]. }
  destruct (degenerateCentroids range) eqn:Hdeg;
    unfold degenerateCentroids in Hdeg; rewrite Hdeg in H.
  { eapply makeLeaf_object; [exact Hg | exact B | right; right; exact Hdeg | exact H]. }
  inv_bind H. destruct a as [gis' split].
  apply chooseSplit_object in E; [|exact Hobject].
  destruct E as [sorted [Hsorted [-> Hsplit]]].
  destruct split as [mid|].
  2:{ destruct Hsplit as [-> Hmax]. rewrite slice_decomposed in H.
      eapply (@makeLeaf_object pre range post
                (mkBuildState (pre ++ range ++ post) (nodeCount st) (orderedGeoms st)));
        [reflexivity | exact B | right; left; exact Hmax | exact H]. }
  destruct Hsplit as [k [-> Hk]].
  assert (Hlen : length sorted = length range) by (apply Permutation_length; exact Hsorted).
  assert (Hl1 : length (firstn k sorted) = k)
    by (rewrite length_firstn; lia).
  assert (Bs : boxesFromInput m_geoms (firstn k sorted ++ skipn k sorted)).
  { rewrite firstn_skipn. unfold boxesFromInput.
    eapply Permutation_Forall; [symmetry; exact Hsorted | exact B]. }
  apply Forall_app in Bs. destruct Bs as [B1 B2].
  inv_bind H. destruct a as [nearChild st1].
  inv_bind H. destruct a as [farChild st2].
  inversion H; subst node st'; clear H.
  (* near child *)
  replace (Z.of_nat (length pre + k))
    with (Z.of_nat (length pre + length (firstn k sorted))) in E
    by (rewrite Hl1; reflexivity).
  apply (IH pre (firstn k sorted) (skipn k sorted ++ post)) in E;
    [| cbn [geomInfos]; f_equal; rewrite app_assoc, firstn_skipn; reflexivity
     | exact B1].
  destruct E as [r1 [p1 [n1 [P1 [G1 [T1 [O1 [-> [C1 [X1 Y1]]]]]]]]]].
  cbn [orderedGeoms] in O1, C1.
  (* far child *)
  assert (Hr1 : length r1 = k) by (rewrite (Permutation_length P1); exact Hl1).
  assert (Hl2 : length (skipn k sorted) = length range - k)
    by (rewrite length_skipn; lia).
  replace (Z.of_nat (length pre + k))
    with (Z.of_nat (length (pre ++ r1))) in E0
    by (rewrite length_app, Hr1; reflexivity).
  replace (Z.of_nat (length pre + length range))
    with (Z.of_nat (length (pre ++ r1) + length (skipn k sorted))) in E0
    by (rewrite length_app, Hr1, Hl2; f_equal; lia).
  apply (IH (pre ++ r1) (skipn k sorted) post) in E0;
    [| rewrite G1, <- !app_assoc; reflexivity | exact B2].
  destruct E0 as [r2 [p2 [n2 [P2 [G2 [T2 [O2 [-> [C2 [X2 Y2]]]]]]]]]].
  exists (r1 ++ r2), (p1 ++ p2). eexists. cbn [geomInfos orderedGeoms].
  split; [rewrite P1, P2, firstn_skipn; exact Hsorted|].
  split; [rewrite G2, <- !app_assoc; reflexivity|].
  split; [apply traverse_app; assumption|].
  split; [rewrite O2, O1, app_assoc; reflexivity|].
  split; [reflexivity|].
  unfold new_SBVHNode. cbn [leafSpans leafBoxesTight leavesBounded].
  split; [eapply contiguous_app; eauto|].
  assert (W1 : spansWithin (length (orderedGeoms st1)) (leafSpans n1))
    by (eapply contiguous_within; [exact C1 | lia]).
  split; (split; [|assumption]); rewrite O2.
  - apply leafBoxesTight_app; assumption.
  - apply leavesBounded_app; assumption.
Qed.

End ObjectBuild.

Lemma combine_seq_nth {A : Type} (l : list A) :
  forall a i x, In (i, x) (combine (seq a (length l)) l) ->
                a <= i /\ nth_error l (i - a) = Some x.
Proof.
  induction l as [|y l IH]; intros a i x H; [destruct H|].
  cbn [length seq combine] in H. destruct H as [H|H].
  - inversion H; subst. rewrite Nat.sub_diag. auto.
  - apply IH in H. destruct H as [L H]. split; [lia|].
    replace (i - a) with (S (i - S a)) by lia. exact H.
Qed.

Lemma boxesFromInput_initGeomInfos (geoms : list Geometry) :
  boxesFromInput geoms (SBVH.initGeomInfos geoms).
Proof.
  unfold boxesFromInput, SBVH.initGeomInfos. apply Forall_forall.
  intros gi Hin. apply in_map_iff in Hin. destruct Hin as [[i x] [<- Hin]].
  apply combine_seq_nth in Hin. destruct Hin as [_ Hin].
  rewrite Nat.sub_0_r in Hin. cbn [geometryId bbox fst snd].
  intros g Hg. congruence.
Qed.

(** The root call of [Build] under [EqualCounts] and [SAH]. *)
Lemma Build_object (m_splitMethod : ESplitMethod) (m_maxGeomsInNode : Z)
    (fuel : nat) (geoms : list Geometry) (s : SBVH.t) :
  objectSplit m_splitMethod ->
  SBVH.Build m_splitMethod m_maxGeomsInNode fuel geoms = Ok s ->
  Permutation (SBVH.m_geoms s) geoms
  /\ exists root,
       SBVH.m_root s = Some root
       /\ SBVH.m_nodes s = SBVH.FlattenRecursive root
       /\ contiguous 0 (leafSpans root) (length (SBVH.m_geoms s))
       /\ leafBoxesTight (SBVH.m_geoms s) root
       /\ leavesBounded m_splitMethod m_maxGeomsInNode (SBVH.m_geoms s) root.
Proof.
  intros Hm H. unfold SBVH.Build in H. inv_bind H.
  destruct a as [root st]. inversion H; subst s; clear H.
  cbn [SBVH.m_root SBVH.m_geoms SBVH.m_nodes].
  apply (@BuildRecursive_object m_splitMethod m_maxGeomsInNode geoms Hm
           fuel [] (SBVH.initGeomInfos geoms) []) in E.
  - destruct E as [range' [pushed [n [P [G [T [O [-> [C [X Y]]]]]]]]]].
    cbn [orderedGeoms app length] in O, C.
    destruct (traverse_perm _ P T) as [ys [T' P']].
    rewrite traverse_initGeomInfos in T'. inversion T'; subst ys.
    rewrite O in *. split; [exact P'|].
    exists n. repeat split; assumption.
  - cbn [geomInfos app]. rewrite app_nil_r. reflexivity.
  - apply boxesFromInput_initGeomInfos.
Qed.

(** X11: under [SAH], whenever [Build] returns, the reordered primitive
    list is a permutation of the input list and the spans of the leaves
    tile it: no primitive is lost or duplicated. *)
Theorem SAH_build_permutes_the_primitives :
  forall (m_maxGeomsInNode : Z) (fuel : nat) (geoms : list Geometry) (s : SBVH.t),
    SBVH.Build SAH m_maxGeomsInNode fuel geoms = Ok s ->
    Permutation (SBVH.m_geoms s) geoms
    /\ contiguous 0 (rootSpans (SBVH.m_root s)) (length geoms).
Proof.
  intros maxG fuel geoms s H.
  destruct (@Build_object SAH maxG fuel geoms s (or_intror eq_refl) H)
    as [P [root [R [_ [C _]]]]].
  split; [exact P|]. rewrite R. cbn [rootSpans].
  rewrite <- (Permutation_length P). exact C.
Qed.


Lemma leafBoxesTight_flat (m_geoms : list Geometry) (root : SBVHNode) :
  leafBoxesTight m_geoms root ->
  forall i o c box,
    In (SBVHLeaf i o c box) (SBVH.FlattenRecursive root) ->
    box = bboxOfGeoms (slice o (o + c) m_geoms).
Proof.
  induction root as [i0 o0 k b | nearChild farChild i0 a b IHn IHf]
    using SBVHNode_induction; intros T i o c box Hin.
  - destruct Hin as [E | []]. inversion E; subst. exact T.
  - cbn [leafBoxesTight] in T. destruct T as [Tn Tf].
    cbn [SBVH.FlattenRecursive] in Hin. destruct Hin as [E | Hin]; [discriminate|].
    apply in_app_or in Hin. destruct Hin as [Hin | Hin].
    + destruct nearChild; [eapply IHn; eauto | destruct Hin].
    + destruct farChild; [eapply IHf; eauto | destruct Hin].
Qed.

(** X12: under [EqualCounts] and [SAH], the box of every leaf of a tree
    [Build] returned is the union of the boxes of the primitives of its
    span, taken in the order of the span. *)
Theorem object_build_leaf_boxes :
  forall (m_splitMethod : ESplitMethod) (m_maxGeomsInNode : Z) (fuel : nat)
         (geoms : list Geometry) (s : SBVH.t),
    m_splitMethod = EqualCounts \/ m_splitMethod = SAH ->
    SBVH.Build m_splitMethod m_maxGeomsInNode fuel geoms = Ok s ->
    forall i o c box,
      In (SBVHLeaf i o c box) (SBVH.m_nodes s) ->
      box = bboxOfGeoms (slice o (o + c) (SBVH.m_geoms s)).
Proof.
  intros m maxG fuel geoms s Hm H.
  destruct (@Build_object m maxG fuel geoms s Hm H) as [_ [root [_ [F [_ [X _]]]]]].
  rewrite F. apply leafBoxesTight_flat. exact X.
Qed.


Lemma existsb_perm {A : Type} (f : A -> bool) (l l' : list A) :
  Permutation l l' -> existsb f l = existsb f l'.
Proof.
  induction 1 as [|x l l' _ IH|x y l|l l' l'' _ IH1 _ IH2]; cbn [existsb].
  - reflexivity.
  - rewrite IH. reflexivity.
  - destruct (f x), (f y); reflexivity.
  - congruence.
Qed.

(** X13: under [EqualCounts] and [SAH], on a ray for which the box test is
    conservative, [DoesIntersect] answers true exactly when some
    primitive of the INPUT list is met at [t > 0]. *)
Theorem object_build_any_hit_correct :
  forall (m_splitMethod : ESplitMethod) (m_maxGeomsInNode : Z) (fuel : nat)
         (geoms : list Geometry) (s : SBVH.t)
         (DoesIntersectBBox : BBox -> Ray -> bool) (r : Ray),
    m_splitMethod = EqualCounts \/ m_splitMethod = SAH ->
    SBVH.Build m_splitMethod m_maxGeomsInNode fuel geoms = Ok s ->
    boxTestSoundBelowRoot DoesIntersectBBox (SBVH.m_geoms s) r (SBVH.m_root s) ->
    SBVH.DoesIntersect DoesIntersectBBox (SBVH.m_geoms s) r (SBVH.m_root s)
    = Ok (existsb (fun g => (isx_t (geom_GetIntersection g r) >? zero)%flt) geoms).
Proof.
  intros m maxG fuel geoms s boxTest r Hm H S.
  destruct (@Build_object m maxG fuel geoms s Hm H) as [P [root [R [_ [C _]]]]].
  rewrite R in *.
  pose proof (@contiguous_within _ _ _ _ C (Nat.le_refl _)) as W.
  destruct (@queries_candidates boxTest _ r _ W) as [_ Q2].
  rewrite Q2, candidates_sound; [|exact C | exact S].
  f_equal. apply existsb_perm. exact P.
Qed.


(** X14: under [EqualCounts] and [SAH], on a ray for which the box test is
    conservative, [GetIntersection] returns the default record when no
    input primitive is met at a finite [t > 0], and otherwise the
    intersection with an input primitive met at a finite [t > 0] than
    which no input primitive met ahead is nearer. *)
Theorem object_build_nearest_hit_correct :
  forall (m_splitMethod : ESplitMethod) (m_maxGeomsInNode : Z) (fuel : nat)
         (geoms : list Geometry) (s : SBVH.t)
         (DoesIntersectBBox : BBox -> Ray -> bool) (r : Ray),
    m_splitMethod = EqualCounts \/ m_splitMethod = SAH ->
    SBVH.Build m_splitMethod m_maxGeomsInNode fuel geoms = Ok s ->
    boxTestSoundBelowRoot DoesIntersectBBox (SBVH.m_geoms s) r (SBVH.m_root s) ->
    let t g := isx_t (geom_GetIntersection g r) in
    let nearest :=
      SBVH.GetIntersection DoesIntersectBBox (SBVH.m_geoms s) r (SBVH.m_root s) in
    (nearest = Ok Intersection_default
     /\ Forall (fun g => (t g >? zero)%flt && (t g <? INFINITY)%flt = false) geoms)
    \/ (exists g,
          In g geoms
          /\ nearest = Ok (geom_GetIntersection g r)
          /\ (t g >? zero)%flt = true
          /\ (t g <? INFINITY)%flt = true
          /\ forall g', In g' geoms -> (t g' >? zero)%flt = true ->
                        (t g' <? t g)%flt = false).
Proof.
  intros m maxG fuel geoms s boxTest r Hm H S t nearest.
  destruct (@Build_object m maxG fuel geoms s Hm H) as [P [root [R [_ [C _]]]]].
  assert (Q : nearest = Ok (snd (SBVH.bruteForce r (SBVH.m_geoms s)))).
  { subst nearest. rewrite R in *.
    apply GetIntersection_bruteForce; [discriminate | exact C | exact S]. }
  rewrite Q, bruteForce_fold.
  pose proof (@nearest_fold_min r (SBVH.m_geoms s) (INFINITY, Intersection_default))
    as Min.
  destruct (@nearest_fold_cases r (SBVH.m_geoms s) (INFINITY, Intersection_default))
    as [[F A] | [g [Hin [F [Hg Hlt]]]]].
  - left. rewrite F. split; [reflexivity|].
    eapply Permutation_Forall; [exact P | exact A].
  - right. exists g. rewrite F in *. cbn [fst snd] in *.
    split; [eapply Permutation_in; eauto|].
    split; [reflexivity|]. split; [exact Hg|]. split; [exact Hlt|].
    intros g' Hin' Hg'. apply Min; [|exact Hg'].
    eapply Permutation_in; [symmetry; exact P | exact Hin'].
Qed.


Lemma leavesBounded_flat (m : ESplitMethod) (maxG : Z) (m_geoms : list Geometry)
    (root : SBVHNode) :
  leavesBounded m maxG m_geoms root ->
  forall i o c box,
    In (SBVHLeaf i o c box) (SBVH.FlattenRecursive root) ->
    c = 1
    \/ (m <> EqualCounts /\ 4 < c /\ (Z.of_nat c <= maxG)%Z)
    \/ centroidsCoincide (slice o (o + c) m_geoms) = true.
Proof.
  induction root as [i0 o0 k b | nearChild farChild i0 a b IHn IHf]
    using SBVHNode_induction; intros T i o c box Hin.
  - destruct Hin as [E | []]. inversion E; subst. exact T.
  - cbn [leavesBounded] in T. destruct T as [Tn Tf].
    cbn [SBVH.FlattenRecursive] in Hin. destruct Hin as [E | Hin]; [discriminate|].
    apply in_app_or in Hin. destruct Hin as [Hin | Hin].
    + destruct nearChild; [eapply IHn; eauto | destruct Hin].
    + destruct farChild; [eapply IHf; eauto | destruct Hin].
Qed.

(** X15: under [EqualCounts] and [SAH], a leaf of a tree [Build] returned
    holds one primitive, or primitives whose centroid box has no extent
    on its widest axis, or (under [SAH] only) more than four and no more
    than [m_maxGeomsInNode] primitives. *)
Theorem object_build_leaf_size_bound :
  forall (m_splitMethod : ESplitMethod) (m_maxGeomsInNode : Z) (fuel : nat)
         (geoms : list Geometry) (s : SBVH.t),
    m_splitMethod = EqualCounts \/ m_splitMethod = SAH ->
    SBVH.Build m_splitMethod m_maxGeomsInNode fuel geoms = Ok s ->
    forall i o c box,
      In (SBVHLeaf i o c box) (SBVH.m_nodes s) ->
      c = 1
      \/ (m_splitMethod = SAH /\ 4 < c /\ (Z.of_nat c <= m_maxGeomsInNode)%Z)
      \/ centroidsCoincide (slice o (o + c) (SBVH.m_geoms s)) = true.
Proof.
  intros m maxG fuel geoms s Hm H i o c box Hin.
  destruct (@Build_object m maxG fuel geoms s Hm H) as [_ [root [_ [F [_ [_ Y]]]]]].
  rewrite F in Hin.
  destruct (@leavesBounded_flat m maxG _ _ Y i o c box Hin) as [L | [[Hne L] | L]];
    [left; exact L | right; left | right; right; exact L].
  split; [|exact L]. destruct Hm as [Hm | Hm]; congruence.
Qed.


(* ================================================================== *)
(** ** The scan for the cheapest boundary (lines 473-480) *)
(* ================================================================== *)

Lemma ltb_cotrans (a b c : flt) :
  (a <? b)%flt = true -> c <> NaN ->
  (a <? c)%flt = true \/ (c <? b)%flt = true.
Proof.
  destruct a as [|sa|p], b as [|sb|q], c as [|sc|x]; simpl; try discriminate;
    try congruence;
    try (destruct sa); try (destruct sb); try (destruct sc); simpl;
    try discriminate; auto.
  rewrite !Qltb_lt. intros H _.
  destruct (Qlt_le_dec p x) as [L|L]; [left; exact L|].
  right. eapply Qle_lt_trans; eauto.
Qed.

Lemma ltb_false_trans (a b c : flt) :
  (c <? a)%flt = false -> (b <? a)%flt = true -> (c <? b)%flt = false.
Proof.
  intros H1 H2. destruct (c <? b)%flt eqn:E; [|reflexivity].
  rewrite (ltb_trans _ _ _ E H2) in H1. discriminate.
Qed.

(** The loop of lines 475-480 from a state that is right for the costs
    seen so far. *)
Lemma scan_invariant (rest : list flt) :
  forall (seen : list flt) (minCost : flt) (minCostBucket : nat),
    nth_error seen minCostBucket = Some minCost ->
    Forall (fun c => (c <? minCost)%flt = false) seen ->
    Forall (fun c => c = NaN \/ (minCost <? c)%flt = true)
           (firstn minCostBucket seen) ->
    let '((m, b), i) :=
      fold_left
        (fun (acc : (flt * Z) * Z) c =>
           let '((minCost, minCostBucket), i) := acc in
           if (c <? minCost)%flt then ((c, i), (i + 1)%Z)
           else ((minCost, minCostBucket), (i + 1)%Z))
        rest ((minCost, Z.of_nat minCostBucket), Z.of_nat (length seen)) in
    (0 <= b)%Z
    /\ i = Z.of_nat (length (seen ++ rest))
    /\ nth_error (seen ++ rest) (Z.to_nat b) = Some m
    /\ Forall (fun c => (c <? m)%flt = false) (seen ++ rest)
    /\ Forall (fun c => c = NaN \/ (m <? c)%flt = true)
              (firstn (Z.to_nat b) (seen ++ rest)).
Proof.
  induction rest as [|c rest IH]; intros seen minCost minCostBucket Hn Hmin Hfirst.
  - cbn [fold_left]. rewrite app_nil_r, Nat2Z.id.
    repeat split; try assumption. lia.
  - cbn [fold_left].
    replace (seen ++ c :: rest) with ((seen ++ [c]) ++ rest)
      by (rewrite <- app_assoc; reflexivity).
    assert (Hlen : (Z.of_nat (length seen) + 1)%Z = Z.of_nat (length (seen ++ [c])))
      by (rewrite length_app; cbn [length]; lia).
    assert (Hb : minCostBucket < length seen)
      by (apply nth_error_Some; congruence).
    destruct (c <? minCost)%flt eqn:E.
    + rewrite Hlen. apply IH.
      * rewrite nth_error_app2, Nat.sub_diag by lia. reflexivity.
      * apply Forall_app. split.
        -- eapply Forall_impl; [|exact Hmin]. intros x Hx. cbv beta in Hx.
           exact (@ltb_false_trans minCost c x Hx E).
        -- constructor; [apply ltb_irrefl | constructor].
      * rewrite firstn_app, Nat.sub_diag, firstn_all. cbn [firstn].
        rewrite app_nil_r.
        eapply Forall_impl; [|exact Hmin]. intros x Hx. cbv beta in Hx.
        destruct x as [|s|q]; [left; reflexivity | right | right].
        -- destruct (@ltb_cotrans c minCost (Inf s) E ltac:(discriminate))
             as [L|L]; [exact L | congruence].
        -- destruct (@ltb_cotrans c minCost (Fin q) E ltac:(discriminate))
             as [L|L]; [exact L | congruence].
    + rewrite Hlen. apply IH.
      * rewrite nth_error_app1 by lia. exact Hn.
      * apply Forall_app. split; [exact Hmin|].
        constructor; [exact E | constructor].
      * rewrite firstn_app.
        replace (minCostBucket - length seen) with 0 by lia.
        cbn [firstn]. rewrite app_nil_r. exact Hfirst.
Qed.

(** X16: the scan of lines 473-480 over a non-empty array of costs returns
    a position inside the array, the cost at that position, a cost that
    no cost of the array is below, and the first such position: every
    earlier cost is NaN or strictly above it. *)
Theorem scanMinCost_first_minimum :
  forall (c0 : flt) (rest : list flt),
    let costs := c0 :: rest in
    let minCost := fst (scanMinCost costs) in
    let minCostBucket := snd (scanMinCost costs) in
    (0 <= minCostBucket < Z.of_nat (length costs))%Z
    /\ nth_error costs (Z.to_nat minCostBucket) = Some minCost
    /\ Forall (fun c => (c <? minCost)%flt = false) costs
    /\ Forall (fun c => c = NaN \/ (minCost <? c)%flt = true)
              (firstn (Z.to_nat minCostBucket) costs).
Proof.
  intros c0 rest costs minCost minCostBucket.
  subst minCost minCostBucket costs. unfold scanMinCost.
  pose proof (@scan_invariant rest [c0] c0 0 eq_refl) as H.
  cbn [length Z.of_nat firstn app] in H.
  specialize (H ltac:(constructor; [apply ltb_irrefl | constructor])
                ltac:(constructor)).
  change (Z.of_nat 1) with 1%Z in H. change (Z.of_nat 0) with 0%Z in H.
  destruct (fold_left _ rest _) as [[m b] i]. cbn [fst snd].
  destruct H as [Hb [Hi [Hn [Hmin Hfirst]]]].
  split; [|auto].
  split; [exact Hb|].
  assert (L : Z.to_nat b < length (c0 :: rest))
    by (apply nth_error_Some; congruence).
  lia.
Qed.

(* ================================================================== *)
(** ** The object buckets and the sizes of the two halves *)
(* ================================================================== *)

Lemma sumBuckets_count (bs : list BucketInfo) :
  forall (b : BBox) (c : Z),
    snd (sumBuckets bs b c) = (c + fold_right Z.add 0 (map count bs))%Z.
Proof.
  unfold sumBuckets.
  induction bs as [|x bs IH]; intros b c; cbn [fold_left map fold_right snd fst].
  - lia.
  - rewrite IH. lia.
Qed.

Lemma map_upd {A B : Type} (g : A -> B) (f : A -> A) (f' : B -> B) :
  (forall x, g (f x) = f' (g x)) ->
  forall (l : list A) i, map g (upd i f l) = upd i f' (map g l).
Proof.
  intros H. induction l as [|x l IH]; intros [|i]; cbn [upd map];
    rewrite ?H, ?IH; reflexivity.
Qed.

Lemma sum_firstn_upd (zs : list Z) :
  forall w n,
    w < length zs ->
    fold_right Z.add 0%Z (firstn n (upd w Z.succ zs))
    = (fold_right Z.add 0 (firstn n zs) + (if (w <? n)%nat then 1 else 0))%Z.
Proof.
  induction zs as [|z zs IH]; intros w n Hw; [simpl in Hw; lia|].
  destruct n as [|n]; [cbn; destruct w; reflexivity|].
  destruct w as [|w]; cbn [upd firstn fold_right].
  - cbn. lia.
  - rewrite IH by (simpl in Hw; lia).
    change (S w <? S n) with (w <? n). lia.
Qed.

Lemma sum_skipn_upd (zs : list Z) :
  forall w n,
    w < length zs ->
    fold_right Z.add 0%Z (skipn n (upd w Z.succ zs))
    = (fold_right Z.add 0 (skipn n zs) + (if (w <? n)%nat then 0 else 1))%Z.
Proof.
  induction zs as [|z zs IH]; intros w n Hw; [simpl in Hw; lia|].
  destruct n as [|n].
  - cbn [skipn]. destruct w as [|w]; cbn [upd fold_right].
    + cbn. lia.
    + specialize (IH w 0 ltac:(simpl in Hw; lia)). cbn [skipn] in IH.
      rewrite IH. cbn. lia.
  - destruct w as [|w]; cbn [upd skipn].
    + cbn. lia.
    + rewrite IH by (simpl in Hw; lia).
      change (S w <? S n) with (w <? n). reflexivity.
Qed.

Lemma clampBucket_Ok (b w : Z) :
  clampBucket b = Ok w -> w = clampBucket_total b.
Proof.
  unfold clampBucket, clampBucket_total.
  destruct (NUM_BUCKET <? b)%Z; [discriminate|]. intros H. inversion H. reflexivity.
Qed.

Lemma updBucket_Ok (w : Z) (f : BucketInfo -> BucketInfo)
    (bs bs' : list BucketInfo) :
  updBucket w f bs = Ok bs' ->
  (0 <= w < NUM_BUCKET)%Z /\ bs' = upd (Z.to_nat w) f bs.
Proof.
  unfold updBucket. destruct (Z.ltb_spec w 0); [discriminate|].
  destruct (Z.leb_spec NUM_BUCKET w); [discriminate|]. cbn [orb].
  intros E. inversion E. split; [lia | reflexivity].
Qed.

(** The loop of lines 441-448 (and 137-145) adds, on each side of a
    boundary, the number of primitives that the partition predicate
    sends to that side. *)
Lemma fillBuckets_sides (bboxCentroids : BBox) (dim : EAxis.t) (i : nat)
    (range : list SBVHGeometryInfo) :
  forall bs bs',
    length bs = Z.to_nat NUM_BUCKET ->
    fillBuckets bboxCentroids dim range bs = Ok bs' ->
    length bs' = Z.to_nat NUM_BUCKET
    /\ fold_right Z.add 0%Z (map count (firstn (S i) bs'))
       = (fold_right Z.add 0 (map count (firstn (S i) bs))
          + Z.of_nat (length (filter (inNearHalf bboxCentroids dim (Z.of_nat i))
                                     range)))%Z
    /\ fold_right Z.add 0%Z (map count (skipn (S i) bs'))
       = (fold_right Z.add 0 (map count (skipn (S i) bs))
          + Z.of_nat (length (filter
                                (fun gi => negb (inNearHalf bboxCentroids dim
                                                            (Z.of_nat i) gi))
                                range)))%Z.
Proof.
  induction range as [|gi range IH]; intros bs bs' L H; cbn [fillBuckets] in H.
  - inversion H; subst. cbn [filter length]. repeat split; lia.
  - inv_bind H. inv_bind H.
    apply clampBucket_Ok in E. apply updBucket_Ok in E0.
    destruct E0 as [Hw ->].
    apply IH in H; [|rewrite upd_length; exact L].
    destruct H as [L' [H1 H2]]. split; [exact L'|].
    rewrite H1, H2.
    rewrite <- !firstn_map, <- !skipn_map.
    rewrite (@map_upd _ _ count _ Z.succ)
      by (intros x; cbn [count]; lia).
    rewrite sum_firstn_upd, sum_skipn_upd by (rewrite length_map, L; unfold NUM_BUCKET in *; lia).
    assert (Hnear : inNearHalf bboxCentroids dim (Z.of_nat i) gi
                    = (a <=? Z.of_nat i)%Z)
      by (unfold inNearHalf; rewrite <- E; reflexivity).
    cbn [filter]. rewrite !Hnear.
    destruct (Z.leb_spec a (Z.of_nat i)) as [C|C];
      destruct (Nat.ltb_spec (Z.to_nat a) (S i)) as [D|D]; try lia;
      cbn [negb length]; split; lia.
Qed.

(** X17: once the object buckets of a range are filled, the two counts the
    cost of boundary [i] is computed with are the sizes of the two
    halves the partition predicate makes of the range at bucket [i];
    together they count every primitive of the range once. *)
Theorem object_bucket_counts_are_partition_sizes :
  forall (bboxCentroids : BBox) (dim : EAxis.t) (range : list SBVHGeometryInfo)
         (buckets : list BucketInfo) (i : nat),
    fillBuckets bboxCentroids dim range new_buckets = Ok buckets ->
    let count0 := snd (fst (objectSides i buckets)) in
    let count1 := snd (snd (objectSides i buckets)) in
    let near := filter (inNearHalf bboxCentroids dim (Z.of_nat i)) range in
    count0 = Z.of_nat (length near)
    /\ count1 = Z.of_nat (length range - length near)
    /\ (count0 + count1)%Z = Z.of_nat (length range)
    /\ snd (partition_range (inNearHalf bboxCentroids dim (Z.of_nat i)) range)
       = length near.
Proof.
  intros bC dim range buckets i H count0 count1 near.
  apply (@fillBuckets_sides bC dim i) in H; [|reflexivity].
  destruct H as [_ [H1 H2]].
  assert (Z0 : forall n, fold_right Z.add 0%Z (map count (firstn n new_buckets)) = 0%Z).
  { intros n. unfold new_buckets. cbn [NUM_BUCKET Z.to_nat Pos.to_nat Pos.iter_op Nat.add repeat].
    do 13 (destruct n as [|n]; [reflexivity|]). reflexivity. }
  assert (Z1 : forall n, fold_right Z.add 0%Z (map count (skipn n new_buckets)) = 0%Z).
  { intros n. unfold new_buckets. cbn [NUM_BUCKET Z.to_nat Pos.to_nat Pos.iter_op Nat.add repeat].
    do 13 (destruct n as [|n]; [reflexivity|]). reflexivity. }
  rewrite Z0 in H1. rewrite Z1 in H2.
  pose proof (filter_length (inNearHalf bC dim (Z.of_nat i)) range) as FL.
  fold near in H1, FL.
  assert (C0 : count0 = Z.of_nat (length near)).
  { subst count0. unfold objectSides, bucketsUpTo. cbn [fst snd].
    rewrite sumBuckets_count, H1. lia. }
  assert (C1 : count1 = Z.of_nat (length range - length near)).
  { subst count1. unfold objectSides, bucketsAfter. cbn [fst snd].
    rewrite sumBuckets_count, H2. lia. }
  split; [exact C0|]. split; [exact C1|]. split; [lia | reflexivity].
Qed.


(* ================================================================== *)
(** ** The flattened array (lines 685-702) *)
(* ================================================================== *)

(** At every position of the flattened subtree starts the flattening of
    the node held there. *)
Lemma FlattenRecursive_segment (root : SBVHNode) :
  forall p n,
    nth_error (SBVH.FlattenRecursive root) p = Some n ->
    exists after,
      skipn p (SBVH.FlattenRecursive root) = SBVH.FlattenRecursive n ++ after.
Proof.
  induction root as [i o k b | nearChild farChild i a b IHn IHf]
    using SBVHNode_induction; intros p n H.
  - destruct p as [|p]; cbn in H.
    + inversion H; subst. exists []. reflexivity.
    + destruct p; discriminate.
  - destruct p as [|p].
    + cbn [SBVH.FlattenRecursive nth_error] in H. inversion H; subst n.
      exists []. rewrite app_nil_r. reflexivity.
    + cbn [SBVH.FlattenRecursive nth_error] in H.
      cbn [SBVH.FlattenRecursive skipn].
      set (fn := match nearChild with
                 | Some c => SBVH.FlattenRecursive c
                 | None => []
                 end) in *.
      set (ff := match farChild with
                 | Some c => SBVH.FlattenRecursive c
                 | None => []
                 end) in *.
      destruct (Nat.lt_ge_cases p (length fn)) as [L|L].
      * rewrite nth_error_app1 in H by exact L.
        destruct nearChild as [c|]; [|subst fn; simpl in L; lia].
        destruct (IHn p n H) as [after E]. subst fn.
        exists (after ++ ff).
        rewrite skipn_app, E.
        replace (p - length (SBVH.FlattenRecursive c)) with 0 by lia.
        cbn [skipn]. rewrite <- app_assoc. reflexivity.
      * rewrite nth_error_app2 in H by exact L.
        destruct farChild as [c|]; [|subst ff; destruct (p - length fn); discriminate].
        destruct (IHf _ n H) as [after E]. subst ff.
        exists after.
        rewrite skipn_app, skipn_all2 by exact L. cbn [app]. exact E.
Qed.

(** X18: in the flattened list of a tree, an interior node at position [p]
    has its near child at position [p + 1], followed by the whole near
    subtree, and its far child right behind that subtree. *)
Theorem Flatten_children_positions :
  forall (root : SBVHNode) (p : nat) (nearChild farChild : SBVHNode)
         (i : nat) (a : EAxis.t) (b : BBox),
    nth_error (SBVH.Flatten (Some root)) p
    = Some (SBVHInterior (Some nearChild) (Some farChild) i a b) ->
    nth_error (SBVH.Flatten (Some root)) (p + 1) = Some nearChild
    /\ nth_error (SBVH.Flatten (Some root))
                 (p + 1 + length (SBVH.FlattenRecursive nearChild))
       = Some farChild
    /\ firstn (length (SBVH.FlattenRecursive nearChild))
              (skipn (p + 1) (SBVH.Flatten (Some root)))
       = SBVH.FlattenRecursive nearChild.
Proof.
  intros root p nearChild farChild i a b H. cbn [SBVH.Flatten] in *.
  destruct (FlattenRecursive_segment _ _ H) as [after E].
  cbn [SBVH.FlattenRecursive] in E.
  assert (Hn : forall k, nth_error (SBVH.FlattenRecursive root) (p + k)
                         = nth_error (skipn p (SBVH.FlattenRecursive root)) k)
    by (intros k; rewrite nth_error_skipn; reflexivity).
  assert (Hd : forall c, exists l, SBVH.FlattenRecursive c = c :: l)
    by (intros [? ? ? ?|? ? ? ? ?]; eexists; reflexivity).
  split; [|split].
  - rewrite Hn, E. cbn [Nat.add app nth_error].
    destruct (Hd nearChild) as [l ->]. reflexivity.
  - rewrite <- Nat.add_assoc, Hn, E. cbn [Nat.add app nth_error].
    rewrite <- app_assoc, nth_error_app2, Nat.sub_diag by lia.
    destruct (Hd farChild) as [l ->]. reflexivity.
  - replace (p + 1) with (1 + p) by lia. rewrite <- skipn_skipn, E.
    cbn [skipn app]. rewrite <- app_assoc.
    rewrite firstn_app, Nat.sub_diag, firstn_all. cbn [firstn].
    apply app_nil_r.
Qed.


(* ================================================================== *)
(** ** The median split (lines 37-43) *)
(* ================================================================== *)

Section SortedFacts.
Context {A : Type} (lt : A -> A -> bool) (ok : A -> Prop).
Hypothesis lt_asym : forall x y, lt x y = true -> lt y x = false.
Hypothesis le_trans :
  forall x y z, ok y -> lt y x = false -> lt z y = false -> lt z x = false.

Let notAbove (x y : A) : Prop := lt y x = false.

Lemma insert_sorted_sorted (x : A) (l : list A) :
  Forall ok l ->
  StronglySorted notAbove l -> StronglySorted notAbove (insert_sorted lt x l).
Proof.
  intros Hok Hs. induction Hs as [|y r Hr IH Hy]; cbn [insert_sorted].
  - repeat constructor.
  - inversion Hok as [|? ? Oy Or]; subst.
    destruct (lt x y) eqn:E.
    + constructor; [constructor; assumption|].
      constructor; [exact (@lt_asym _ _ E)|].
      eapply Forall_impl; [|exact Hy]. intros z Hz.
      exact (@le_trans x y z Oy (@lt_asym _ _ E) Hz).
    + constructor; [apply IH; exact Or|].
      eapply Permutation_Forall; [symmetry; apply insert_sorted_perm|].
      constructor; [exact E | exact Hy].
Qed.

Lemma nth_element_sorted (l : list A) :
  Forall ok l -> StronglySorted notAbove (nth_element lt l).
Proof.
  induction 1 as [|x l Hx Hl IH]; [constructor|].
  unfold nth_element in *. cbn [fold_right].
  apply insert_sorted_sorted; [|exact IH].
  eapply Permutation_Forall; [symmetry; apply (nth_element_perm lt)|exact Hl].
Qed.

Lemma sorted_split (l : list A) :
  StronglySorted notAbove l ->
  forall k x y, In x (firstn k l) -> In y (skipn k l) -> lt y x = false.
Proof.
  induction 1 as [|z l Hs IH Hz]; intros k x y Hx Hy.
  - destruct k; destruct Hx.
  - destruct k as [|k]; [destruct Hx|].
    cbn [firstn skipn] in Hx, Hy. destruct Hx as [<- | Hx].
    + rewrite Forall_forall in Hz. apply Hz.
      rewrite <- (firstn_skipn k l). apply in_or_app. right. exact Hy.
    + eapply IH; eauto.
Qed.
End SortedFacts.

(** X19: [PartitionEqualCounts] on a range of [n] entries whose centroid
    coordinates on the axis are not NaN returns [mid = first + n / 2]
    and a permutation of the range in which no entry before [mid] has a
    centroid coordinate above that of an entry from [mid] on. *)
Theorem PartitionEqualCounts_median_split :
  forall (dim : EAxis.t) (p : nat) (range : list SBVHGeometryInfo),
    Forall (fun gi => vget (m_centroid (bbox gi)) dim <> NaN) range ->
    let first := Z.of_nat p in
    let last := Z.of_nat (p + length range) in
    let range' := fst (PartitionEqualCounts dim first last range) in
    let mid := snd (PartitionEqualCounts dim first last range) in
    let k := length range / 2 in
    mid = Z.of_nat (p + k)
    /\ Permutation range' range
    /\ forall x y, In x (firstn k range') -> In y (skipn k range') ->
                   CompareCentroid dim y x = false.
Proof.
  intros dim p range Hok first last range' mid k.
  subst range' mid. unfold PartitionEqualCounts. cbn [fst snd].
  split; [|split].
  - subst first last k. rewrite Z.quot_div_nonneg by lia.
    replace (Z.of_nat p + Z.of_nat (p + length range))%Z
      with (Z.of_nat (length range) + Z.of_nat p * 2)%Z by lia.
    rewrite Z.div_add by lia.
    rewrite Nat2Z.inj_add, Nat2Z.inj_div. simpl Z.of_nat. lia.
  - apply nth_element_perm.
  - apply (@sorted_split _ (CompareCentroid dim)).
    apply (@nth_element_sorted _ (CompareCentroid dim)
             (fun gi => vget (m_centroid (bbox gi)) dim <> NaN)).
    + intros x y. unfold CompareCentroid. intros H.
      destruct (vget (m_centroid (bbox y)) dim <? vget (m_centroid (bbox x)) dim)%flt
        eqn:E; [|reflexivity].
      pose proof (@ltb_trans _ _ _ H E) as C. rewrite ltb_irrefl in C. discriminate.
    + intros x y z Oy. unfold CompareCentroid. intros H1 H2.
      destruct (vget (m_centroid (bbox z)) dim <? vget (m_centroid (bbox x)) dim)%flt
        eqn:E; [|reflexivity].
      destruct (@ltb_cotrans _ _ (vget (m_centroid (bbox y)) dim) E Oy); congruence.
    + exact Hok.
Qed.


(* ================================================================== *)
(** ** A scene of one primitive *)
(* ================================================================== *)

(** X21: a scene of one primitive is built, under every strategy and with
    any positive fuel, into a single leaf with index 0 and span (0, 1) holding
    the primitive; on that tree [GetIntersection] returns the
    intersection with the primitive when it is met at a finite [t > 0]
    and the default record otherwise, and [DoesIntersect] whether it is
    met at [t > 0]. *)
Theorem Build_single_primitive :
  forall (m_splitMethod : ESplitMethod) (m_maxGeomsInNode : Z) (fuel : nat)
         (g : Geometry) (DoesIntersectBBox : BBox -> Ray -> bool) (r : Ray),
    let leaf := SBVHLeaf 0 0 1 (BBoxUnion BBox_default (geom_GetBBox g)) in
    let isx := geom_GetIntersection g r in
    SBVH.Build m_splitMethod m_maxGeomsInNode (S fuel) [g]
    = Ok (SBVH.mkSBVH (Some leaf) [g] [leaf])
    /\ SBVH.GetIntersection DoesIntersectBBox [g] r (Some leaf)
       = Ok (if (isx_t isx >? zero)%flt && (isx_t isx <? INFINITY)%flt
             then isx else Intersection_default)
    /\ SBVH.DoesIntersect DoesIntersectBBox [g] r (Some leaf)
       = Ok (isx_t isx >? zero)%flt.
Proof.
  intros m maxG fuel g boxTest r leaf isx. split; [|split].
  - reflexivity.
  - subst leaf.
    cbn [SBVH.GetIntersection SBVH.leafNearest Nat.add nth_error of_option bind fst snd].
    fold isx.
    destruct ((isx_t isx >? zero)%flt && (isx_t isx <? INFINITY)%flt); reflexivity.
  - subst leaf.
    cbn [SBVH.DoesIntersect SBVH.leafAny Nat.add nth_error of_option bind].
    fold isx. destruct (isx_t isx >? zero)%flt; reflexivity.
Qed.

(* ================================================================== *)
(** ** The clipping loop only appends (lines 152-297) *)
(* ================================================================== *)

Lemma entryKey_upd (b : bool) (l : list SBVHGeometryInfo) :
  forall i, map entryKey (upd i (set_straddling b) l) = map entryKey l.
Proof.
  induction l as [|x l IH]; intros [|i]; cbn [upd map]; rewrite ?IH; reflexivity.
Qed.

Lemma entryKey_id (l : list SBVHGeometryInfo) :
  map geometryId l = map fst (map entryKey l).
Proof. rewrite map_map. reflexivity. Qed.

Section ClipAppends.
Variable m_geoms : list Geometry.
Variables bboxAllGeoms bboxCentroids : BBox.
Variable dim : EAxis.t.
Variable buckets : list BucketInfo.
Variable bucketSize : flt.

Let idAt (gis : list SBVHGeometryInfo) (i id : nat) : Prop :=
  nth_error (map fst (map entryKey gis)) i = Some id.

Lemma clipLoop_keys :
  forall n bucket i gis sb gis' sb',
    clipLoop m_geoms bboxAllGeoms bboxCentroids dim buckets bucketSize
             n bucket i gis sb = Ok (gis', sb') ->
    exists added,
      map entryKey gis' = map entryKey gis ++ added
      /\ Forall (fun k => idAt gis i (fst k) /\ isTriangleId m_geoms (fst k)) added.
Proof.
  induction n as [|n IH]; intros bucket i gis sb gis' sb' H; cbn [clipLoop] in H.
  - inversion H; subst. exists []. rewrite app_nil_r. auto.
  - inv_bind H. inv_bind H.
    destruct (nth_error gis i) as [gi|] eqn:Ei; [|discriminate].
    inversion E; subst a; clear E.
    destruct (nth_error m_geoms (geometryId gi)) as [g|] eqn:Eg; [|discriminate].
    inversion E0; subst a0; clear E0.
    assert (Hid : idAt gis i (geometryId gi)).
    { unfold idAt. rewrite <- entryKey_id.
      rewrite nth_error_map, Ei. reflexivity. }
    destruct (geom_triangle g) as [pTri|] eqn:Et.
    + inv_bind H. inv_bind H. apply IH in H.
      destruct H as [added [K F]].
      exists (entryKey (mkGeomInfo (geometryId gi) a false) :: added). split.
      * rewrite K, map_app, <- app_assoc. reflexivity.
      * constructor.
        -- cbn [entryKey fst geometryId]. split; [exact Hid|].
           exists g, pTri. auto.
        -- eapply Forall_impl; [|exact F]. intros k [Hk T]. split; [|exact T].
           unfold idAt in *. rewrite !map_app in Hk.
           rewrite nth_error_app1 in Hk; [exact Hk|].
           rewrite !length_map. apply nth_error_Some. congruence.
    + inv_bind H. inversion H; subst. exists [].
      rewrite entryKey_upd, app_nil_r. auto.
Qed.

Lemma spatialStep_keys :
  forall i gis sb gis' sb',
    spatialStep m_geoms bboxAllGeoms bboxCentroids dim buckets bucketSize
                i (gis, sb) = Ok (gis', sb') ->
    exists added,
      map entryKey gis' = map entryKey gis ++ added
      /\ Forall (fun k => idAt gis i (fst k) /\ isTriangleId m_geoms (fst k)) added.
Proof.
  intros i gis sb gis' sb' H. unfold spatialStep in H.
  inv_bind H. inv_bind H. inv_bind H.
  destruct (negb (a0 =? a1)%Z).
  - inv_bind H. destruct a2 as [gis2 sb2].
    inv_bind H. inv_bind H. inversion H; subst; clear H.
    apply clipLoop_keys in E2. destruct E2 as [added [K F]].
    rewrite entryKey_upd in K. exists added. split; [exact K|].
    eapply Forall_impl; [|exact F]. intros k [Hk T]. split; [|exact T].
    unfold idAt in *. rewrite entryKey_upd in Hk. exact Hk.
  - inv_bind H. inversion H; subst. exists []. rewrite app_nil_r. auto.
Qed.

Lemma spatialLoop_keys :
  forall n i gis sb gis' sb',
    i + n <= length gis ->
    spatialLoop m_geoms bboxAllGeoms bboxCentroids dim buckets bucketSize
                n i (gis, sb) = Ok (gis', sb') ->
    exists added,
      map entryKey gis' = map entryKey gis ++ added
      /\ Forall (fun k => (exists j, i <= j < i + n /\ idAt gis j (fst k))
                          /\ isTriangleId m_geoms (fst k)) added.
Proof.
  induction n as [|n IH]; intros i gis sb gis' sb' L H; cbn [spatialLoop] in H.
  - inversion H; subst. exists []. rewrite app_nil_r. auto.
  - inv_bind H. destruct a as [gis1 sb1].
    apply spatialStep_keys in E. destruct E as [added1 [K1 F1]].
    assert (L1 : length gis1 = length gis + length added1).
    { apply (f_equal (@length _)) in K1.
      rewrite length_app, !length_map in K1. exact K1. }
    apply IH in H; [|lia]. destruct H as [added2 [K2 F2]].
    exists (added1 ++ added2). split.
    + rewrite K2, K1, app_assoc. reflexivity.
    + apply Forall_app. split.
      * eapply Forall_impl; [|exact F1]. intros k [Hk T]. split; [|exact T].
        exists i. split; [lia | exact Hk].
      * eapply Forall_impl; [|exact F2]. intros k [[j [Hj Hk]] T].
        split; [|exact T]. exists j. split; [lia|].
        unfold idAt in *. rewrite K1, map_app in Hk.
        rewrite nth_error_app1 in Hk; [exact Hk|].
        rewrite !length_map. lia.
Qed.

End ClipAppends.

Lemma nth_error_slice_In {A : Type} (l : list A) (i n j : nat) (x : A) :
  i <= j < i + n -> nth_error l j = Some x -> In x (slice i (i + n) l).
Proof.
  intros Hj H. unfold slice. replace (i + n - i) with n by lia.
  apply (@nth_error_In _ _ (j - i)).
  rewrite nth_error_firstn.
  destruct (Nat.ltb_spec (j - i) n) as [_|C]; [|lia].
  rewrite nth_error_skipn. replace (i + (j - i)) with j by lia. exact H.
Qed.

(** X22: the clipping loop of lines 152-297 over a range inside the working
    vector, whenever it passes its assertions, never shortens the
    vector and never changes the primitive id or the box of an entry
    already there; every entry it appends carries the id of an entry of
    the range, and that id names a triangle.  This holds with two
    vertices below a plane or with one, whatever the unassigned vectors
    hold. *)
Theorem spatialLoop_only_appends :
  forall (m_geoms : list Geometry) (bboxAllGeoms bboxCentroids : BBox)
         (dim : EAxis.t) (buckets : list BucketInfo) (bucketSize : flt)
         (n i : nat) (gis gis' : list SBVHGeometryInfo)
         (sb sb' : list BucketInfo),
    i + n <= length gis ->
    spatialLoop m_geoms bboxAllGeoms bboxCentroids dim buckets bucketSize
                n i (gis, sb) = Ok (gis', sb') ->
    length gis <= length gis'
    /\ map entryKey (firstn (length gis) gis') = map entryKey gis
    /\ Forall (fun a => In (geometryId a) (map geometryId (slice i (i + n) gis))
                        /\ isTriangleId m_geoms (geometryId a))
              (skipn (length gis) gis').
Proof.
  intros geoms bA bC dim buckets bucketSize n i gis gis' sb sb' L H.
  apply spatialLoop_keys in H; [|exact L]. destruct H as [added [K F]].
  assert (Ll : length gis' = length gis + length added).
  { apply (f_equal (@length _)) in K.
    rewrite length_app, !length_map in K. exact K. }
  split; [lia|]. split.
  - rewrite <- firstn_map, K.
    rewrite firstn_app, length_map, Nat.sub_diag. cbn [firstn].
    rewrite app_nil_r. rewrite <- (length_map entryKey gis). apply firstn_all.
  - assert (Ks : map entryKey (skipn (length gis) gis') = added).
    { rewrite <- skipn_map, K.
      rewrite skipn_app, length_map, Nat.sub_diag. cbn [skipn].
      rewrite <- (length_map entryKey gis), skipn_all. reflexivity. }
    rewrite <- Ks in F. rewrite Forall_map in F.
    eapply Forall_impl; [|exact F]. intros a [[j [Hj Hk]] T].
    cbn [entryKey fst] in *. split; [|exact T].
    rewrite <- entryKey_id in Hk.
    rewrite nth_error_map in Hk.
    destruct (nth_error gis j) as [gj|] eqn:Ej; [|discriminate].
    cbn [option_map] in Hk. injection Hk as Hid. rewrite <- Hid.
    apply in_map. eapply nth_error_slice_In; eauto.
Qed.

(* ================================================================== *)
(** ** What the spatial branch leaves in the working vector
       (lines 137-380) *)
(* ================================================================== *)

Lemma removeStraddling_In (range : list SBVHGeometryInfo) (gi : SBVHGeometryInfo) :
  In gi (removeStraddling range) -> In gi range.
Proof.
  unfold removeStraddling, remove_if. intros H.
  apply in_app_or in H. destruct H as [H | H].
  - apply filter_In in H. apply H.
  - rewrite <- (firstn_skipn (length (filter (fun x => negb (straddling x)) range))
                             range).
    apply in_or_app. right. exact H.
Qed.

(** X20: the spatial branch up to the decision of line 382 (lines 137-380),
    run on the range [first, last) of the working vector.  The entries
    before and behind the range keep their primitive ids and their
    boxes, and the vector does not get shorter; every entry the branch
    leaves in the range carries the id of an entry that was in the
    range, so that no primitive of another range enters it; and when
    the object candidate wins, the range keeps its ids and boxes, in
    order. *)
Theorem spatialCandidate_frame :
  forall (m_geoms : list Geometry) (pre range post : list SBVHGeometryInfo)
         (bboxAllGeoms bboxCentroids : BBox) (dim : EAxis.t)
         (geomInfos2 : list SBVHGeometryInfo) (st : SplitState),
    let first := length pre in
    let last := length pre + length range in
    spatialCandidate m_geoms (pre ++ range ++ post) first last
                     bboxAllGeoms bboxCentroids dim = Ok (geomInfos2, st) ->
    length (pre ++ range ++ post) <= length geomInfos2
    /\ map entryKey (firstn first geomInfos2) = map entryKey pre
    /\ map entryKey (slice last (last + length post) geomInfos2) = map entryKey post
    /\ Forall (fun gi => In (geometryId gi) (map geometryId range))
              (slice first last geomInfos2)
    /\ (isSpatialSplit st = false ->
        map entryKey (slice first last geomInfos2) = map entryKey range).
Proof.
  intros geoms pre range post bA bC dim gis2 st first last H.
  unfold spatialCandidate in H. inv_bind H. inv_bind H.
  destruct a0 as [gis1 sb].
  apply spatialLoop_keys in E0;
    [|subst first last; rewrite !length_app; lia].
  destruct E0 as [added [K _]].
  rewrite !map_app, <- !app_assoc in K.
  apply map_eq_app in K. destruct K as [pre1 [r1 [-> [Kpre K]]]].
  apply map_eq_app in K. destruct K as [range1 [r2 [-> [Krange K]]]].
  apply map_eq_app in K. destruct K as [post1 [add1 [-> [Kpost _]]]].
  assert (Lpre : length pre1 = first)
    by (apply (f_equal (@length _)) in Kpre; rewrite !length_map in Kpre; exact Kpre).
  assert (Lrange : length range1 = length range)
    by (apply (f_equal (@length _)) in Krange; rewrite !length_map in Krange;
        exact Krange).
  assert (Lpost : length post1 = length post)
    by (apply (f_equal (@length _)) in Kpost; rewrite !length_map in Kpost;
        exact Kpost).
  set (kept := if isSpatialSplit
                    (findCandidate a sb (one / GetSurfaceArea bA)%flt)
               then removeStraddling range1 else range1).
  assert (Lkept : length kept = length range)
    by (subst kept; destruct (isSpatialSplit _);
        rewrite ?removeStraddling_length; exact Lrange).
  assert (E2 : gis2 = pre1 ++ kept ++ post1 ++ add1
               /\ st = findCandidate a sb (one / GetSurfaceArea bA)%flt).
  { subst first last. rewrite <- Lpre, <- Lrange in H.
    rewrite slice_decomposed, splice_decomposed in H.
    subst kept. destruct (isSpatialSplit _); inversion H; auto. }
  destruct E2 as [-> Est].
  assert (S1 : slice first last (pre1 ++ kept ++ post1 ++ add1) = kept).
  { subst first last. rewrite <- Lpre, <- Lkept. apply slice_decomposed. }
  assert (S2 : slice last (last + length post) (pre1 ++ kept ++ post1 ++ add1)
               = post1).
  { replace last with (length (pre1 ++ kept))
      by (rewrite length_app; subst first last; lia).
    rewrite <- Lpost.
    replace (pre1 ++ kept ++ post1 ++ add1) with ((pre1 ++ kept) ++ post1 ++ add1)
      by (rewrite <- app_assoc; reflexivity).
    apply slice_decomposed. }
  rewrite S1, S2.
  split; [rewrite !length_app in *; lia|].
  split.
  { rewrite <- Lpre, firstn_app, firstn_all, Nat.sub_diag. cbn [firstn].
    rewrite app_nil_r. exact Kpre. }
  split; [exact Kpost|].
  split.
  - apply Forall_forall. intros gi Hin.
    assert (Hin1 : In gi range1).
    { subst kept. destruct (isSpatialSplit _); [|exact Hin].
      apply removeStraddling_In. exact Hin. }
    rewrite (entryKey_id range), <- Krange, <- entryKey_id.
    apply in_map. exact Hin1.
  - intros Hs. subst kept. rewrite <- Est, Hs. exact Krange.
Qed.


(* ================================================================== *)
(** ** The bucket of a centroid (lines 139-141, 442-444) *)
(* ================================================================== *)

Lemma to_int_floor (q : Q) : (0 <= q)%Q -> to_int (Fin q) = Qfloor q.
Proof.
  destruct q as [n d]. unfold to_int, Qfloor, Qle. cbn. intros H.
  apply Z.quot_div_nonneg; lia.
Qed.

Lemma FLT_MAX_large : (12 <= FLT_MAX)%Q.
Proof. unfold Qle. vm_compute. discriminate. Qed.

(** Within [FLT_MAX] an operation returns its exact result. *)
Lemma fin_in_range (q : Q) :
  (- FLT_MAX <= q)%Q -> (q <= FLT_MAX)%Q -> fin q = Fin (Qred q).
Proof.
  intros L H. unfold fin, Qltb. cbv zeta.
  assert (A : Qle_bool (Qred q) FLT_MAX = true)
    by (apply Qle_bool_iff; rewrite Qred_correct; exact H).
  assert (B : Qle_bool (- FLT_MAX) (Qred q) = true)
    by (apply Qle_bool_iff; rewrite Qred_correct; exact L).
  rewrite A, B. reflexivity.
Qed.

Lemma fin_finite (q : Q) :
  is_finite (fin q) = true -> (- FLT_MAX <= q)%Q /\ (q <= FLT_MAX)%Q.
Proof.
  unfold fin, Qltb. cbv zeta.
  destruct (Qle_bool (Qred q) FLT_MAX) eqn:A; cbn [negb]; [|discriminate].
  destruct (Qle_bool (- FLT_MAX) (Qred q)) eqn:B; cbn [negb]; [|discriminate].
  intros _. apply Qle_bool_iff in A, B. rewrite Qred_correct in A, B.
  split; assumption.
Qed.

Lemma sub_finite (a b : Q) :
  is_finite (Fin a - Fin b)%flt = true ->
  (- FLT_MAX <= a - b)%Q /\ (a - b <= FLT_MAX)%Q.
Proof.
  unfold Flt.sub, Flt.neg, Flt.add. intros H. apply fin_finite in H.
  rewrite Qred_correct in H. exact H.
Qed.

Lemma sub_finite_left (x y : flt) :
  is_finite (x - y)%flt = true -> is_finite x = true.
Proof.
  destruct x as [|s|p]; [| |reflexivity];
    destruct y as [|s'|q]; try discriminate.
  unfold Flt.sub, Flt.neg, Flt.add.
  destruct (Bool.eqb s (negb s')); discriminate.
Qed.

(** The bucket of a coordinate [c] between the bounds [lo < hi] of the
    centroid box, when [hi - lo] does not overflow: between 0 and
    [NUM_BUCKET], 0 at the lower bound and [NUM_BUCKET] at the upper
    bound. *)
Lemma bucket_scalar (lo hi c : Q) :
  (lo < hi)%Q -> (lo <= c)%Q -> (c <= hi)%Q -> (hi - lo <= FLT_MAX)%Q ->
  let b := to_int (of_int NUM_BUCKET * ((Fin c - Fin lo) / (Fin hi - Fin lo)))%flt in
  (0 <= b <= 12)%Z /\ ((c == lo)%Q -> b = 0%Z) /\ ((c == hi)%Q -> b = 12%Z).
Proof.
  intros Hlt Hlo Hhi Hmax. cbv zeta.
  pose proof FLT_MAX_large as M.
  unfold Flt.sub, Flt.neg, Flt.add, of_int.
  rewrite (@fin_in_range (c + Qred (- lo)))
    by (rewrite Qred_correct; lra).
  rewrite (@fin_in_range (hi + Qred (- lo)))
    by (rewrite Qred_correct; lra).
  unfold Flt.div, Qis0.
  set (x := Qred (c + Qred (- lo))).
  set (d := Qred (hi + Qred (- lo))).
  assert (Ex : (x == c - lo)%Q) by (subst x; rewrite !Qred_correct; reflexivity).
  assert (Ed : (d == hi - lo)%Q) by (subst d; rewrite !Qred_correct; reflexivity).
  assert (Dpos : (0 < d)%Q) by (rewrite Ed; lra).
  assert (Dnz : Qeq_bool d 0 = false).
  { destruct (Qeq_bool d 0) eqn:E; [|reflexivity].
    apply Qeq_bool_iff in E. rewrite E in Dpos. lra. }
  rewrite Dnz.
  assert (Y0 : (0 <= x / d)%Q)
    by (apply Qle_shift_div_l; [exact Dpos | rewrite Ex; lra]).
  assert (Y1 : (x / d <= 1)%Q)
    by (apply Qle_shift_div_r; [exact Dpos | rewrite Ex, Ed; lra]).
  rewrite (@fin_in_range (x / d)) by lra.
  unfold Flt.mul.
  rewrite (@fin_in_range (inject_Z NUM_BUCKET * Qred (x / d)))
    by (rewrite Qred_correct; change (inject_Z NUM_BUCKET) with 12%Q; lra).
  set (q := Qred (inject_Z NUM_BUCKET * Qred (x / d))).
  assert (Eq : (q == 12 * (x / d))%Q)
    by (subst q; rewrite !Qred_correct; reflexivity).
  assert (Q0 : (0 <= q)%Q) by (rewrite Eq; lra).
  assert (Q1 : (q <= 12)%Q) by (rewrite Eq; lra).
  rewrite to_int_floor by exact Q0.
  split; [|split].
  - split.
    + change 0%Z with (Qfloor (inject_Z 0)). apply Qfloor_resp_le. exact Q0.
    + change 12%Z with (Qfloor (inject_Z 12)). apply Qfloor_resp_le. exact Q1.
  - intros E. assert (Eq0 : (q == 0)%Q).
    { rewrite Eq.
      assert (X0 : (x == 0)%Q) by (rewrite Ex, E; lra).
      rewrite X0. unfold Qdiv. lra. }
    rewrite (Qfloor_comp _ _ Eq0). reflexivity.
  - intros E. assert (Eq12 : (q == 12)%Q).
    { rewrite Eq.
      assert (X1 : (x == d)%Q) by (rewrite Ex, Ed, E; lra).
      rewrite X1. unfold Qdiv. rewrite Qmult_inv_r; [lra|].
      intros C. rewrite C in Dpos. lra. }
    rewrite (Qfloor_comp _ _ Eq12). reflexivity.
Qed.

Lemma ltb_asym (a b : flt) : (a <? b)%flt = true -> (b <? a)%flt = false.
Proof.
  intros H. destruct (b <? a)%flt eqn:E; [|reflexivity].
  pose proof (@ltb_trans _ _ _ H E) as C. rewrite ltb_irrefl in C. discriminate.
Qed.

Lemma finite_not_NaN (x : flt) : is_finite x = true -> x <> NaN.
Proof. destruct x; simpl; congruence. Qed.

Section Extremes.
Variable f : SBVHGeometryInfo -> flt.

(** The running minimum of lines 82-84 on one axis. *)
Lemma min_fold_spec (range : list SBVHGeometryInfo) :
  Forall (fun gi => is_finite (f gi) = true) range ->
  forall acc, acc <> NaN ->
    let m := fold_left (fun m gi => Flt.min m (f gi)) range acc in
    (m = acc \/ exists gi, In gi range /\ m = f gi)
    /\ (acc <? m)%flt = false
    /\ Forall (fun gi => (f gi <? m)%flt = false) range.
Proof.
  induction 1 as [|x range Hx _ IH]; intros acc Hacc; cbn [fold_left].
  - split; [left; reflexivity|]. split; [apply ltb_irrefl | constructor].
  - pose proof (@finite_not_NaN _ Hx) as Nx.
    assert (Hacc' : Flt.min acc (f x) <> NaN)
      by (unfold Flt.min; destruct (f x <? acc)%flt; assumption).
    destruct (IH (Flt.min acc (f x)) Hacc') as [Hm [Hle Hall]].
    set (m := fold_left (fun m gi => Flt.min m (f gi)) range (Flt.min acc (f x))) in *.
    unfold Flt.min in Hm, Hle.
    destruct (f x <? acc)%flt eqn:E.
    + split; [|split].
      * right. destruct Hm as [-> | [gi [Hin ->]]].
        -- exists x. split; [left; reflexivity | reflexivity].
        -- exists gi. split; [right; exact Hin | reflexivity].
      * destruct (acc <? m)%flt eqn:C; [|reflexivity].
        rewrite (@ltb_trans _ _ _ E C) in Hle. discriminate.
      * constructor; [exact Hle | exact Hall].
    + split; [|split].
      * destruct Hm as [-> | [gi [Hin ->]]]; [left; reflexivity|].
        right. exists gi. split; [right; exact Hin | reflexivity].
      * exact Hle.
      * constructor; [|exact Hall].
        destruct (f x <? m)%flt eqn:C; [|reflexivity].
        destruct (@ltb_cotrans _ _ acc C Hacc); congruence.
Qed.

(** The running maximum. *)
Lemma max_fold_spec (range : list SBVHGeometryInfo) :
  Forall (fun gi => is_finite (f gi) = true) range ->
  forall acc, acc <> NaN ->
    let m := fold_left (fun m gi => Flt.max m (f gi)) range acc in
    (m = acc \/ exists gi, In gi range /\ m = f gi)
    /\ (m <? acc)%flt = false
    /\ Forall (fun gi => (m <? f gi)%flt = false) range.
Proof.
  induction 1 as [|x range Hx _ IH]; intros acc Hacc; cbn [fold_left].
  - split; [left; reflexivity|]. split; [apply ltb_irrefl | constructor].
  - pose proof (@finite_not_NaN _ Hx) as Nx.
    assert (Hacc' : Flt.max acc (f x) <> NaN)
      by (unfold Flt.max; destruct (acc <? f x)%flt; assumption).
    destruct (IH (Flt.max acc (f x)) Hacc') as [Hm [Hle Hall]].
    set (m := fold_left (fun m gi => Flt.max m (f gi)) range (Flt.max acc (f x))) in *.
    unfold Flt.max in Hm, Hle.
    destruct (acc <? f x)%flt eqn:E.
    + split; [|split].
      * right. destruct Hm as [-> | [gi [Hin ->]]].
        -- exists x. split; [left; reflexivity | reflexivity].
        -- exists gi. split; [right; exact Hin | reflexivity].
      * destruct (m <? acc)%flt eqn:C; [|reflexivity].
        rewrite (@ltb_trans _ _ _ C E) in Hle. discriminate.
      * constructor; [exact Hle | exact Hall].
    + split; [|split].
      * destruct Hm as [-> | [gi [Hin ->]]]; [left; reflexivity|].
        right. exists gi. split; [right; exact Hin | reflexivity].
      * exact Hle.
      * constructor; [|exact Hall].
        destruct (m <? f x)%flt eqn:C; [|reflexivity].
        destruct (@ltb_cotrans _ _ acc C Hacc); congruence.
Qed.
End Extremes.

Lemma vget_min_union (b : BBox) (p : vec3) (a : EAxis.t) :
  vget (m_min (BBoxUnionPoint b p)) a = Flt.min (vget (m_min b) a) (vget p a).
Proof. destruct a; reflexivity. Qed.

Lemma vget_max_union (b : BBox) (p : vec3) (a : EAxis.t) :
  vget (m_max (BBoxUnionPoint b p)) a = Flt.max (vget (m_max b) a) (vget p a).
Proof. destruct a; reflexivity. Qed.

Lemma centroidBox_min (a : EAxis.t) (range : list SBVHGeometryInfo) :
  forall b,
    vget (m_min (fold_left (fun b gi => BBoxUnionPoint b (m_centroid (bbox gi)))
                           range b)) a
    = fold_left (fun m gi => Flt.min m (vget (m_centroid (bbox gi)) a)) range
                (vget (m_min b) a).
Proof.
  induction range as [|gi range IH]; intros b; cbn [fold_left]; [reflexivity|].
  rewrite IH, vget_min_union. reflexivity.
Qed.

Lemma centroidBox_max (a : EAxis.t) (range : list SBVHGeometryInfo) :
  forall b,
    vget (m_max (fold_left (fun b gi => BBoxUnionPoint b (m_centroid (bbox gi)))
                           range b)) a
    = fold_left (fun m gi => Flt.max m (vget (m_centroid (bbox gi)) a)) range
                (vget (m_max b) a).
Proof.
  induction range as [|gi range IH]; intros b; cbn [fold_left]; [reflexivity|].
  rewrite IH, vget_max_union. reflexivity.
Qed.

Lemma vfinite_vget (v : vec3) (a : EAxis.t) :
  vfinite v = true -> is_finite (vget v a) = true.
Proof.
  intros H. apply vfinite_components in H. destruct a; cbn [vget]; tauto.
Qed.

Lemma vget_Offset (b : BBox) (p : vec3) (a : EAxis.t) :
  vget (Offset b p) a
  = if (vget (m_max b) a >? vget (m_min b) a)%flt
    then ((vget p a - vget (m_min b) a) / (vget (m_max b) a - vget (m_min b) a))%flt
    else (vget p a - vget (m_min b) a)%flt.
Proof. destruct a; reflexivity. Qed.

(** The bounds of the centroid box of a non-empty range of finite
    centroids on an axis where the box is not degenerate, and what they
    mean for the bucket indices. *)
Lemma vget_vsub (p q : vec3) (a : EAxis.t) :
  vget (vsub p q) a = (vget p a - vget q a)%flt.
Proof. destruct a; reflexivity. Qed.

Lemma finiteSpread_spec (range : list SBVHGeometryInfo) :
  finiteSpread range = true ->
  forall gi gj a, In gi range -> In gj range ->
    is_finite (vget (m_centroid (bbox gi)) a - vget (m_centroid (bbox gj)) a)%flt
    = true.
Proof.
  unfold finiteSpread, spreadFinite. intros H gi gj a Hi Hj.
  rewrite forallb_forall in H.
  specialize (H _ (in_map (fun gi => m_centroid (bbox gi)) _ _ Hi)).
  rewrite forallb_forall in H.
  specialize (H _ (in_map (fun gi => m_centroid (bbox gi)) _ _ Hj)).
  rewrite <- vget_vsub. apply vfinite_vget. exact H.
Qed.

Lemma spreadFinite_incl (ps qs : list vec3) :
  incl ps qs -> spreadFinite qs = true -> spreadFinite ps = true.
Proof.
  unfold spreadFinite. intros I H. rewrite forallb_forall in *.
  intros p Hp. rewrite forallb_forall. intros q Hq.
  specialize (H p (I p Hp)). rewrite forallb_forall in H. apply H, I, Hq.
Qed.

Lemma finiteSpread_incl (range range' : list SBVHGeometryInfo) :
  incl range' range -> finiteSpread range = true -> finiteSpread range' = true.
Proof.
  intros I. apply spreadFinite_incl. intros p Hp.
  apply in_map_iff in Hp. destruct Hp as [gi [<- Hin]].
  apply (in_map (fun gi => m_centroid (bbox gi))). apply I. exact Hin.
Qed.

Lemma finiteSpread_finiteCentroids (range : list SBVHGeometryInfo) :
  finiteSpread range = true -> finiteCentroids range.
Proof.
  intros H. apply Forall_forall. intros gi Hin.
  pose proof (fun a => sub_finite_left _ _ (@finiteSpread_spec range H gi gi a Hin Hin))
    as F.
  unfold vfinite. rewrite !andb_true_iff.
  repeat split; [apply (F EAxis.X) | apply (F EAxis.Y) | apply (F EAxis.Z)].
Qed.

Lemma centroid_buckets (range : list SBVHGeometryInfo) (dim : EAxis.t) :
  range <> [] -> finiteSpread range = true ->
  let bboxCentroids := centroidBoxOfRange range in
  (vget (m_max bboxCentroids) dim ==? vget (m_min bboxCentroids) dim)%flt = false ->
  Forall (fun gi => (0 <= centroidBucket bboxCentroids dim gi <= 12)%Z) range
  /\ (exists gi, In gi range /\ centroidBucket bboxCentroids dim gi = 0%Z)
  /\ (exists gi, In gi range /\ centroidBucket bboxCentroids dim gi = 12%Z).
Proof.
  intros Hne Hspread bC Hdeg.
  pose proof (finiteSpread_finiteCentroids _ Hspread) as Hfin.
  set (f := fun gi : SBVHGeometryInfo => vget (m_centroid (bbox gi)) dim).
  assert (Ff : Forall (fun gi => is_finite (f gi) = true) range).
  { eapply Forall_impl; [|exact Hfin]. intros gi Hgi. apply vfinite_vget. exact Hgi. }
  assert (Emin : vget (m_min bC) dim
                 = fold_left (fun m gi => Flt.min m (f gi)) range INFINITY).
  { subst bC. unfold centroidBoxOfRange. rewrite centroidBox_min.
    destruct dim; reflexivity. }
  assert (Emax : vget (m_max bC) dim
                 = fold_left (fun m gi => Flt.max m (f gi)) range (Inf true)).
  { subst bC. unfold centroidBoxOfRange. rewrite centroidBox_max.
    destruct dim; reflexivity. }
  destruct (@min_fold_spec f range Ff INFINITY ltac:(discriminate))
    as [Hm [_ Hmall]].
  destruct (@max_fold_spec f range Ff (Inf true) ltac:(discriminate))
    as [HM [_ HMall]].
  rewrite <- Emin in Hm, Hmall. rewrite <- Emax in HM, HMall.
  destruct range as [|g0 range0] eqn:Er; [congruence|]. rewrite <- Er in *.
  assert (In0 : In g0 range) by (rewrite Er; left; reflexivity).
  assert (F0 : is_finite (f g0) = true)
    by (rewrite Forall_forall in Ff; apply Ff; exact In0).
  (* the bounds are attained *)
  destruct Hm as [Hm | [glo [Hinlo Hlo]]].
  { exfalso. rewrite Forall_forall in Hmall. specialize (Hmall g0 In0).
    rewrite Hm in Hmall. destruct (f g0); try discriminate. }
  destruct HM as [HM | [ghi [Hinhi Hhi]]].
  { exfalso. rewrite Forall_forall in HMall. specialize (HMall g0 In0).
    rewrite HM in HMall. destruct (f g0); try discriminate. }
  assert (Flo : is_finite (f glo) = true)
    by (rewrite Forall_forall in Ff; apply Ff; exact Hinlo).
  assert (Fhi : is_finite (f ghi) = true)
    by (rewrite Forall_forall in Ff; apply Ff; exact Hinhi).
  destruct (f glo) as [| |lo] eqn:Eflo; try discriminate.
  destruct (f ghi) as [| |hi] eqn:Efhi; try discriminate.
  (* every centroid lies between them *)
  assert (Between : forall gi, In gi range ->
            exists c, f gi = Fin c /\ (lo <= c)%Q /\ (c <= hi)%Q).
  { intros gi Hin. rewrite Forall_forall in Ff, Hmall, HMall.
    specialize (Ff gi Hin). specialize (Hmall gi Hin). specialize (HMall gi Hin).
    rewrite Hlo in Hmall. rewrite Hhi in HMall.
    destruct (f gi) as [| |c]; try discriminate. exists c.
    split; [reflexivity|]. cbn [Flt.ltb] in Hmall, HMall.
    unfold Qltb in Hmall, HMall. rewrite negb_false_iff in Hmall, HMall.
    apply Qle_bool_iff in Hmall, HMall. auto. }
  assert (Hlt : (lo < hi)%Q).
  { destruct (Between glo Hinlo) as [c [Ec [_ Hc]]].
    rewrite Eflo in Ec. inversion Ec; subst c.
    rewrite Hlo, Hhi in Hdeg. cbn [Flt.eqb] in Hdeg.
    apply Qeq_bool_neq in Hdeg.
    destruct (Qle_lt_or_eq _ _ Hc) as [L|L]; [exact L|].
    exfalso. apply Hdeg. symmetry. exact L. }
  assert (Hmax : (hi - lo <= FLT_MAX)%Q).
  { pose proof (@finiteSpread_spec range Hspread ghi glo dim Hinhi Hinlo) as S.
    fold (f ghi) in S. fold (f glo) in S. rewrite Efhi, Eflo in S.
    apply sub_finite in S. apply S. }
  assert (Bucket : forall gi c, f gi = Fin c ->
            centroidBucket bC dim gi
            = to_int (of_int NUM_BUCKET * ((Fin c - Fin lo) / (Fin hi - Fin lo)))%flt).
  { intros gi c Ec. unfold centroidBucket, bucketOf.
    rewrite vget_Offset. rewrite Hlo, Hhi.
    assert (G : (Fin hi >? Fin lo)%flt = true)
      by (unfold Flt.gtb; cbn [Flt.ltb]; apply Qltb_lt; exact Hlt).
    rewrite G. fold (f gi). rewrite Ec. reflexivity. }
  split; [|split].
  - apply Forall_forall. intros gi Hin.
    destruct (Between gi Hin) as [c [Ec [Hc1 Hc2]]].
    rewrite (Bucket gi c Ec).
    apply (bucket_scalar Hlt Hc1 Hc2 Hmax).
  - exists glo. split; [exact Hinlo|].
    rewrite (Bucket glo lo Eflo).
    apply (bucket_scalar Hlt (Qle_refl lo) (Qlt_le_weak _ _ Hlt) Hmax). reflexivity.
  - exists ghi. split; [exact Hinhi|].
    rewrite (Bucket ghi hi Efhi).
    apply (bucket_scalar Hlt (Qlt_le_weak _ _ Hlt) (Qle_refl hi) Hmax). reflexivity.
Qed.

Lemma fillBuckets_total (bboxCentroids : BBox) (dim : EAxis.t)
    (range : list SBVHGeometryInfo) :
  Forall (fun gi => (0 <= centroidBucket bboxCentroids dim gi <= 12)%Z) range ->
  forall bs, exists bs', fillBuckets bboxCentroids dim range bs = Ok bs'.
Proof.
  induction 1 as [|gi range Hgi _ IH]; intros bs; cbn [fillBuckets].
  - eexists; reflexivity.
  - unfold clampBucket.
    destruct (Z.ltb_spec NUM_BUCKET (centroidBucket bboxCentroids dim gi)) as [C|_];
      [unfold NUM_BUCKET in C; lia|].
    cbn [bind]. unfold updBucket.
    set (w := if (centroidBucket bboxCentroids dim gi =? NUM_BUCKET)%Z
              then (NUM_BUCKET - 1)%Z else centroidBucket bboxCentroids dim gi).
    assert (Hw : (0 <= w < NUM_BUCKET)%Z).
    { subst w. unfold NUM_BUCKET.
      destruct (Z.eqb_spec (centroidBucket bboxCentroids dim gi) 12); lia. }
    destruct (Z.ltb_spec w 0) as [C|_]; [lia|].
    destruct (Z.leb_spec NUM_BUCKET w) as [C|_]; [lia|].
    cbn [orb bind]. apply IH.
Qed.

Lemma list_eq_dec_nil {A : Type} (l : list A) : l = [] \/ l <> [].
Proof. destruct l; [left; reflexivity | right; discriminate]. Qed.

(** X23: for a range in which no difference of two centroid coordinates
    overflows and whose centroid box is not degenerate on the split
    axis, every bucket index computed at lines 139 and 442 lies between
    0 and [NUM_BUCKET]: the assertion holds, no bucket is indexed out of
    range, and the bucket loop ends with its twelve buckets. *)
Theorem object_buckets_never_fault :
  forall (range : list SBVHGeometryInfo),
    finiteSpread range = true ->
    degenerateCentroids range = false ->
    let bboxCentroids := centroidBoxOfRange range in
    let dim := BBoxMaximumExtent bboxCentroids in
    Forall (fun gi => (0 <= centroidBucket bboxCentroids dim gi <= NUM_BUCKET)%Z) range
    /\ exists buckets,
         fillBuckets bboxCentroids dim range new_buckets = Ok buckets
         /\ length buckets = Z.to_nat NUM_BUCKET.
Proof.
  intros range Hfin Hdeg bC dim.
  assert (B : Forall (fun gi => (0 <= centroidBucket bC dim gi <= 12)%Z) range).
  { destruct (list_eq_dec_nil range) as [->|Hne]; [constructor|].
    apply (@centroid_buckets range dim Hne Hfin Hdeg). }
  split; [exact B|].
  destruct (@fillBuckets_total _ _ _ B new_buckets) as [buckets Hb].
  exists buckets. split; [exact Hb|].
  apply (@fillBuckets_sides bC dim 0) in Hb; [|reflexivity]. apply Hb.
Qed.


(* ================================================================== *)
(** ** The SAH split leaves no side empty, and the build returns *)
(* ================================================================== *)

Lemma scanMinCost_bucket (c0 : flt) (rest : list flt) :
  (0 <= snd (scanMinCost (c0 :: rest)) < Z.of_nat (length (c0 :: rest)))%Z.
Proof.
  unfold scanMinCost.
  pose proof (@scan_invariant rest [c0] c0 0 eq_refl) as H.
  cbn [length Z.of_nat firstn app] in H.
  specialize (H ltac:(constructor; [apply ltb_irrefl | constructor])
                ltac:(constructor)).
  change (Z.of_nat 1) with 1%Z in H. change (Z.of_nat 0) with 0%Z in H.
  destruct (fold_left _ rest _) as [[m b] i]. cbn [fst snd].
  destruct H as [Hb [Hi [Hn _]]].
  assert (L : Z.to_nat b < length (c0 :: rest))
    by (apply nth_error_Some; congruence).
  lia.
Qed.

Lemma filter_In_length {A : Type} (p : A -> bool) (l : list A) (x : A) :
  In x l -> p x = true -> 1 <= length (filter p l).
Proof.
  intros Hin Hp.
  assert (H : In x (filter p l)) by (apply filter_In; auto).
  destruct (filter p l); [destruct H | simpl; lia].
Qed.

Section SAHSplit.
Variable m_maxGeomsInNode : Z.
Variable m_geoms : list Geometry.

Lemma chooseSplit_SAH_sides (pre range post : list SBVHGeometryInfo)
    (bboxAllGeoms : BBox) :
  4 < length range ->
  finiteSpread range = true ->
  degenerateCentroids range = false ->
  let first := Z.of_nat (length pre) in
  let last := Z.of_nat (length pre + length range) in
  let bboxCentroids := centroidBoxOfRange range in
  let dim := BBoxMaximumExtent bboxCentroids in
  exists gis' split,
    chooseSplit SAH m_maxGeomsInNode m_geoms (pre ++ range ++ post) first last
                bboxAllGeoms bboxCentroids dim = Ok (gis', split)
    /\ match split with
       | None => gis' = pre ++ range ++ post
       | Some mid => (first < mid < last)%Z
       end.
Proof.
  intros Hn Hfin Hdeg first last bC dim.
  assert (Hne : range <> []) by (intros C; rewrite C in Hn; simpl in Hn; lia).
  destruct (@centroid_buckets range dim Hne Hfin Hdeg) as [B [[glo [Hinlo Hlo]] [ghi [Hinhi Hhi]]]].
  fold bC in B, Hlo, Hhi.
  unfold chooseSplit.
  destruct (Z.leb_spec (last - first) 4) as [C|_]; [subst first last; lia|].
  subst first last. rewrite !Nat2Z.id, slice_decomposed.
  destruct (@fillBuckets_total _ _ _ B new_buckets) as [buckets Hb].
  rewrite Hb. cbn [bind].
  set (costs := map (fun i => objectSplitCostAt i buckets
                                (one / GetSurfaceArea bboxAllGeoms)%flt) boundaries).
  pose proof (scanMinCost_bucket
                (objectSplitCostAt 0 buckets (one / GetSurfaceArea bboxAllGeoms)%flt)
                (map (fun i => objectSplitCostAt i buckets
                                 (one / GetSurfaceArea bboxAllGeoms)%flt)
                     (seq 1 10))) as Hmcb.
  change (objectSplitCostAt 0 buckets (one / GetSurfaceArea bboxAllGeoms)%flt
          :: map _ (seq 1 10)) with costs in Hmcb.
  destruct (scanMinCost costs) as [minCost minCostBucket]. cbn [snd] in Hmcb.
  assert (Hlen : length costs = 11) by reflexivity. rewrite Hlen in Hmcb.
  destruct (splitsNode _ _ _).
  - pose proof (filter_length (inNearHalf bC dim minCostBucket) range) as FL.
    assert (K1 : 1 <= length (filter (inNearHalf bC dim minCostBucket) range)).
    { apply (@filter_In_length _ _ _ glo Hinlo).
      unfold inNearHalf. rewrite Hlo. apply Z.leb_le. cbn. lia. }
    assert (K2 : 1 <= length (filter (fun x => negb (inNearHalf bC dim minCostBucket x))
                                     range)).
    { apply (@filter_In_length _ _ _ ghi Hinhi).
      unfold inNearHalf. rewrite Hhi. apply negb_true_iff, Z.leb_gt. cbn. lia. }
    unfold partition_range. do 2 eexists. split; [reflexivity|].
    cbv beta iota. lia.
  - do 2 eexists. split; reflexivity.
Qed.

End SAHSplit.

(** X24: under [SAH], for a range of more than four entries in which no
    difference of two centroid coordinates overflows and whose centroid
    box is not degenerate on the split axis, the strategy switch does
    not fault, and when it splits, [mid] lies strictly between [first]
    and [last]: both halves are non-empty. *)
Theorem SAH_split_leaves_no_side_empty :
  forall (m_maxGeomsInNode : Z) (m_geoms : list Geometry)
         (pre range post : list SBVHGeometryInfo) (bboxAllGeoms : BBox),
    4 < length range ->
    finiteSpread range = true ->
    degenerateCentroids range = false ->
    let first := Z.of_nat (length pre) in
    let last := Z.of_nat (length pre + length range) in
    let bboxCentroids := centroidBoxOfRange range in
    let dim := BBoxMaximumExtent bboxCentroids in
    exists gis' split,
      chooseSplit SAH m_maxGeomsInNode m_geoms (pre ++ range ++ post) first last
                  bboxAllGeoms bboxCentroids dim = Ok (gis', split)
      /\ match split with
         | None => gis' = pre ++ range ++ post
         | Some mid => (first < mid < last)%Z
         end.
Proof.
  intros maxG geoms pre range post bA Hn Hfin Hdeg.
  exact (@chooseSplit_SAH_sides maxG geoms pre range post bA Hn Hfin Hdeg).
Qed.


Section ObjectTotal.
Variable m_splitMethod : ESplitMethod.
Variable m_maxGeomsInNode : Z.
Variable m_geoms : list Geometry.
Hypothesis Hobject : objectSplit m_splitMethod.

Lemma chooseSplit_object_total (pre range post : list SBVHGeometryInfo)
    (bboxAllGeoms : BBox) :
  2 <= length range ->
  finiteSpread range = true ->
  degenerateCentroids range = false ->
  exists range' split,
    chooseSplit m_splitMethod m_maxGeomsInNode m_geoms (pre ++ range ++ post)
                (Z.of_nat (length pre)) (Z.of_nat (length pre + length range))
                bboxAllGeoms (centroidBoxOfRange range)
                (BBoxMaximumExtent (centroidBoxOfRange range))
    = Ok (pre ++ range' ++ post, split)
    /\ Permutation range' range
    /\ match split with
       | None => range' = range
       | Some mid =>
           exists k, mid = Z.of_nat (length pre + k) /\ 1 <= k < length range
       end.
Proof.
  intros Hn Hfin Hdeg.
  assert (Small : m_splitMethod = EqualCounts
                  \/ (Z.of_nat (length pre + length range) - Z.of_nat (length pre)
                      <= 4)%Z ->
                  exists range' split,
                    chooseSplit m_splitMethod m_maxGeomsInNode m_geoms
                      (pre ++ range ++ post)
                      (Z.of_nat (length pre)) (Z.of_nat (length pre + length range))
                      bboxAllGeoms (centroidBoxOfRange range)
                      (BBoxMaximumExtent (centroidBoxOfRange range))
                    = Ok (pre ++ range' ++ post, split)
                    /\ Permutation range' range
                    /\ match split with
                       | None => range' = range
                       | Some mid =>
                           exists k, mid = Z.of_nat (length pre + k)
                                     /\ 1 <= k < length range
                       end).
  { intros S. rewrite chooseSplit_small by exact S.
    rewrite !Nat2Z.id, slice_decomposed, splice_decomposed.
    do 2 eexists. split; [reflexivity|]. split; [apply nth_element_perm|].
    destruct (midpoint_bounds (length pre) (length range)) as [Hmid [_ Hk]].
    eexists. split; [exact Hmid | exact (Hk Hn)]. }
  destruct Hobject as [Hm | Hm]; [apply Small; left; exact Hm|].
  destruct (Nat.le_gt_cases (length range) 4) as [C|C];
    [apply Small; right; lia|].
  destruct (@chooseSplit_SAH_sides m_maxGeomsInNode m_geoms pre range post
              bboxAllGeoms C Hfin Hdeg) as [gis' [split [E B]]].
  cbv zeta in E, B. rewrite <- Hm in E.
  destruct (@chooseSplit_object m_splitMethod m_maxGeomsInNode m_geoms pre range post
              bboxAllGeoms _ _ gis' split Hobject E)
    as [range' [P [G S]]].
  subst gis'. exists range', split. split; [exact E|]. split; [exact P|].
  destruct split as [mid|]; [|exact (proj1 S)].
  destruct S as [k [-> Hk]]. exists k. split; [reflexivity | lia].
Qed.

Let build := SBVH.BuildRecursive m_splitMethod m_maxGeomsInNode m_geoms.

(** With fuel for the size of the range, the build of a non-empty range
    of valid entries returns a node when no difference of two centroid
    coordinates overflows. *)
Lemma BuildRecursive_object_total :
  forall fuel pre range post st,
    geomInfos st = pre ++ range ++ post ->
    range <> [] -> length range <= fuel ->
    validIds m_geoms range -> boxesFromInput m_geoms range ->
    finiteSpread range = true ->
    exists node st',
      build fuel (Z.of_nat (length pre)) (Z.of_nat (length pre + length range)) st
      = Ok (Some node, st').
Proof.
  unfold build.
  induction fuel as [|fuel IH]; intros pre range post st Hg Hne Hf V B Fc.
  { destruct range; [congruence | simpl in Hf; lia]. }
  cbn [SBVH.BuildRecursive].
  rewrite !Nat2Z.id.
  match goal with
  | |- exists _ _, (if ?g then _ else _) = _ =>
      assert (G : g = false)
        by (rewrite !orb_false_iff; repeat split; apply Z.ltb_ge; lia);
      rewrite G; clear G
  end.
  match goal with
  | |- exists _ _, (if ?g then _ else _) = _ =>
      assert (G : g = false)
        by (apply Z.ltb_ge; rewrite Hg, !length_app; lia);
      rewrite G; clear G
  end.
  rewrite Hg, slice_decomposed.
  assert (Hn : (Z.of_nat (length pre + length range) - Z.of_nat (length pre)
                = Z.of_nat (length range))%Z) by lia.
  rewrite Hn.
  destruct (Z.eqb_spec (Z.of_nat (length range)) 1) as [H1|H1].
  { apply makeLeaf_total; assumption. }
  destruct (degenerateCentroids range) eqn:Hdeg.
  { unfold degenerateCentroids in Hdeg. rewrite Hdeg.
    apply makeLeaf_total; assumption. }
  assert (Hdeg' := Hdeg). unfold degenerateCentroids in Hdeg'. rewrite Hdeg'.
  assert (Hn2 : 2 <= length range)
    by (destruct range as [|? [|? ?]]; simpl in *; [congruence | lia | lia]).
  destruct (@chooseSplit_object_total pre range post (bboxOfRange range) Hn2 Fc Hdeg)
    as [sorted [split [E [Hsorted Hsplit]]]].
  rewrite E. cbn [bind].
  destruct split as [mid|].
  2:{ subst sorted. rewrite slice_decomposed. apply makeLeaf_total; assumption. }
  destruct Hsplit as [k [-> Hk]].
  assert (Hlen : length sorted = length range)
    by (apply Permutation_length; exact Hsorted).
  assert (Hl1 : length (firstn k sorted) = k)
    by (rewrite length_firstn; lia).
  assert (Hl2 : length (skipn k sorted) = length range - k)
    by (rewrite length_skipn; lia).
  assert (Vs : validIds m_geoms (firstn k sorted ++ skipn k sorted)).
  { rewrite firstn_skipn. unfold validIds.
    eapply Permutation_Forall; [symmetry; exact Hsorted | exact V]. }
  apply Forall_app in Vs. destruct Vs as [V1 V2].
  assert (Bs : boxesFromInput m_geoms (firstn k sorted ++ skipn k sorted)).
  { rewrite firstn_skipn. unfold boxesFromInput.
    eapply Permutation_Forall; [symmetry; exact Hsorted | exact B]. }
  apply Forall_app in Bs. destruct Bs as [B1 B2].
  assert (Fs : forall part, incl part (firstn k sorted ++ skipn k sorted) ->
                           finiteSpread part = true).
  { intros part I. apply (@finiteSpread_incl range); [|exact Fc].
    intros x Hx. apply (Permutation_in _ Hsorted).
    rewrite <- (firstn_skipn k sorted). apply I, Hx. }
  assert (F1 : finiteSpread (firstn k sorted) = true)
    by (apply Fs, incl_appl, incl_refl).
  assert (F2 : finiteSpread (skipn k sorted) = true)
    by (apply Fs, incl_appr, incl_refl).
  (* near child *)
  set (st0 := mkBuildState (pre ++ sorted ++ post) (nodeCount st) (orderedGeoms st)).
  assert (Hg0 : geomInfos st0 = pre ++ firstn k sorted ++ skipn k sorted ++ post).
  { simpl. f_equal. rewrite app_assoc, firstn_skipn. reflexivity. }
  destruct (IH pre (firstn k sorted) (skipn k sorted ++ post) st0 Hg0)
    as [n1 [st1 E1]]; try assumption.
  { intros C. rewrite C in Hl1. simpl in Hl1. lia. }
  { lia. }
  rewrite Hl1 in E1. rewrite E1. cbn [bind].
  rewrite <- Hl1 in E1.
  apply (@BuildRecursive_object m_splitMethod m_maxGeomsInNode m_geoms Hobject
           _ _ _ _ _ _ _ Hg0 B1) in E1.
  destruct E1 as [r1 [p1 [n1' [P1 [G1 _]]]]].
  assert (Hr1 : length r1 = k) by (rewrite (Permutation_length P1); exact Hl1).
  (* far child *)
  assert (Hg1 : geomInfos st1 = (pre ++ r1) ++ skipn k sorted ++ post)
    by (rewrite G1, <- !app_assoc; reflexivity).
  destruct (IH (pre ++ r1) (skipn k sorted) post st1 Hg1)
    as [n2 [st2 E2]]; try assumption.
  { intros C. rewrite C in Hl2. simpl in Hl2. lia. }
  { lia. }
  replace (Z.of_nat (length (pre ++ r1))) with (Z.of_nat (length pre + k)) in E2
    by (rewrite length_app, Hr1; reflexivity).
  replace (Z.of_nat (length (pre ++ r1) + length (skipn k sorted)))
    with (Z.of_nat (length pre + length range)) in E2
    by (rewrite length_app, Hr1, Hl2; f_equal; lia).
  rewrite E2. cbn [bind]. eauto.
Qed.

End ObjectTotal.

Lemma finiteSpread_initGeomInfos (geoms : list Geometry) :
  spreadFinite (map (fun g => m_centroid (geom_GetBBox g)) geoms) = true ->
  finiteSpread (SBVH.initGeomInfos geoms) = true.
Proof.
  apply spreadFinite_incl. intros p Hp.
  apply in_map_iff in Hp. destruct Hp as [gi [<- Hin]].
  assert (F : Forall (fun gi => In (m_centroid (bbox gi))
                                  (map (fun g => m_centroid (geom_GetBBox g)) geoms))
                     (SBVH.initGeomInfos geoms)).
  { apply (@initGeomInfos_centroids
             (fun p => In p (map (fun g => m_centroid (geom_GetBBox g)) geoms))).
    apply Forall_forall. intros g Hg.
    apply (in_map (fun g => m_centroid (geom_GetBBox g))). exact Hg. }
  rewrite Forall_forall in F. apply F. exact Hin.
Qed.

(** X25: under [SAH], [Build] returns on every non-empty scene in which no
    difference of two centroid coordinates of the primitives' boxes
    overflows (fuel: the number of primitives). *)
Theorem SAH_build_returns :
  forall (m_maxGeomsInNode : Z) (geoms : list Geometry),
    geoms <> [] ->
    spreadFinite (map (fun g => m_centroid (geom_GetBBox g)) geoms) = true ->
    exists s, SBVH.Build SAH m_maxGeomsInNode (length geoms) geoms = Ok s.
Proof.
  intros maxG geoms Hne Hfin. unfold SBVH.Build.
  destruct (@BuildRecursive_object_total SAH maxG geoms (or_intror eq_refl)
              (length geoms) [] (SBVH.initGeomInfos geoms) []
              (mkBuildState (SBVH.initGeomInfos geoms) 0 []))
    as [node [st' E]].
  - simpl. rewrite app_nil_r. reflexivity.
  - intros C. apply (f_equal (@length _)) in C.
    rewrite initGeomInfos_length in C. destruct geoms; [congruence|discriminate].
  - rewrite initGeomInfos_length. lia.
  - apply validIds_initGeomInfos.
  - apply boxesFromInput_initGeomInfos.
  - apply finiteSpread_initGeomInfos. exact Hfin.
  - simpl in E. rewrite E. simpl. eauto.
Qed.


(* ================================================================== *)
(** ** Where the strategies coincide *)
(* ================================================================== *)

Lemma BuildRecursive_small_is_EqualCounts (m_splitMethod : ESplitMethod)
    (m_maxGeomsInNode m_maxGeomsInNode' : Z) (m_geoms : list Geometry) :
  forall fuel first last st,
    m_splitMethod = EqualCounts \/ (last - first <= 4)%Z ->
    SBVH.BuildRecursive m_splitMethod m_maxGeomsInNode m_geoms fuel first last st
    = SBVH.BuildRecursive EqualCounts m_maxGeomsInNode' m_geoms fuel first last st.
Proof.
  induction fuel as [|fuel IH]; intros first last st Hs; [reflexivity|].
  cbn [SBVH.BuildRecursive].
  destruct (Z.ltb_spec last first) as [|L1]; [reflexivity|].
  destruct (Z.ltb_spec last 0) as [|L2]; [reflexivity|].
  destruct (Z.ltb_spec first 0) as [|L3]; [reflexivity|]. cbn [orb].
  destruct (Z.of_nat (length (geomInfos st)) <? last)%Z; [reflexivity|].
  destruct (last - first =? 1)%Z; [reflexivity|].
  match goal with |- (if ?c then _ else _) = _ => destruct c end; [reflexivity|].
  rewrite !chooseSplit_small by (exact Hs || (left; reflexivity)).
  cbn [bind].
  assert (Hmid : (first <= Z.quot (first + last) 2 <= last)%Z).
  { rewrite Z.quot_div_nonneg by lia. split.
    - apply Z.div_le_lower_bound; lia.
    - apply Z.div_le_upper_bound; lia. }
  rewrite IH by (destruct Hs; [left; assumption | right; lia]).
  destruct (SBVH.BuildRecursive EqualCounts m_maxGeomsInNode' m_geoms fuel first
              (Z.quot (first + last) 2) _) as [[nearChild st1]| |]; try reflexivity.
  cbn [bind].
  rewrite IH by (destruct Hs; [left; assumption | right; lia]).
  reflexivity.
Qed.

(** X26: under [EqualCounts] the result of [Build] does not depend on
    [m_maxGeomsInNode]; and on a scene of at most four primitives
    [SAH] and [SpatialSplit_SAH] build exactly what [EqualCounts]
    builds, whatever the leaf bounds. *)
Theorem strategies_coincide_on_small_scenes :
  (forall (m_maxGeomsInNode m_maxGeomsInNode' : Z) (fuel : nat)
          (geoms : list Geometry),
      SBVH.Build EqualCounts m_maxGeomsInNode fuel geoms
      = SBVH.Build EqualCounts m_maxGeomsInNode' fuel geoms)
  /\ (forall (m_splitMethod : ESplitMethod) (m_maxGeomsInNode m_maxGeomsInNode' : Z)
             (fuel : nat) (geoms : list Geometry),
         length geoms <= 4 ->
         SBVH.Build m_splitMethod m_maxGeomsInNode fuel geoms
         = SBVH.Build EqualCounts m_maxGeomsInNode' fuel geoms).
Proof.
  split.
  - intros maxG maxG' fuel geoms. unfold SBVH.Build.
    rewrite (@BuildRecursive_small_is_EqualCounts EqualCounts maxG maxG')
      by (left; reflexivity).
    reflexivity.
  - intros m maxG maxG' fuel geoms Hn. unfold SBVH.Build.
    rewrite (@BuildRecursive_small_is_EqualCounts m maxG maxG')
      by (right; rewrite initGeomInfos_length; lia).
    reflexivity.
Qed.


(* ================================================================== *)
(** ** An empty range anywhere in the working vector *)
(* ================================================================== *)

(** X27: a call of [BuildRecursive] on an empty range [k, k) at a position
    of the working vector never returns, under any strategy and with
    any fuel: the range passes the guard and is split at [k] again. *)
Theorem BuildRecursive_empty_range_never_returns :
  forall (m_splitMethod : ESplitMethod) (m_maxGeomsInNode : Z)
         (m_geoms : list Geometry) (fuel : nat) (k : Z) (st : BuildState),
    (0 <= k <= Z.of_nat (length (geomInfos st)))%Z ->
    SBVH.BuildRecursive m_splitMethod m_maxGeomsInNode m_geoms fuel k k st
    = OutOfFuel.
Proof.
  intros m maxG geoms.
  induction fuel as [|fuel IH]; intros k st Hk; [reflexivity|].
  cbn [SBVH.BuildRecursive].
  rewrite Z.ltb_irrefl.
  destruct (Z.ltb_spec k 0) as [Hneg|_]; [lia|]. cbn [orb].
  destruct (Z.ltb_spec (Z.of_nat (length (geomInfos st))) k) as [C|_]; [lia|].
  rewrite slice_empty, Z.sub_diag.
  cbn -[SBVH.BuildRecursive chooseSplit].
  rewrite chooseSplit_small by (right; lia).
  cbn -[SBVH.BuildRecursive splice nth_element].
  replace (Z.quot (k + k) 2) with k
    by (replace (k + k)%Z with (k * 2)%Z by lia; rewrite Z.quot_mul; lia).
  rewrite slice_empty. cbn [nth_element fold_right]. rewrite splice_same.
  rewrite IH by (cbn [geomInfos]; exact Hk). reflexivity.
Qed.


(* ================================================================== *)
(** ** The candidate loop of the spatial strategy (lines 299-372) *)
(* ================================================================== *)

Lemma INFINITY_not_below (x : flt) : (INFINITY <? x)%flt = false.
Proof. destruct x as [|[|]|q]; reflexivity. Qed.

Lemma candidate_fold_bucket (buckets spatialSplitBuckets : list BucketInfo)
    (invAllGeometriesSA : flt) (l : list nat) :
  forall st,
    Forall (fun i => i <= 10) l ->
    (0 <= minSplitCostBucket st <= 10)%Z ->
    (0 <= minSplitCostBucket
            (fold_left (candidateStep buckets spatialSplitBuckets invAllGeometriesSA)
                       l st) <= 10)%Z.
Proof.
  induction l as [|i l IH]; intros st Hl Hst; cbn [fold_left]; [exact Hst|].
  inversion Hl as [|? ? Hi Hl']; subst. apply IH; [exact Hl'|].
  unfold candidateStep, selectCandidate.
  repeat match goal with
         | |- context [if ?c then _ else _] => destruct c
         end; cbn [minSplitCostBucket]; lia.
Qed.

Lemma candidate_fold_object (buckets spatialSplitBuckets : list BucketInfo)
    (invAllGeometriesSA : flt) (l : list nat) :
  forall st,
    Forall (fun i => restrictionMet i buckets invAllGeometriesSA = false) l ->
    spatialSplitCost st = INFINITY -> isSpatialSplit st = false ->
    let st' := fold_left (candidateStep buckets spatialSplitBuckets invAllGeometriesSA)
                         l st in
    spatialSplitCost st' = INFINITY /\ isSpatialSplit st' = false.
Proof.
  induction l as [|i l IH]; intros st Hl Hc Hs; cbn [fold_left]; [auto|].
  inversion Hl as [|? ? Hi Hl']; subst. apply IH; [exact Hl' | |].
  - unfold candidateStep, selectCandidate. rewrite Hi, Hc.
    repeat match goal with
           | |- context [if ?c then _ else _] => destruct c
           end; reflexivity.
  - unfold candidateStep, selectCandidate. rewrite Hi, Hc, INFINITY_not_below.
    repeat match goal with
           | |- context [if ?c then _ else _] => destruct c
           end; cbn [isSpatialSplit]; auto.
Qed.

(** X28: the candidate loop of lines 299-372 ends with a bucket between 0
    and [NUM_BUCKET - 2]; and when the overlap restriction of line 331
    is met at no boundary, the spatial cost stays at infinity and the
    spatial candidate is not selected. *)
Theorem findCandidate_spatial_needs_overlap :
  forall (buckets spatialSplitBuckets : list BucketInfo) (invAllGeometriesSA : flt),
    let st := findCandidate buckets spatialSplitBuckets invAllGeometriesSA in
    (0 <= minSplitCostBucket st <= NUM_BUCKET - 2)%Z
    /\ ((forall i, In i boundaries ->
                   restrictionMet i buckets invAllGeometriesSA = false) ->
        isSpatialSplit st = false /\ spatialSplitCost st = INFINITY).
Proof.
  intros buckets sb inv st. subst st. unfold findCandidate. split.
  - apply candidate_fold_bucket; [|cbn; lia].
    apply Forall_forall. intros i Hi. unfold boundaries in Hi.
    apply in_seq in Hi. cbn in Hi. lia.
  - intros H.
    destruct (@candidate_fold_object buckets sb inv boundaries SplitState_init)
      as [H1 H2]; auto.
    apply Forall_forall. exact H.
Qed.


(* ================================================================== *)
(** ** The tight box of a clipped triangle (lines 243-277) *)
(* ================================================================== *)

Section ClipSlab.
Variable dim : EAxis.t.
Variable plane lower : flt.
Hypothesis plane_finite : is_finite plane = true.

(** The box reaches the plane and stays above the lower plane. *)
Let inSlabBox (b : BBox) : Prop :=
  vget (m_max b) dim = plane
  /\ (vget (m_min b) dim = plane
      \/ ((lower <? vget (m_min b) dim)%flt = true
          /\ (vget (m_min b) dim <? plane)%flt = true)).

Lemma union_plane_point_default (p : vec3) :
  vget p dim = plane -> inSlabBox (BBoxUnionPoint BBox_default p).
Proof.
  intros Hp. unfold inSlabBox.
  rewrite vget_min_union, vget_max_union, Hp.
  destruct plane as [| |q]; try discriminate.
  split; [|left]; destruct dim; reflexivity.
Qed.

Lemma union_plane_point (b : BBox) (p : vec3) :
  inSlabBox b -> vget p dim = plane -> inSlabBox (BBoxUnionPoint b p).
Proof.
  intros [HM Hm] Hp. unfold inSlabBox.
  rewrite vget_min_union, vget_max_union, Hp, HM.
  unfold Flt.max, Flt.min. rewrite ltb_irrefl. split; [reflexivity|].
  destruct Hm as [-> | [H1 H2]].
  - rewrite ltb_irrefl. left; reflexivity.
  - rewrite (ltb_asym _ _ H2). right. auto.
Qed.

Lemma grow_in_slab (b : BBox) (v : vec3) :
  inSlabBox b ->
  inSlabBox (if (vget v dim >? lower)%flt && (vget v dim <? plane)%flt
             then BBoxUnionPoint b v else b).
Proof.
  intros Hb.
  destruct ((vget v dim >? lower)%flt && (vget v dim <? plane)%flt) eqn:E;
    [|exact Hb].
  apply andb_true_iff in E. destruct E as [E1 E2]. unfold Flt.gtb in E1.
  destruct Hb as [HM Hm]. unfold inSlabBox.
  rewrite vget_min_union, vget_max_union, HM.
  unfold Flt.max, Flt.min. rewrite (ltb_asym _ _ E2). split; [reflexivity|].
  right. destruct (vget v dim <? vget (m_min b) dim)%flt eqn:C; [auto|].
  destruct Hm as [Hm | Hm]; [|exact Hm].
  rewrite Hm in C. congruence.
Qed.

End ClipSlab.

Lemma vget_vset_same (v : vec3) (a : EAxis.t) (x : flt) : vget (vset v a x) a = x.
Proof. destruct a; reflexivity. Qed.

(** X29: when the clipping of a triangle against the plane behind a bucket
    passes the assertions of lines 218-219 and the plane coordinate is
    finite, then, with two vertices below the plane or with one and
    whatever the unassigned vectors hold, the tight box reaches the
    plane on the split axis (its maximum is the plane coordinate) and
    its minimum is on the plane or strictly inside the slab of the
    bucket, above [plane - bucketSize]. *)
Theorem clipTriangle_box_in_slab :
  forall (pTri : Triangle) (bboxAllGeoms : BBox) (dim : EAxis.t)
         (bucketSize : flt) (bucket : Z) (tight : BBox),
    let plane := vget (splittingPlanePoint bboxAllGeoms dim bucketSize bucket) dim in
    is_finite plane = true ->
    clipTriangle pTri bboxAllGeoms dim bucketSize bucket = Ok tight ->
    vget (m_max tight) dim = plane
    /\ (vget (m_min tight) dim = plane
        \/ ((plane - bucketSize <? vget (m_min tight) dim)%flt = true
            /\ (vget (m_min tight) dim <? plane)%flt = true)).
Proof.
  intros pTri bA dim bucketSize bucket tight plane Hfin H.
  unfold clipTriangle in H. fold plane in H.
  repeat match type of H with
         | (if ?c then Fault else _) = _ => destruct c; [discriminate|]
         end.
  match type of H with
  | (let '(_, _) := ?e in _) = _ =>
      assert (Two : exists pointAbove p0 p1, e = (pointAbove, [p0; p1]))
  end.
  { repeat match goal with
           | |- context [if ?c then _ else _] => destruct c
           end; eauto.
    destruct (unassigned pTri bA dim bucketSize bucket) as [p [q0 q1]]. eauto. }
  destruct Two as [pointAbove [p0 [p1 E]]]. rewrite E in H. clear E.
  inversion H; subst tight; clear H.
  do 3 apply (@grow_in_slab dim plane (plane - bucketSize)%flt).
  unfold BBoxFromPoints. cbn [map fold_left].
  apply (@union_plane_point dim plane (plane - bucketSize)%flt).
  - apply (@union_plane_point_default dim plane (plane - bucketSize)%flt Hfin).
    destruct dim; reflexivity.
  - destruct dim; reflexivity.
Qed.


(* ================================================================== *)
(** ** The height of a tree split at the midpoints *)
(* ================================================================== *)

Lemma BuildRecursive_midpoint_height (m_splitMethod : ESplitMethod)
    (m_maxGeomsInNode : Z) (m_geoms : list Geometry) :
  forall fuel first last st n st',
    m_splitMethod = EqualCounts \/ (last - first <= 4)%Z ->
    (0 <= first < last)%Z ->
    SBVH.BuildRecursive m_splitMethod m_maxGeomsInNode m_geoms fuel first last st
    = Ok (Some n, st') ->
    2 ^ height n <= Nat.max 1 (2 * Z.to_nat (last - first) - 2).
Proof.
  induction fuel as [|fuel IH]; intros first last st n st' Hs B H;
    [discriminate|].
  cbn [SBVH.BuildRecursive] in H.
  match type of H with
  | (if ?g then _ else _) = _ =>
      assert (G : g = false)
        by (rewrite !orb_false_iff; repeat split; apply Z.ltb_ge; lia);
      rewrite G in H; clear G
  end.
  destruct (Z.of_nat (length (geomInfos st)) <? last)%Z; [discriminate|].
  assert (Leaf : forall range k box st0,
             SBVH.makeLeaf m_geoms range k box st0 = Ok (Some n, st') ->
             2 ^ height n <= Nat.max 1 (2 * Z.to_nat (last - first) - 2)).
  { intros range k box st0 HL. apply makeLeaf_Ok in HL.
    destruct HL as [pushed [_ [E _]]]. inversion E; subst n.
    cbn [height Nat.pow]. apply Nat.le_max_l. }
  destruct (Z.eqb_spec (last - first) 1) as [_|Hne]; [eauto|].
  match type of H with (if ?c then _ else _) = _ => destruct c end; [eauto|].
  rewrite chooseSplit_small in H by exact Hs. cbn [bind] in H.
  assert (Hmid : (2 * Z.quot (first + last) 2 <= first + last
                  <= 2 * Z.quot (first + last) 2 + 1)%Z).
  { rewrite Z.quot_div_nonneg by lia.
    pose proof (Z.div_mod (first + last) 2 ltac:(lia)) as D.
    pose proof (Z.mod_pos_bound (first + last) 2 ltac:(lia)) as M. lia. }
  set (mid := Z.quot (first + last) 2) in *.
  inv_bind H. destruct a as [nearChild st1].
  inv_bind H. destruct a as [farChild st2].
  inversion H; subst n st'; clear H.
  assert (B1 : (0 <= first <= mid)%Z) by lia.
  assert (B2 : (0 <= mid <= last)%Z) by lia.
  pose proof (@BuildRecursive_not_null _ _ _ _ _ _ _ _ _ B1 E) as N1.
  pose proof (@BuildRecursive_not_null _ _ _ _ _ _ _ _ _ B2 E0) as N2.
  destruct nearChild as [n1|]; [|congruence].
  destruct farChild as [n2|]; [|congruence].
  apply IH in E; [| destruct Hs; [left; assumption | right; lia] | lia].
  apply IH in E0; [| destruct Hs; [left; assumption | right; lia] | lia].
  unfold new_SBVHNode. cbn [height]. rewrite Nat.pow_succ_r'.
  destruct (Nat.max_spec (height n1) (height n2)) as [[_ ->] | [_ ->]]; lia.
Qed.

(** X30: under [EqualCounts] the tree [Build] returns for [N] primitives
    has a height [h] (edges from the root to the deepest leaf) with
    [2 ^ h <= max 1 (2 N - 2)], hence at most the ceiling of
    [log2 N]. *)
Theorem EqualCounts_tree_is_balanced :
  forall (m_maxGeomsInNode : Z) (fuel : nat) (geoms : list Geometry) (s : SBVH.t)
         (root : SBVHNode),
    SBVH.Build EqualCounts m_maxGeomsInNode fuel geoms = Ok s ->
    SBVH.m_root s = Some root ->
    2 ^ height root <= Nat.max 1 (2 * length geoms - 2)
    /\ height root <= Nat.log2_up (length geoms).
Proof.
  intros maxG fuel geoms s root H R.
  unfold SBVH.Build in H. inv_bind H. destruct a as [root' st].
  inversion H; subst s; clear H. cbn [SBVH.m_root] in R. subst root'.
  assert (Hne : geoms <> []).
  { intros ->. cbn in E. rewrite BuildRecursive_empty in E by reflexivity.
    discriminate. }
  assert (Hlen : 0 < length geoms) by (destruct geoms; [congruence | simpl; lia]).
  apply BuildRecursive_midpoint_height in E;
    [| left; reflexivity | rewrite initGeomInfos_length; lia].
  rewrite Z.sub_0_r, Nat2Z.id, initGeomInfos_length in E.
  split; [exact E|].
  destruct (height root) as [|h] eqn:Eh; [lia|].
  rewrite Nat.pow_succ_r' in E.
  destruct (Nat.le_gt_cases (length geoms) 1) as [L1|L1].
  { replace (length geoms) with 1 in E by lia. cbn in E.
    pose proof (Nat.pow_nonzero 2 h ltac:(lia)). lia. }
  pose proof (Nat.log2_up_spec (length geoms) L1) as [_ Up].
  assert (Hh : 2 ^ h < 2 ^ Nat.log2_up (length geoms)) by lia.
  apply Nat.pow_lt_mono_r_iff in Hh; lia.
Qed.


End Properties.

(* ================================================================== *)
(** ** The assumptions are met: witnesses on concrete scenes *)
(* ================================================================== *)

(** The scenes are built with the unassigned vectors of the clipping set
    to zero. *)
#[local] Existing Instance Unassigned_zero.

Lemma C3_witness_tie_scene :
  exists buckets gis1 spatialSplitBuckets,
    rootBuckets sceneTie = Ok buckets
    /\ rootSpatialBuckets sceneTie = Ok (gis1, spatialSplitBuckets)
    /\ let inv := root_invAllGeometriesSA (rootRange sceneTie) in
       let st := candidateAfter 5 buckets spatialSplitBuckets inv in
       (objectSplitCostAt 5 buckets inv
          ==? spatialCostCompared 5 buckets spatialSplitBuckets inv st)%flt = true
       /\ candidateStep buckets spatialSplitBuckets inv st 5
          = mkSplitState (Fin (55 # 16)) 5 (Fin (55 # 16)) true.
Proof.
  assert (Hb : { b | rootBuckets sceneTie = Ok b })
    by (eexists; evaluate; reflexivity).
  destruct Hb as [buckets Hb].
  assert (Hs : { p | rootSpatialBuckets sceneTie = Ok p })
    by (eexists; evaluate; reflexivity).
  destruct Hs as [[gis1 sb] Hs].
  exists buckets, gis1, sb.
  split; [exact Hb|]. split; [exact Hs|].
  intros inv st.
  assert (Htie : (objectSplitCostAt 5 buckets inv
                    ==? spatialCostCompared 5 buckets sb inv st)%flt = true).
  { subst inv st. evaluate in Hb. evaluate in Hs.
    inversion Hb; subst buckets. inversion Hs; subst gis1 sb.
    vm_compute. reflexivity. }
  split; [exact Htie|].
  rewrite (proj1 (C3_ties_favour_spatial_split 5 buckets sb inv st) Htie).
  subst inv st. evaluate in Hb. evaluate in Hs.
  inversion Hb; subst buckets. inversion Hs; subst gis1 sb.
  vm_compute. reflexivity.
Defined.

(** C3 as stated fails on [sceneTie]: at boundary 5 the overlap
    restriction is met, the object cost and the spatial cost are both
    55/16, below the minimum 47/12 tracked so far, and the candidate
    recorded is the spatial one; it is still the winner when the loop
    ends. *)
Lemma C3_counterexample_tie_selects_spatial :
  exists buckets gis1 spatialSplitBuckets,
    rootBuckets sceneTie = Ok buckets
    /\ rootSpatialBuckets sceneTie = Ok (gis1, spatialSplitBuckets)
    /\ let inv := root_invAllGeometriesSA (rootRange sceneTie) in
       restrictionMet 5 buckets inv = true
       /\ objectSplitCostAt 5 buckets inv = Fin (55 # 16)
       /\ spatialSplitCostAt 5 buckets spatialSplitBuckets inv = Fin (55 # 16)
       /\ minSplitCost (candidateAfter 5 buckets spatialSplitBuckets inv) = Fin (47 # 12)
       /\ candidateAfter 6 buckets spatialSplitBuckets inv
          = mkSplitState (Fin (55 # 16)) 5 (Fin (55 # 16)) true
       /\ isSpatialSplit (findCandidate buckets spatialSplitBuckets inv) = true
       /\ ~ ((objectSplitCostAt 5 buckets inv
                ==? spatialSplitCostAt 5 buckets spatialSplitBuckets inv)%flt = true ->
             isSpatialSplit (candidateAfter 6 buckets spatialSplitBuckets inv) = false).
Proof.
  exact sceneTie_tie_selects_spatial.
Qed.

Lemma C6_witness_stacked_triangles :
  let c := pt 4 (1 # 2) 0 in
  2 <= length sceneStacked
  /\ vfinite c = true
  /\ Forall (fun g => veqb (m_centroid (geom_GetBBox g)) c = true) sceneStacked
  /\ SBVH.Build SpatialSplit_SAH 4 1 sceneStacked
     = Ok (SBVH.mkSBVH
             (Some (SBVHLeaf 0 0 3 (bboxOfRange (SBVH.initGeomInfos sceneStacked))))
             sceneStacked
             [SBVHLeaf 0 0 3 (bboxOfRange (SBVH.initGeomInfos sceneStacked))]).
Proof.
  intros c.
  assert (H1 : 2 <= length sceneStacked) by (evaluate; repeat constructor).
  assert (H2 : vfinite c = true) by reflexivity.
  assert (H3 : Forall (fun g => veqb (m_centroid (geom_GetBBox g)) c = true)
                      sceneStacked)
    by (repeat (constructor; [evaluate; reflexivity|]); constructor).
  split; [exact H1|]. split; [exact H2|]. split; [exact H3|].
  exact (@C6_equal_centroids_single_leaf _ SpatialSplit_SAH 4 0 sceneStacked c
           H1 H2 H3).
Defined.

Lemma C7_witness_leaf_tie_scene :
  let gis := SBVH.initGeomInfos sceneLeafTie in
  let bboxCentroids := centroidBoxOfRange gis in
  let dim := BBoxMaximumExtent bboxCentroids in
  4 < length gis
  /\ degenerateCentroids gis = false
  /\ (exists buckets, fillBuckets bboxCentroids dim gis new_buckets = Ok buckets)
  /\ chooseSplit SAH 5 sceneLeafTie gis 0 5 (bboxOfRange gis) bboxCentroids dim
     = Ok (gis, None).
Proof.
  intros gis bboxCentroids dim.
  assert (H1 : 4 < length gis) by (evaluate; repeat constructor).
  assert (H2 : degenerateCentroids gis = false) by (evaluate; reflexivity).
  assert (H3 : { buckets | fillBuckets bboxCentroids dim gis new_buckets = Ok buckets })
    by (eexists; evaluate; reflexivity).
  destruct H3 as [buckets H3].
  split; [exact H1|]. split; [exact H2|]. split; [exists buckets; exact H3|].
  destruct (@C7_SAH_leaf_iff_not_cheaper _ 5 sceneLeafTie 1 [] gis []
              (mkBuildState gis 0 []) buckets H1
              (eq_sym (app_nil_r gis)) H2 H3) as [W _].
  etransitivity; [exact W|].
  evaluate in H3. inversion H3; subst buckets.
  evaluate. reflexivity.
Defined.

(** C7 as stated fails on [sceneLeafTie] with a leaf bound of 8: the
    minimum cost over the boundaries is 5, the cost of a leaf of the
    five primitives is 5, so the minimum does not exceed the leaf cost,
    and yet the build makes a single leaf. *)
Lemma C7_counterexample_equal_cost_makes_leaf :
  exists buckets s,
    rootBuckets sceneLeafTie = Ok buckets
    /\ SBVH.Build SAH 8 1 sceneLeafTie = Ok s
    /\ ~ (rootIsLeaf s = true <->
          (fst (sahMinimum buckets (root_invAllGeometriesSA (rootRange sceneLeafTie)))
             >? leafCostOf 5)%flt = true
          /\ (5 <= 8)%Z).
Proof.
  exact sceneLeafTie_equal_cost_makes_leaf.
Qed.

Lemma C8_witness_spatial_scene :
  exists s,
    SBVH.Build SpatialSplit_SAH 4 10 sceneScalene = Ok s
    /\ forall n c, In n (SBVH.m_nodes s) -> In c (children n) ->
                   node_idx c < node_idx n.
Proof.
  assert (H : { s | SBVH.Build SpatialSplit_SAH 4 10 sceneScalene = Ok s })
    by (eexists; evaluate; reflexivity).
  destruct H as [s H]. exists s. split; [exact H|].
  exact (@C8_parent_index_above_children _ SpatialSplit_SAH 4 10 sceneScalene s H).
Defined.

Lemma C9_witness_three_triangles :
  let gis := SBVH.initGeomInfos sceneThree in
  2 <= length gis <= 4
  /\ validIds sceneThree gis
  /\ degenerateCentroids gis = false
  /\ exists node st',
       SBVH.BuildRecursive SAH 4 sceneThree 3 0 3 (mkBuildState gis 0 [])
       = Ok (Some node, st').
Proof.
  intros gis.
  assert (H1 : 2 <= length gis <= 4) by (evaluate; split; repeat constructor).
  assert (H2 : validIds sceneThree gis) by apply validIds_initGeomInfos.
  assert (H3 : degenerateCentroids gis = false) by (evaluate; reflexivity).
  split; [exact H1|]. split; [exact H2|]. split; [exact H3|].
  exact (proj2 (proj2
           (@C9_small_ranges_split_at_midpoint _ SAH 4 sceneThree [] gis []
              (mkBuildState gis 0 []) (or_introl eq_refl) H1
              (eq_sym (app_nil_r gis)) H2 H3))).
Defined.

Lemma C10_witness_three_triangles :
  sceneThree <> []
  /\ exists s,
       SBVH.Build EqualCounts 4 (length sceneThree) sceneThree = Ok s
       /\ Permutation (SBVH.m_geoms s) sceneThree
       /\ contiguous 0 (rootSpans (SBVH.m_root s)) (length sceneThree).
Proof.
  assert (Hne : sceneThree <> []) by discriminate.
  split; [exact Hne|].
  destruct (C10_equal_counts_permutation 4 sceneThree) as [Hperm [_ Htotal]].
  destruct (Htotal Hne) as [s Hs].
  exists s. split; [exact Hs|]. exact (Hperm _ _ Hs).
Defined.

Lemma Build_binary_shape_witness :
  exists s,
    SBVH.Build SpatialSplit_SAH 4 10 sceneScalene = Ok s
    /\ SBVH.m_root s <> None
    /\ forall n, In n (SBVH.m_nodes s) ->
                 length (children n) = if IsLeaf n then 0 else 2.
Proof.
  assert (H : { s | SBVH.Build SpatialSplit_SAH 4 10 sceneScalene = Ok s })
    by (eexists; evaluate; reflexivity).
  destruct H as [s H]. exists s. split; [exact H|].
  exact (@Build_binary_shape _ SpatialSplit_SAH 4 10 sceneScalene s H).
Defined.

Lemma Build_leaves_tile_reordered_list_witness :
  exists s,
    SBVH.Build SpatialSplit_SAH 4 10 sceneScalene = Ok s
    /\ length (SBVH.m_geoms s) = length sceneScalene
    /\ Forall (fun g => In g sceneScalene) (SBVH.m_geoms s)
    /\ contiguous 0 (rootSpans (SBVH.m_root s)) (length (SBVH.m_geoms s))
    /\ Forall (fun span => 1 <= snd span) (rootSpans (SBVH.m_root s)).
Proof.
  assert (H : { s | SBVH.Build SpatialSplit_SAH 4 10 sceneScalene = Ok s })
    by (eexists; evaluate; reflexivity).
  destruct H as [s H]. exists s. split; [exact H|].
  exact (@Build_leaves_tile_reordered_list _ SpatialSplit_SAH 4 10 sceneScalene s H).
Defined.

Lemma Build_indices_dense_witness :
  exists s,
    SBVH.Build SpatialSplit_SAH 4 10 sceneScalene = Ok s
    /\ Permutation (map node_idx (SBVH.m_nodes s)) (seq 0 (length (SBVH.m_nodes s)))
    /\ NoDup (map node_idx (SBVH.m_nodes s))
    /\ forall root, SBVH.m_root s = Some root ->
                    S (node_idx root) = length (SBVH.m_nodes s).
Proof.
  assert (H : { s | SBVH.Build SpatialSplit_SAH 4 10 sceneScalene = Ok s })
    by (eexists; evaluate; reflexivity).
  destruct H as [s H]. exists s. split; [exact H|].
  exact (@Build_indices_dense _ SpatialSplit_SAH 4 10 sceneScalene s H).
Defined.

Lemma Destroy_deletes_in_creation_order_witness :
  exists s,
    SBVH.Build SpatialSplit_SAH 4 10 sceneScalene = Ok s
    /\ map node_idx (SBVH.Destroy (SBVH.m_root s)) = seq 0 (length (SBVH.m_nodes s))
    /\ Permutation (SBVH.Destroy (SBVH.m_root s)) (SBVH.m_nodes s)
    /\ NoDup (SBVH.Destroy (SBVH.m_root s)).
Proof.
  assert (H : { s | SBVH.Build SpatialSplit_SAH 4 10 sceneScalene = Ok s })
    by (eexists; evaluate; reflexivity).
  destruct H as [s H]. exists s. split; [exact H|].
  exact (@Destroy_deletes_in_creation_order _ SpatialSplit_SAH 4 10 sceneScalene s H).
Defined.

Lemma Build_node_count_witness :
  exists s,
    SBVH.Build SpatialSplit_SAH 4 10 sceneScalene = Ok s
    /\ S (length (SBVH.m_nodes s)) = 2 * length (rootSpans (SBVH.m_root s))
    /\ length (rootSpans (SBVH.m_root s)) <= length sceneScalene
    /\ S (length (SBVH.m_nodes s)) <= 2 * length sceneScalene.
Proof.
  assert (H : { s | SBVH.Build SpatialSplit_SAH 4 10 sceneScalene = Ok s })
    by (eexists; evaluate; reflexivity).
  destruct H as [s H]. exists s. split; [exact H|].
  exact (@Build_node_count _ SpatialSplit_SAH 4 10 sceneScalene s H).
Defined.

Lemma Flatten_leaf_counts_sum_witness :
  exists s,
    SBVH.Build SpatialSplit_SAH 4 10 sceneScalene = Ok s
    /\ list_sum (map numGeomsOf (SBVH.m_nodes s)) = length sceneScalene.
Proof.
  assert (H : { s | SBVH.Build SpatialSplit_SAH 4 10 sceneScalene = Ok s })
    by (eexists; evaluate; reflexivity).
  destruct H as [s H]. exists s. split; [exact H|].
  exact (@Flatten_leaf_counts_sum _ SpatialSplit_SAH 4 10 sceneScalene s H).
Defined.

Lemma Build_queries_test_candidates_witness :
  exists s,
    SBVH.Build SpatialSplit_SAH 4 10 sceneScalene = Ok s
    /\ forall (DoesIntersectBBox : BBox -> Ray -> bool) (r : Ray),
         let tested :=
           candidates DoesIntersectBBox (SBVH.m_geoms s) r (SBVH.m_root s) in
         SBVH.GetIntersection DoesIntersectBBox (SBVH.m_geoms s) r (SBVH.m_root s)
         = Ok (snd (SBVH.bruteForce r tested))
         /\ SBVH.DoesIntersect DoesIntersectBBox (SBVH.m_geoms s) r (SBVH.m_root s)
            = Ok (existsb (hitAhead r) tested)
         /\ forall g, In g tested -> In g sceneScalene.
Proof.
  assert (H : { s | SBVH.Build SpatialSplit_SAH 4 10 sceneScalene = Ok s })
    by (eexists; evaluate; reflexivity).
  destruct H as [s H]. exists s. split; [exact H|].
  exact (@Build_queries_test_candidates _ SpatialSplit_SAH 4 10 sceneScalene s H).
Defined.

Lemma Build_queries_agree_witness :
  exists s,
    SBVH.Build SpatialSplit_SAH 4 10 sceneScalene = Ok s
    /\ forall (DoesIntersectBBox : BBox -> Ray -> bool) (r : Ray),
         let nearest :=
           SBVH.GetIntersection DoesIntersectBBox (SBVH.m_geoms s) r (SBVH.m_root s) in
         let any :=
           SBVH.DoesIntersect DoesIntersectBBox (SBVH.m_geoms s) r (SBVH.m_root s) in
         (any = Ok false \/ any = Ok true)
         /\ (any = Ok false -> nearest = Ok Intersection_default)
         /\ (any = Ok true ->
             (forall g, In g sceneScalene ->
                        isx_t (geom_GetIntersection g r) <> INFINITY) ->
             exists g, In g sceneScalene /\ hitAhead r g = true
                       /\ nearest = Ok (geom_GetIntersection g r)).
Proof.
  assert (H : { s | SBVH.Build SpatialSplit_SAH 4 10 sceneScalene = Ok s })
    by (eexists; evaluate; reflexivity).
  destruct H as [s H]. exists s. split; [exact H|].
  exact (@Build_queries_agree _ SpatialSplit_SAH 4 10 sceneScalene s H).
Defined.

Lemma queries_report_only_real_hits_witness :
  let root := Some (SBVHLeaf 0 0 5 BBox_default) in
  let boxTest := fun (_ : BBox) (_ : Ray) => true in
  SBVH.GetIntersection boxTest sceneSpatial rayThroughFirst root
  = Ok (mkIntersection (Fin 1) (Some 0))
  /\ SBVH.DoesIntersect boxTest sceneSpatial rayThroughFirst root = Ok true
  /\ (exists g, In g sceneSpatial
                /\ mkIntersection (Fin 1) (Some 0)
                   = geom_GetIntersection g rayThroughFirst)
  /\ (exists g, In g sceneSpatial
                /\ (isx_t (geom_GetIntersection g rayThroughFirst) >? zero)%flt = true).
Proof.
  intros root boxTest.
  assert (H1 : SBVH.GetIntersection boxTest sceneSpatial rayThroughFirst root
               = Ok (mkIntersection (Fin 1) (Some 0)))
    by (vm_compute; reflexivity).
  assert (H2 : SBVH.DoesIntersect boxTest sceneSpatial rayThroughFirst root = Ok true)
    by (vm_compute; reflexivity).
  split; [exact H1|]. split; [exact H2|].
  destruct (queries_report_only_real_hits boxTest sceneSpatial rayThroughFirst root)
    as [Q1 Q2].
  split.
  - destruct (Q1 _ H1) as [C | [g [Hin [E _]]]]; [discriminate|].
    exists g. auto.
  - exact (Q2 H2).
Defined.

Lemma Build_queries_are_brute_force_over_reordered_list_witness :
  let boxTest := fun (_ : BBox) (_ : Ray) => true in
  exists s,
    SBVH.Build SpatialSplit_SAH 4 10 sceneScalene = Ok s
    /\ boxTestSoundBelowRoot boxTest (SBVH.m_geoms s) rayThroughFirst (SBVH.m_root s)
    /\ SBVH.GetIntersection boxTest (SBVH.m_geoms s) rayThroughFirst (SBVH.m_root s)
       = Ok (snd (SBVH.bruteForce rayThroughFirst (SBVH.m_geoms s)))
    /\ SBVH.DoesIntersect boxTest (SBVH.m_geoms s) rayThroughFirst (SBVH.m_root s)
       = Ok (existsb (hitAhead rayThroughFirst) (SBVH.m_geoms s)).
Proof.
  intros boxTest.
  assert (H : { s | SBVH.Build SpatialSplit_SAH 4 10 sceneScalene = Ok s })
    by (eexists; evaluate; reflexivity).
  destruct H as [s H]. exists s. split; [exact H|].
  assert (S : boxTestSoundBelowRoot boxTest (SBVH.m_geoms s) rayThroughFirst
                                    (SBVH.m_root s)).
  { evaluate in H. inversion H; subst s; clear H.
    cbn [SBVH.m_root SBVH.m_geoms boxTestSoundBelowRoot boxTestSound].
    repeat split; intros C; discriminate C. }
  split; [exact S|].
  exact (@Build_queries_are_brute_force_over_reordered_list _
           SpatialSplit_SAH 4 10 sceneScalene s boxTest rayThroughFirst H S).
Defined.

Lemma SAH_build_permutes_the_primitives_witness :
  exists s,
    SBVH.Build SAH 4 10 sceneSpatial = Ok s
    /\ Permutation (SBVH.m_geoms s) sceneSpatial
    /\ contiguous 0 (rootSpans (SBVH.m_root s)) (length sceneSpatial).
Proof.
  assert (H : { s | SBVH.Build SAH 4 10 sceneSpatial = Ok s })
    by (eexists; evaluate; reflexivity).
  destruct H as [s H]. exists s. split; [exact H|].
  exact (@SAH_build_permutes_the_primitives _ 4 10 sceneSpatial s H).
Defined.

Lemma object_build_leaf_boxes_witness :
  exists s,
    SBVH.Build SAH 4 10 sceneSpatial = Ok s
    /\ forall i o c box,
         In (SBVHLeaf i o c box) (SBVH.m_nodes s) ->
         box = bboxOfGeoms (slice o (o + c) (SBVH.m_geoms s)).
Proof.
  assert (H : { s | SBVH.Build SAH 4 10 sceneSpatial = Ok s })
    by (eexists; evaluate; reflexivity).
  destruct H as [s H]. exists s. split; [exact H|].
  exact (@object_build_leaf_boxes _ SAH 4 10 sceneSpatial s (or_intror eq_refl) H).
Defined.

Lemma object_build_any_hit_correct_witness :
  let boxTest := fun (_ : BBox) (_ : Ray) => true in
  exists s,
    SBVH.Build SAH 4 10 sceneSpatial = Ok s
    /\ boxTestSoundBelowRoot boxTest (SBVH.m_geoms s) rayThroughFirst (SBVH.m_root s)
    /\ SBVH.DoesIntersect boxTest (SBVH.m_geoms s) rayThroughFirst (SBVH.m_root s)
       = Ok (existsb (fun g => (isx_t (geom_GetIntersection g rayThroughFirst)
                                >? zero)%flt) sceneSpatial).
Proof.
  intros boxTest.
  assert (H : { s | SBVH.Build SAH 4 10 sceneSpatial = Ok s })
    by (eexists; evaluate; reflexivity).
  destruct H as [s H]. exists s. split; [exact H|].
  assert (S : boxTestSoundBelowRoot boxTest (SBVH.m_geoms s) rayThroughFirst
                                    (SBVH.m_root s)).
  { evaluate in H. inversion H; subst s; clear H.
    cbn [SBVH.m_root SBVH.m_geoms boxTestSoundBelowRoot boxTestSound].
    repeat split; intros C; discriminate C. }
  split; [exact S|].
  exact (@object_build_any_hit_correct _ SAH 4 10 sceneSpatial s boxTest
           rayThroughFirst (or_intror eq_refl) H S).
Defined.

Lemma object_build_nearest_hit_correct_witness :
  let boxTest := fun (_ : BBox) (_ : Ray) => true in
  let t g := isx_t (geom_GetIntersection g rayThroughFirst) in
  exists s,
    SBVH.Build SAH 4 10 sceneSpatial = Ok s
    /\ boxTestSoundBelowRoot boxTest (SBVH.m_geoms s) rayThroughFirst (SBVH.m_root s)
    /\ let nearest :=
         SBVH.GetIntersection boxTest (SBVH.m_geoms s) rayThroughFirst
                              (SBVH.m_root s) in
       (nearest = Ok Intersection_default
        /\ Forall (fun g => (t g >? zero)%flt && (t g <? INFINITY)%flt = false)
                  sceneSpatial)
       \/ (exists g,
             In g sceneSpatial
             /\ nearest = Ok (geom_GetIntersection g rayThroughFirst)
             /\ (t g >? zero)%flt = true
             /\ (t g <? INFINITY)%flt = true
             /\ forall g', In g' sceneSpatial -> (t g' >? zero)%flt = true ->
                           (t g' <? t g)%flt = false).
Proof.
  intros boxTest t.
  assert (H : { s | SBVH.Build SAH 4 10 sceneSpatial = Ok s })
    by (eexists; evaluate; reflexivity).
  destruct H as [s H]. exists s. split; [exact H|].
  assert (S : boxTestSoundBelowRoot boxTest (SBVH.m_geoms s) rayThroughFirst
                                    (SBVH.m_root s)).
  { evaluate in H. inversion H; subst s; clear H.
    cbn [SBVH.m_root SBVH.m_geoms boxTestSoundBelowRoot boxTestSound].
    repeat split; intros C; discriminate C. }
  split; [exact S|].
  exact (@object_build_nearest_hit_correct _ SAH 4 10 sceneSpatial s boxTest
           rayThroughFirst (or_intror eq_refl) H S).
Defined.

Lemma object_build_leaf_size_bound_witness :
  exists s,
    SBVH.Build SAH 8 1 sceneLeafTie = Ok s
    /\ forall i o c box,
         In (SBVHLeaf i o c box) (SBVH.m_nodes s) ->
         c = 1
         \/ (SAH = SAH /\ 4 < c /\ (Z.of_nat c <= 8)%Z)
         \/ centroidsCoincide (slice o (o + c) (SBVH.m_geoms s)) = true.
Proof.
  assert (H : { s | SBVH.Build SAH 8 1 sceneLeafTie = Ok s })
    by (eexists; evaluate; reflexivity).
  destruct H as [s H]. exists s. split; [exact H|].
  exact (@object_build_leaf_size_bound _ SAH 8 1 sceneLeafTie s (or_intror eq_refl) H).
Defined.

Lemma object_bucket_counts_are_partition_sizes_witness :
  let rr := rootRange sceneLeafTie in
  exists buckets,
    fillBuckets (root_bboxCentroids rr) (root_dim rr) (root_geomInfos rr) new_buckets
    = Ok buckets
    /\ snd (fst (objectSides 5 buckets))
       = Z.of_nat (length (filter (inNearHalf (root_bboxCentroids rr) (root_dim rr) 5)
                                  (root_geomInfos rr))).
Proof.
  intros rr.
  assert (H : { buckets |
                fillBuckets (root_bboxCentroids rr) (root_dim rr)
                            (root_geomInfos rr) new_buckets = Ok buckets })
    by (eexists; evaluate; reflexivity).
  destruct H as [buckets H]. exists buckets. split; [exact H|].
  exact (proj1 (@object_bucket_counts_are_partition_sizes
                  (root_bboxCentroids rr) (root_dim rr) (root_geomInfos rr)
                  buckets 5 H)).
Defined.

Lemma Flatten_children_positions_witness :
  exists s root nearChild farChild i a b,
    SBVH.Build EqualCounts 4 10 sceneThree = Ok s
    /\ SBVH.m_root s = Some root
    /\ nth_error (SBVH.Flatten (Some root)) 0
       = Some (SBVHInterior (Some nearChild) (Some farChild) i a b)
    /\ nth_error (SBVH.Flatten (Some root)) 1 = Some nearChild
    /\ nth_error (SBVH.Flatten (Some root))
                 (1 + length (SBVH.FlattenRecursive nearChild))
       = Some farChild.
Proof.
  assert (H : { s | SBVH.Build EqualCounts 4 10 sceneThree = Ok s })
    by (eexists; evaluate; reflexivity).
  destruct H as [s H]. exists s.
  evaluate in H. inversion H; subst s; clear H.
  do 6 eexists. split; [evaluate; reflexivity|].
  split; [reflexivity|].
  match goal with
  | |- ?P /\ _ =>
      assert (H0 : P) by reflexivity; split; [exact H0|]
  end.
  destruct (Flatten_children_positions _ 0 H0) as [H1 [H2 _]].
  split; [exact H1 | exact H2].
Defined.

Lemma PartitionEqualCounts_median_split_witness :
  let gis := SBVH.initGeomInfos sceneThree in
  let dim := EAxis.X in
  Forall (fun gi => vget (m_centroid (bbox gi)) dim <> NaN) gis
  /\ snd (PartitionEqualCounts dim 0 3 gis) = 1%Z
  /\ forall x y,
       In x (firstn 1 (fst (PartitionEqualCounts dim 0 3 gis))) ->
       In y (skipn 1 (fst (PartitionEqualCounts dim 0 3 gis))) ->
       CompareCentroid dim y x = false.
Proof.
  intros gis dim.
  assert (H : Forall (fun gi => vget (m_centroid (bbox gi)) dim <> NaN) gis)
    by (repeat (constructor; [evaluate; discriminate|]); constructor).
  split; [exact H|].
  destruct (@PartitionEqualCounts_median_split dim 0 gis H) as [H1 [_ H3]].
  split; [exact H1 | exact H3].
Defined.

Lemma spatialLoop_only_appends_witness :
  exists gis1 spatialSplitBuckets,
    rootSpatialBuckets sceneScalene = Ok (gis1, spatialSplitBuckets)
    /\ let gis := root_geomInfos (rootRange sceneScalene) in
       length gis <= length gis1
       /\ map entryKey (firstn (length gis) gis1) = map entryKey gis
       /\ Forall (fun a => In (geometryId a) (map geometryId (slice 0 (0 + 5) gis))
                           /\ isTriangleId sceneScalene (geometryId a))
                 (skipn (length gis) gis1).
Proof.
  assert (H : { p | rootSpatialBuckets sceneScalene = Ok p })
    by (eexists; evaluate; reflexivity).
  destruct H as [[gis1 sb] H]. exists gis1, sb. split; [exact H|].
  unfold rootSpatialBuckets in H. inv_bind H.
  refine (@spatialLoop_only_appends _ _ _ _ _ _ _ 5 0 _ _ _ _ _ H).
  evaluate. repeat constructor.
Defined.

Lemma spatialCandidate_frame_witness :
  let rr := rootRange sceneScalene in
  let gis := root_geomInfos rr in
  exists geomInfos2 st,
    spatialCandidate sceneScalene ([] ++ gis ++ []) 0 (0 + length gis)
                     (root_bboxAllGeoms rr) (root_bboxCentroids rr) (root_dim rr)
    = Ok (geomInfos2, st)
    /\ length ([] ++ gis ++ []) <= length geomInfos2
    /\ map entryKey (firstn 0 geomInfos2) = map entryKey []
    /\ map entryKey (slice (0 + length gis) (0 + length gis + 0) geomInfos2)
       = map entryKey []
    /\ Forall (fun gi => In (geometryId gi) (map geometryId gis))
              (slice 0 (0 + length gis) geomInfos2)
    /\ (isSpatialSplit st = false ->
        map entryKey (slice 0 (0 + length gis) geomInfos2) = map entryKey gis).
Proof.
  intros rr gis.
  assert (H : { p | spatialCandidate sceneScalene ([] ++ gis ++ []) 0 (0 + length gis)
                      (root_bboxAllGeoms rr) (root_bboxCentroids rr) (root_dim rr)
                    = Ok p })
    by (eexists; evaluate; reflexivity).
  destruct H as [[gis2 st] H]. exists gis2, st. split; [exact H|].
  exact (@spatialCandidate_frame _ sceneScalene [] gis [] _ _ _ gis2 st H).
Defined.

Lemma object_buckets_never_fault_witness :
  let gis := SBVH.initGeomInfos sceneSpatial in
  finiteSpread gis = true
  /\ degenerateCentroids gis = false
  /\ exists buckets,
       fillBuckets (centroidBoxOfRange gis) (BBoxMaximumExtent (centroidBoxOfRange gis))
                   gis new_buckets = Ok buckets
       /\ length buckets = Z.to_nat NUM_BUCKET.
Proof.
  intros gis.
  assert (H1 : finiteSpread gis = true) by (evaluate; reflexivity).
  assert (H2 : degenerateCentroids gis = false) by (evaluate; reflexivity).
  split; [exact H1|]. split; [exact H2|].
  exact (proj2 (@object_buckets_never_fault gis H1 H2)).
Defined.

Lemma SAH_split_leaves_no_side_empty_witness :
  let gis := SBVH.initGeomInfos sceneSpatial in
  4 < length gis
  /\ finiteSpread gis = true
  /\ degenerateCentroids gis = false
  /\ exists gis' split,
       chooseSplit SAH 4 sceneSpatial ([] ++ gis ++ []) 0 (Z.of_nat (0 + length gis))
                   (bboxOfRange gis) (centroidBoxOfRange gis)
                   (BBoxMaximumExtent (centroidBoxOfRange gis)) = Ok (gis', split)
       /\ match split with
          | None => gis' = [] ++ gis ++ []
          | Some mid => (0 < mid < Z.of_nat (0 + length gis))%Z
          end.
Proof.
  intros gis.
  assert (H0 : 4 < length gis) by (evaluate; repeat constructor).
  assert (H1 : finiteSpread gis = true) by (evaluate; reflexivity).
  assert (H2 : degenerateCentroids gis = false) by (evaluate; reflexivity).
  split; [exact H0|]. split; [exact H1|]. split; [exact H2|].
  exact (@SAH_split_leaves_no_side_empty _ 4 sceneSpatial [] gis [] (bboxOfRange gis)
           H0 H1 H2).
Defined.

Lemma SAH_build_returns_witness :
  sceneSpatial <> []
  /\ spreadFinite (map (fun g => m_centroid (geom_GetBBox g)) sceneSpatial) = true
  /\ exists s, SBVH.Build SAH 4 (length sceneSpatial) sceneSpatial = Ok s.
Proof.
  assert (H1 : sceneSpatial <> []) by discriminate.
  assert (H2 : spreadFinite (map (fun g => m_centroid (geom_GetBBox g)) sceneSpatial)
               = true)
    by (evaluate; reflexivity).
  split; [exact H1|]. split; [exact H2|].
  exact (@SAH_build_returns _ 4 sceneSpatial H1 H2).
Defined.

Lemma strategies_coincide_on_small_scenes_witness :
  length sceneThree <= 4
  /\ SBVH.Build SpatialSplit_SAH 1 3 sceneThree = SBVH.Build EqualCounts 4 3 sceneThree.
Proof.
  assert (H : length sceneThree <= 4) by (evaluate; repeat constructor).
  split; [exact H|].
  exact (proj2 strategies_coincide_on_small_scenes SpatialSplit_SAH 1%Z 4%Z 3 sceneThree H).
Defined.

Lemma BuildRecursive_empty_range_never_returns_witness :
  let st := mkBuildState (SBVH.initGeomInfos sceneThree) 0 [] in
  (0 <= 2 <= Z.of_nat (length (geomInfos st)))%Z
  /\ SBVH.BuildRecursive SAH 4 sceneThree 100 2 2 st = OutOfFuel.
Proof.
  intros st.
  assert (H : (0 <= 2 <= Z.of_nat (length (geomInfos st)))%Z)
    by (evaluate; split; discriminate).
  split; [exact H|].
  exact (@BuildRecursive_empty_range_never_returns _ SAH 4 sceneThree 100 2 st H).
Defined.

Lemma findCandidate_spatial_needs_overlap_witness :
  exists buckets gis1 spatialSplitBuckets,
    rootBuckets sceneApart = Ok buckets
    /\ rootSpatialBuckets sceneApart = Ok (gis1, spatialSplitBuckets)
    /\ length (root_geomInfos (rootRange sceneApart)) < length gis1
    /\ let inv := root_invAllGeometriesSA (rootRange sceneApart) in
       (forall i, In i boundaries -> restrictionMet i buckets inv = false)
       /\ isSpatialSplit (findCandidate buckets spatialSplitBuckets inv) = false
       /\ spatialSplitCost (findCandidate buckets spatialSplitBuckets inv) = INFINITY.
Proof.
  assert (Hb : { b | rootBuckets sceneApart = Ok b })
    by (eexists; evaluate; reflexivity).
  destruct Hb as [buckets Hb].
  assert (Hs : { p | rootSpatialBuckets sceneApart = Ok p })
    by (eexists; evaluate; reflexivity).
  destruct Hs as [[gis1 sb] Hs].
  exists buckets, gis1, sb. split; [exact Hb|]. split; [exact Hs|].
  split.
  { evaluate in Hs. inversion Hs; subst gis1 sb. evaluate. repeat constructor. }
  intros inv.
  assert (H : forall i, In i boundaries -> restrictionMet i buckets inv = false).
  { subst inv. evaluate in Hb. inversion Hb; subst buckets.
    intros i Hi. unfold boundaries in Hi. cbn in Hi.
    repeat (destruct Hi as [<- | Hi]; [vm_compute; reflexivity|]). destruct Hi. }
  split; [exact H|].
  exact (proj2 (findCandidate_spatial_needs_overlap buckets sb inv) H).
Defined.

Lemma clipTriangle_box_in_slab_witness :
  let tri := mkTriangle (pt 1 0 0) (pt 13 1 0) (pt 13 0 0) in
  let bboxAllGeoms := BBox_of_corners (pt 0 0 0) (pt 16 4 0) in
  let bucketSize := Fin (4 # 3) in
  exists tight,
    clipTriangle tri bboxAllGeoms EAxis.X bucketSize 0 = Ok tight
    /\ vget (m_max tight) EAxis.X = Fin (4 # 3)
    /\ (vget (m_min tight) EAxis.X = Fin (4 # 3)
        \/ ((Fin (4 # 3) - bucketSize <? vget (m_min tight) EAxis.X)%flt = true
            /\ (vget (m_min tight) EAxis.X <? Fin (4 # 3))%flt = true)).
Proof.
  intros tri bboxAllGeoms bucketSize.
  assert (H : { tight | clipTriangle tri bboxAllGeoms EAxis.X bucketSize 0 = Ok tight })
    by (eexists; vm_compute; reflexivity).
  destruct H as [tight H]. exists tight. split; [exact H|].
  exact (@clipTriangle_box_in_slab _ tri bboxAllGeoms EAxis.X bucketSize 0 tight
           eq_refl H).
Defined.

Lemma EqualCounts_tree_is_balanced_witness :
  exists s root,
    SBVH.Build EqualCounts 4 10 sceneSpatial = Ok s
    /\ SBVH.m_root s = Some root
    /\ 2 ^ height root <= Nat.max 1 (2 * length sceneSpatial - 2)
    /\ height root <= Nat.log2_up (length sceneSpatial).
Proof.
  assert (H : { s | SBVH.Build EqualCounts 4 10 sceneSpatial = Ok s })
    by (eexists; evaluate; reflexivity).
  destruct H as [s H].
  assert (R : { root | SBVH.m_root s = Some root }).
  { evaluate in H. inversion H; subst s. eexists. reflexivity. }
  destruct R as [root R]. exists s, root.
  split; [exact H|]. split; [exact R|].
  exact (@EqualCounts_tree_is_balanced _ 4 10 sceneSpatial s root H R).
Defined.
